(** * NanoClaw Lark channel: splitter, inbound normalisation, outbound delivery

    A shallow embedding of [src/channels/lark.ts] (the version of the file
    with [splitMarkdown], [_sendDirect] and the plain-text fallback) and the
    properties of it that the specification states.

    Conventions.
    - A JavaScript string is a sequence of code units; [string] stands for it,
      one [ascii] per code unit, so the model has 256 code units.  Every
      string primitive the channel uses ([length], [slice], [lastIndexOf],
      [startsWith], [replace] with a string pattern, concatenation) works code
      unit by code unit.
    - [Date.now()] is an explicit argument [now] (milliseconds, [Z]); a
      handler reads the clock once.
    - [JSON.parse] and [JSON.stringify] are the platform's: an event carries
      what its content parses to, and a platform call the text its content is
      built from.
    - Callbacks and calls of the platform's send primitives are recorded, in
      order, in a trace; whether a send succeeds is decided by a parameter
      [platform].  The chat listing of [syncChatMetadata] and the names it
      stores are kept in a log of their own.
    - An [async] method is run to completion: the model is sequential.  A
      method that has not completed within the requests it is given has
      diverged.
    - Logging is left out. *)

From Stdlib Require Import ZArith Lia Ascii.
From stdpp Require Import base option list strings gmap fin_maps.

Local Open Scope Z_scope.
Local Open Scope nat_scope.

(** ** JavaScript string primitives *)

Module JS.

(** The line feed, written ['\n'] in the source. *)
Definition LF : string := String "010"%char "".

(** The double quote, as it appears inside the template literals. *)
Definition DQ : string := String "034"%char "".

(** [s.slice(0, n)] for an integer [0 <= n]. *)
Fixpoint take (n : nat) (s : string) : string :=
  match n, s with
  | S n', String c s' => String c (take n' s')
  | _, _ => ""
  end.

(** [s.slice(n)] for an integer [0 <= n]. *)
Fixpoint drop (n : nat) (s : string) : string :=
  match n, s with
  | S n', String _ s' => drop n' s'
  | _, _ => s
  end.

(** [s.startsWith(pat)]. *)
Fixpoint startsWith (s pat : string) : bool :=
  match pat, s with
  | "", _ => true
  | String p pat', String c s' => if decide (p = c) then startsWith s' pat' else false
  | String _ _, "" => false
  end.

(** The descending search of [lastIndexOf]: the largest [k <= i] at which
    [pat] occurs in [s], or [-1]. *)
Fixpoint lastIndexOf_down (s pat : string) (i : nat) : Z :=
  if startsWith (drop i s) pat then Z.of_nat i
  else match i with
       | O => (-1)%Z
       | S j => lastIndexOf_down s pat j
       end.

(** [s.lastIndexOf(pat, pos)] for an integer [0 <= pos]: the search starts
    at [min(pos, s.length)]. *)
Definition lastIndexOf (s pat : string) (pos : nat) : Z :=
  lastIndexOf_down s pat (Nat.min pos (String.length s)).

(** The ascending search of [indexOf]: the least [k] at which [pat] occurs
    in [s], counted from [i]. *)
Fixpoint indexOf_up (s pat : string) (i : nat) : option nat :=
  if startsWith s pat then Some i
  else match s with
       | "" => None
       | String _ s' => indexOf_up s' pat (S i)
       end.

Definition indexOf (s pat : string) : option nat := indexOf_up s pat 0.

(** [c.repeat(n)] for a one-character string. *)
Fixpoint repeat (c : ascii) (n : nat) : string :=
  match n with
  | O => ""
  | S n' => String c (repeat c n')
  end.

End JS.

(** ** The splitter *)

(** The three ways the loop of [splitMarkdown] cuts a chunk off. *)
Inductive Cut := ParagraphCut | LineCut | HardCut.

(** The characters a cut consumes between the chunk and the new remainder. *)
Definition separator (c : Cut) : string :=
  match c with
  | ParagraphCut => JS.LF +:+ JS.LF
  | LineCut => JS.LF
  | HardCut => ""
  end.

(** The body of the [while] loop of [splitMarkdown] past its early exit, for a
    [remaining] longer than [maxLen]: the cut taken, the chunk pushed and the
    new value of [remaining]. *)
Definition splitStep (maxLen : nat) (remaining : string) : Cut * string * string :=
  let splitIdx := JS.lastIndexOf remaining (JS.LF +:+ JS.LF) maxLen in
  if bool_decide (0 < splitIdx)%Z then
    (ParagraphCut, JS.take (Z.to_nat splitIdx) remaining,
     JS.drop (Z.to_nat splitIdx + 2) remaining)
  else
    let splitIdx := JS.lastIndexOf remaining JS.LF maxLen in
    if bool_decide (0 < splitIdx)%Z then
      (LineCut, JS.take (Z.to_nat splitIdx) remaining,
       JS.drop (Z.to_nat splitIdx + 1) remaining)
    else
      (HardCut, JS.take maxLen remaining, JS.drop maxLen remaining).

(** The [while] loop of [splitMarkdown], with the [chunks] array and
    [remaining] as explicit state.  [fuel] bounds the number of times the loop
    condition is evaluated; [None] means the loop has not returned within that
    bound. *)
Fixpoint splitLoop (fuel : nat) (maxLen : nat) (chunks : list string) (remaining : string)
  : option (list string) :=
  match fuel with
  | O => None
  | S fuel' =>
    if bool_decide (String.length remaining = 0) then Some chunks
    else if bool_decide (String.length remaining ≤ maxLen) then Some (chunks ++ [remaining])
    else
      let '(_, chunk, rest) := splitStep maxLen remaining in
      splitLoop fuel' maxLen (chunks ++ [chunk]) rest
  end.

(** [splitMarkdown(text, maxLen)] run with a bound on the loop. *)
Definition splitMarkdown_fuel (fuel : nat) (text : string) (maxLen : nat)
  : option (list string) :=
  if bool_decide (String.length text ≤ maxLen) then Some [text]
  else splitLoop fuel maxLen [] text.

(** [splitMarkdown(text, maxLen)]: the loop is given one evaluation of its
    condition per character of [text], and one more. *)
Definition splitMarkdown (text : string) (maxLen : nat) : option (list string) :=
  splitMarkdown_fuel (S (String.length text)) text maxLen.

(** The same loop with a ghost record: next to each chunk, the separator that
    was consumed after it (the empty string after the final chunk). *)
Fixpoint splitLoop_cuts (fuel : nat) (maxLen : nat) (cuts : list (string * string))
    (remaining : string) : option (list (string * string)) :=
  match fuel with
  | O => None
  | S fuel' =>
    if bool_decide (String.length remaining = 0) then Some cuts
    else if bool_decide (String.length remaining ≤ maxLen) then Some (cuts ++ [(remaining, "")])
    else
      let '(cut, chunk, rest) := splitStep maxLen remaining in
      splitLoop_cuts fuel' maxLen (cuts ++ [(chunk, separator cut)]) rest
  end.

Definition splitMarkdown_cuts (text : string) (maxLen : nat)
  : option (list (string * string)) :=
  if bool_decide (String.length text ≤ maxLen) then Some [(text, "")]
  else splitLoop_cuts (S (String.length text)) maxLen [] text.

(** Chunks put back together, each followed by the separator consumed after it. *)
Fixpoint rejoin (cuts : list (string * string)) : string :=
  match cuts with
  | [] => ""
  | (chunk, sep) :: cuts' => chunk +:+ sep +:+ rejoin cuts'
  end.

(** The separators a cut can consume, and none. *)
Definition isSeparator (sep : string) : Prop :=
  sep = JS.LF +:+ JS.LF ∨ sep = JS.LF ∨ sep = "".

(** ** Constants of the channel *)

(** [MAX_TEXT_LENGTH]: the split limit of an outgoing text. *)
Definition MAX_TEXT_LENGTH : nat := 4000.

(** [DEDUP_TTL_MS] and [DEDUP_CLEANUP_INTERVAL_MS], in milliseconds. *)
Definition DEDUP_TTL_MS : Z := (10 * 60 * 1000)%Z.
Definition DEDUP_CLEANUP_INTERVAL_MS : Z := (5 * 60 * 1000)%Z.

(** ** JavaScript values the handler meets *)

(** Truthiness of a value that is a string or [undefined]: [Some s] for a
    non-empty string [s], [None] for [undefined] and for the empty string. *)
Definition truthy (v : option string) : option string :=
  match v with
  | Some (String c s) => Some (String c s)
  | _ => None
  end.

(** [id && seen.has(id)] for an [id] already reduced by [truthy]. *)
Definition has (seen : gmap string Z) (id : option string) : bool :=
  match id with
  | Some k => bool_decide (is_Some (seen !! k))
  | None => false
  end.

(** [s.replace(/^lark:/, '')]. *)
Definition stripLarkPrefix (jid : string) : string :=
  if JS.startsWith jid "lark:" then JS.drop 5 jid else jid.

(** The replacement text of [String.prototype.replace] for a string pattern
    (no capture groups): [$$] is a dollar, [$&] the match, [$`] the part
    before it and [$'] the part after it; every other character, and a dollar
    followed by anything else, is literal. *)
Fixpoint getSubstitution (template matched before after : string) : string :=
  match template with
  | "" => ""
  | String c t =>
    if decide (c = "$"%char) then
      match t with
      | String d t' =>
        if decide (d = "$"%char) then "$" +:+ getSubstitution t' matched before after
        else if decide (d = "&"%char) then matched +:+ getSubstitution t' matched before after
        else if decide (d = "`"%char) then before +:+ getSubstitution t' matched before after
        else if decide (d = "'"%char) then after +:+ getSubstitution t' matched before after
        else String c (getSubstitution t matched before after)
      | "" => String c ""
      end
    else String c (getSubstitution t matched before after)
  end.

(** [s.replace(pat, repl)] for a string pattern: the first occurrence only. *)
Definition replace (s pat repl : string) : string :=
  match JS.indexOf s pat with
  | None => s
  | Some k =>
    let before := JS.take k s in
    let after := JS.drop (k + String.length pat) s in
    before +:+ getSubstitution repl pat before after +:+ after
  end.

(** White space that [parseInt] skips, among the code units below 256. *)
Definition isWhiteSpace (c : ascii) : bool :=
  bool_decide (nat_of_ascii c ∈ [9; 10; 11; 12; 13; 32; 160]).

Definition digitValue (c : ascii) : option Z :=
  let n := nat_of_ascii c in
  if bool_decide (48 ≤ n ≤ 57) then Some (Z.of_nat n - 48)%Z else None.

Fixpoint skipWhiteSpace (s : string) : string :=
  match s with
  | String c s' => if isWhiteSpace c then skipWhiteSpace s' else s
  | "" => ""
  end.

(** The value of the longest prefix of decimal digits; [None] when it is empty. *)
Fixpoint digitsPrefix (acc : option Z) (s : string) : option Z :=
  match s with
  | String c s' =>
    match digitValue c with
    | Some d => digitsPrefix (Some (10 * default 0%Z acc + d)%Z) s'
    | None => acc
    end
  | "" => acc
  end.

(** [parseInt(v, 10)]: [None] stands for [NaN].  A value beyond 2^53 is kept
    exact here where the source rounds it to a double; both are out of the
    range of a [Date]. *)
Definition parseInt10 (v : option string) : option Z :=
  match v with
  | None => None
  | Some s =>
    match skipWhiteSpace s with
    | String c s' =>
      if decide (c = "-"%char) then Z.opp <$> digitsPrefix None s'
      else if decide (c = "+"%char) then digitsPrefix None s'
      else digitsPrefix None (String c s')
    | "" => None
    end
  end.

(** [n || fallback] for a number [n]: [NaN] and zero are falsy. *)
Definition numberOr (n : option Z) (fallback : Z) : Z :=
  match n with
  | Some v => if decide (v = 0%Z) then fallback else v
  | None => fallback
  end.

(** The largest time value of a [Date], in milliseconds either side of the epoch. *)
Definition MAX_TIME_VALUE : Z := 8640000000000000%Z.

(** ** Data model *)

(** An entry of [message.mentions]; [open_id] is [mention.id?.open_id]. *)
Record Mention := {
  key : string;
  open_id : option string;
  mention_name : option string;
}.

(** What [JSON.parse(message.content).text] evaluates to inside the [try]:
    [Unparseable] when the parse or the property access throws, otherwise the
    value of the [text] property, [None] when there is none.  The property is
    a string in every text message of the platform; other values are not
    modelled. *)
Inductive Payload :=
| Unparseable
| TextField (text : option string).

(** The [message] object of an [im.message.receive_v1] event. *)
Record LarkMessage := {
  message_id : option string;
  message_type : option string;
  content : Payload;
  chat_id : option string;
  chat_type : option string;
  create_time : option string;
  mentions : option (list Mention);
}.

(** The event [data]: [message] is [data?.message], [sender_open_id] is
    [data.sender?.sender_id?.open_id]. *)
Record LarkEvent := {
  message : option LarkMessage;
  sender_open_id : option string;
}.

(** The normalised [Message] handed to [onMessage].  [timestamp] is the time
    value whose [toISOString()] the source passes. *)
Module Message.
Record t := {
  id : string;
  chat_jid : string;
  sender : string;
  sender_name : string;
  content : string;
  timestamp : Z;
  is_from_me : bool;
  is_bot_message : bool;
}.
End Message.

Module RegisteredGroup.
Record t := {
  name : string;
  folder : string;
  trigger : string;
  added_at : string;
}.
End RegisteredGroup.

(** The [mentionUser] option of [sendMessage]. *)
Module MentionUser.
Record t := {
  id : string;
  name : string;
}.
End MentionUser.

(** The [opts] argument of [sendMessage]. *)
Record SendOpts := {
  replyToMessageId : option string;
  mentionUser : option MentionUser.t;
}.

(** An item of [outgoingQueue]. *)
Record QueueItem := {
  item_jid : string;
  item_text : string;
}.

Inductive MsgType := Post | Text.

(** What the channel does to the outside, in the order it does it.  The
    [body] of a platform call is the text the [content] is built from, by
    functions that return for every text:
    [JSON.stringify(markdownToPostContent(body))] for [Post] (msg_type 'post')
    and [JSON.stringify({text: body})] for [Text] (msg_type 'text'). *)
Inductive Effect :=
| onChatMetadata (jid : string) (timestamp : Z) (chatName : option string)
    (channel : string) (isGroup : bool)
| registeredGroups
| onMessage (jid : string) (m : Message.t)
| message_create (receive_id : string) (msg_type : MsgType) (body : string)
| message_reply (reply_to : string) (msg_type : MsgType) (body : string).

(** The mutable fields of a [LarkChannel]; [dedupTimer] records whether the
    sweep timer is armed. *)
Record LarkChannel := {
  botOpenId : option string;
  connected : bool;
  outgoingQueue : list QueueItem;
  flushing : bool;
  seenMessages : gmap string Z;
  dedupTimer : bool;
}.

(** The channel and the trace of its effects. *)
Record World := {
  chan : LarkChannel;
  trace : list Effect;
}.

(** [new LarkChannel(opts)] with credentials present. *)
Definition newChannel : LarkChannel :=
  {| botOpenId := None; connected := false; outgoingQueue := [];
     flushing := false; seenMessages := ∅; dedupTimer := true |}.

Definition newWorld : World := {| chan := newChannel; trace := [] |}.

(** ** A monad for methods: state, exceptions, divergence *)

Inductive Error := RangeError | PlatformError | ListenError.

Inductive Outcome (A : Type) :=
| Returned (a : A)
| Thrown (e : Error)
| Diverged.
Arguments Returned {A} a.
Arguments Thrown {A} e.
Arguments Diverged {A}.

Definition M (A : Type) : Type := World → Outcome A * World.

#[export] Instance M_ret : MRet M := λ A a w, (Returned a, w).

#[export] Instance M_bind : MBind M := λ A B f m w,
  match m w with
  | (Returned a, w') => f a w'
  | (Thrown e, w') => (Thrown e, w')
  | (Diverged, w') => (Diverged, w')
  end.

Definition throw {A} (e : Error) : M A := λ w, (Thrown e, w).

Definition diverge {A} : M A := λ w, (Diverged, w).

(** [try { body } catch (err) { handler }]. *)
Definition tryCatch {A} (body : M A) (handler : Error → M A) : M A := λ w,
  match body w with
  | (Thrown e, w') => handler e w'
  | r => r
  end.

(** [try { body } finally { cleanup }]. *)
Definition tryFinally {A} (body : M A) (cleanup : M unit) : M A := λ w,
  match body w with
  | (Returned a, w') =>
    match cleanup w' with
    | (Returned _, w'') => (Returned a, w'')
    | (Thrown e, w'') => (Thrown e, w'')
    | (Diverged, w'') => (Diverged, w'')
    end
  | (Thrown e, w') =>
    match cleanup w' with
    | (Returned _, w'') => (Thrown e, w'')
    | (Thrown e', w'') => (Thrown e', w'')
    | (Diverged, w'') => (Diverged, w'')
    end
  | (Diverged, w') => (Diverged, w')
  end.

Definition getChan : M LarkChannel := λ w, (Returned (chan w), w).

Definition putChan (c : LarkChannel) : M unit := λ w,
  (Returned tt, {| chan := c; trace := trace w |}).

(** A callback of the collaborators: recorded, never throwing. *)
Definition emit (e : Effect) : M unit := λ w,
  (Returned tt, {| chan := chan w; trace := trace w ++ [e] |}).

(** A platform send primitive: the call is recorded; [platform] tells, from
    the calls made so far and this one, whether it resolves or rejects. *)
Definition platformCall (platform : list Effect → Effect → bool) (e : Effect) : M unit := λ w,
  let w' := {| chan := chan w; trace := trace w ++ [e] |} in
  if platform (trace w) e then (Returned tt, w') else (Thrown PlatformError, w').

Definition set_botOpenId (v : option string) (c : LarkChannel) : LarkChannel :=
  {| botOpenId := v; connected := connected c; outgoingQueue := outgoingQueue c;
     flushing := flushing c; seenMessages := seenMessages c; dedupTimer := dedupTimer c |}.

Definition set_connected (v : bool) (c : LarkChannel) : LarkChannel :=
  {| botOpenId := botOpenId c; connected := v; outgoingQueue := outgoingQueue c;
     flushing := flushing c; seenMessages := seenMessages c; dedupTimer := dedupTimer c |}.

Definition set_outgoingQueue (v : list QueueItem) (c : LarkChannel) : LarkChannel :=
  {| botOpenId := botOpenId c; connected := connected c; outgoingQueue := v;
     flushing := flushing c; seenMessages := seenMessages c; dedupTimer := dedupTimer c |}.

Definition set_flushing (v : bool) (c : LarkChannel) : LarkChannel :=
  {| botOpenId := botOpenId c; connected := connected c; outgoingQueue := outgoingQueue c;
     flushing := v; seenMessages := seenMessages c; dedupTimer := dedupTimer c |}.

Definition set_seenMessages (v : gmap string Z) (c : LarkChannel) : LarkChannel :=
  {| botOpenId := botOpenId c; connected := connected c; outgoingQueue := outgoingQueue c;
     flushing := flushing c; seenMessages := v; dedupTimer := dedupTimer c |}.

Definition set_dedupTimer (v : bool) (c : LarkChannel) : LarkChannel :=
  {| botOpenId := botOpenId c; connected := connected c; outgoingQueue := outgoingQueue c;
     flushing := flushing c; seenMessages := seenMessages c; dedupTimer := v |}.

Definition modifyChan (f : LarkChannel → LarkChannel) : M unit :=
  c ← getChan; putChan (f c).

(** [new Date(v).toISOString()]: a time value out of range makes an invalid
    date, on which [toISOString] throws a [RangeError]. *)
Definition toISOString (v : Z) : M Z :=
  if bool_decide (- MAX_TIME_VALUE ≤ v ≤ MAX_TIME_VALUE)%Z then mret v else throw RangeError.

(** ** Chat-name synchronisation

    [syncChatMetadata], which [connect()] awaits last: the listing of the
    chats, page after page, and the names handed to [updateChatName].  The
    listing and the store are collaborators of their own: the requests made
    and the names stored are kept in a log, apart from the trace of the
    callbacks and send primitives. *)

Module ChatSync.

(** An entry of [result.data.items]. *)
Record Chat := {
  chat_id : option string;
  name : option string;
}.

(** [result.data]. *)
Record Data := {
  items : option (list Chat);
  page_token : option string;
}.

(** What one call of [client.im.v1.chat.list] does: it throws, or returns a
    result whose [data] may be missing. *)
Inductive Answer := Throws | Returns (data : option Data).

(** How the run ends: the listing is over and [count] names were stored, or
    an error was caught and logged. *)
Inductive Outcome := Synced (count : nat) | Failed.

(** What a run leaves behind: the page tokens of the requests made, in order
    ([None] for a request without one), and the names stored. *)
Record Log := {
  requests : list (option string);
  stored : list (string * string);
}.

Section Sync.

(** The listing, by the number of the call and the page token sent, and
    [updateChatName], which may throw ([false]), by the names stored so far. *)
Variable list_ : nat → option string → Answer.
Variable updateChatName : list (string * string) → string * string → bool.

(** The [for] loop over the items of a page. *)
Fixpoint storeItems (saved : list (string * string)) (chats : list Chat)
  : list (string * string) * bool :=
  match chats with
  | [] => (saved, true)
  | chat :: rest =>
    match truthy (chat_id chat), truthy (name chat) with
    | Some chatId, Some chatName =>
      let update := ("lark:" +:+ chatId, chatName) in
      if updateChatName saved update then storeItems (saved ++ [update]) rest
      else (saved, false)
    | _, _ => storeItems saved rest
    end
  end.

(** The [do ... while (pageToken)] loop inside the [try]; [fuel] bounds the
    number of requests. *)
Fixpoint syncLoop (fuel : nat) (pageToken : option string) (log : Log)
  : option (Outcome * Log) :=
  match fuel with
  | O => None
  | S fuel' =>
    let asked := {| requests := requests log ++ [pageToken]; stored := stored log |} in
    match list_ (length (requests log)) pageToken with
    | Throws => Some (Failed, asked)
    | Returns data =>
      let '(saved, ok) := storeItems (stored log) (default [] (data ≫= items)) in
      let log' := {| requests := requests asked; stored := saved |} in
      if ok then
        match truthy (data ≫= page_token) with
        | Some token => syncLoop fuel' (Some token) log'
        | None => Some (Synced (length saved), log')
        end
      else Some (Failed, log')
    end
  end.

(** [syncChatMetadata()], given [fuel] requests. *)
Definition syncChatMetadata (fuel : nat) : option (Outcome * Log) :=
  syncLoop fuel None {| requests := []; stored := [] |}.

(** The page token of a request, the first apart, is the non-empty token of
    the answer before it. *)
Definition chained (requests : list (option string)) : Prop :=
  ∀ i token, requests !! S i = Some token →
    ∃ before data t,
      requests !! i = Some before
      ∧ list_ i before = Returns data
      ∧ truthy (data ≫= page_token) = Some t
      ∧ token = Some t.

End Sync.

End ChatSync.

(** ** The channel's methods *)

Section Channel.

(** [ASSISTANT_NAME] and [TRIGGER_PATTERN.test] come from [config.ts], which
    is not among the sources at hand: the channel is modelled for any value
    of the two. *)
Variable ASSISTANT_NAME : string.
Variable TRIGGER_PATTERN : string → bool.

(** The outcome of the platform's send primitives. *)
Variable platform : list Effect → Effect → bool.

(** The [for] loop over [message.mentions]. *)
Fixpoint replaceMentions (botOpenId : string) (mentions : list Mention) (content : string)
  : string :=
  match mentions with
  | [] => content
  | mention :: rest =>
    if bool_decide (open_id mention = Some botOpenId) && bool_decide (key mention ≠ "")
    then replaceMentions botOpenId rest (replace content (key mention) ("@" +:+ ASSISTANT_NAME))
    else replaceMentions botOpenId rest content
  end.

(** The mention normalisation of [handleIncomingMessage]: from
    [let content = textContent] to the end of [if (!isBotMessage)]. *)
Definition normalizeMentions (botOpenId : option string) (isBotMessage : bool)
    (mentions : option (list Mention)) (textContent : string) : string :=
  if isBotMessage then textContent
  else
    let content :=
      match mentions, truthy botOpenId with
      | Some ms, Some bot => replaceMentions bot ms textContent
      | _, _ => textContent
      end in
    if bool_decide (content ≠ textContent) && negb (TRIGGER_PATTERN content)
    then "@" +:+ ASSISTANT_NAME +:+ " " +:+ content
    else content.

(** [handleIncomingMessage(data)], with [Date.now()] given as [now] and the
    value [this.opts.registeredGroups()] returns at this call as [groups]. *)
Definition handleIncomingMessage (now : Z) (groups : gmap string RegisteredGroup.t)
    (data : LarkEvent) : M unit :=
  match message data with
  | None => mret tt
  | Some message =>
    let messageId := truthy (message_id message) in
    c ← getChan;
    if has (seenMessages c) messageId then mret tt
    else
      match messageId with
      | Some mid => putChan (set_seenMessages (<[mid := now]> (seenMessages c)) c)
      | None => mret tt
      end;;
      if bool_decide (message_type message ≠ Some "text") then mret tt
      else
        match content message with
        | Unparseable => mret tt
        | TextField textField =>
          match truthy textField with
          | None => mret tt
          | Some textContent =>
            match truthy (chat_id message) with
            | None => mret tt
            | Some chatId =>
              let jid := "lark:" +:+ chatId in
              let isGroup := bool_decide (chat_type message ≠ Some "p2p") in
              timestamp ← toISOString (numberOr (parseInt10 (create_time message)) now);
              emit (onChatMetadata jid timestamp None "lark" isGroup);;
              emit registeredGroups;;
              match groups !! jid with
              | None => mret tt
              | Some _ =>
                let senderOpenId := sender_open_id data in
                let isBotMessage :=
                  bool_decide (is_Some (truthy (botOpenId c)) ∧ senderOpenId = botOpenId c) in
                let senderName :=
                  if isBotMessage then ASSISTANT_NAME
                  else default "unknown" (truthy senderOpenId) in
                let content :=
                  normalizeMentions (botOpenId c) isBotMessage (mentions message) textContent in
                emit (onMessage jid
                  {| Message.id :=
                       default (default "" (truthy (create_time message))) messageId;
                     Message.chat_jid := jid;
                     Message.sender := default "" (truthy senderOpenId);
                     Message.sender_name := senderName;
                     Message.content := content;
                     Message.timestamp := timestamp;
                     Message.is_from_me := isBotMessage;
                     Message.is_bot_message := isBotMessage |})
              end
            end
          end
        end
  end.

(** The native mention markup: [<at user_id="ID">NAME</at> ], with its
    trailing space. *)
Definition mentionMarkup (u : MentionUser.t) : string :=
  "<at user_id=" +:+ JS.DQ +:+ MentionUser.id u +:+ JS.DQ +:+ ">"
    +:+ MentionUser.name u +:+ "</at> ".

(** The body of the [for] loop of [_sendDirect] at index [i]: the text of
    the chunk, with the mention in front of the first one, and the send
    primitive called for it. *)
Definition chunkCall (chatId : string) (replyToMessageId : option string)
    (mentionUser : option MentionUser.t) (i : nat) (chunk : string) : Effect :=
  let chunkText :=
    match mentionUser with
    | Some u => if bool_decide (i = 0) then mentionMarkup u +:+ chunk else chunk
    | None => chunk
    end in
  match truthy replyToMessageId with
  | Some replyTo =>
    if bool_decide (i = 0) then message_reply replyTo Post chunkText
    else message_create chatId Post chunkText
  | None => message_create chatId Post chunkText
  end.

(** The [for] loop of [_sendDirect], from index [i] on. *)
Fixpoint sendChunks (chatId : string) (replyToMessageId : option string)
    (mentionUser : option MentionUser.t) (i : nat) (chunks : list string) : M unit :=
  match chunks with
  | [] => mret tt
  | chunk :: rest =>
    platformCall platform (chunkCall chatId replyToMessageId mentionUser i chunk);;
    sendChunks chatId replyToMessageId mentionUser (S i) rest
  end.

(** [_sendDirect(jid, text, replyToMessageId, mentionUser)]. *)
Definition _sendDirect (jid text : string) (replyToMessageId : option string)
    (mentionUser : option MentionUser.t) : M unit :=
  let chatId := stripLarkPrefix jid in
  match splitMarkdown text MAX_TEXT_LENGTH with
  | None => diverge
  | Some chunks => sendChunks chatId replyToMessageId mentionUser 0 chunks
  end.

Definition enqueue (jid text : string) : M unit :=
  modifyChan (λ c,
    set_outgoingQueue (outgoingQueue c ++ [{| item_jid := jid; item_text := text |}]) c).

(** [sendMessage(jid, text, opts)]; [opts] is [None] when the argument is
    left out. *)
Definition sendMessage (jid text : string) (opts : option SendOpts) : M unit :=
  c ← getChan;
  if negb (connected c) then enqueue jid text
  else
    tryCatch
      (_sendDirect jid text (opts ≫= replyToMessageId) (opts ≫= mentionUser))
      (λ _,
        tryCatch
          (let fallbackText :=
             match opts ≫= mentionUser with
             | Some u => mentionMarkup u +:+ text
             | None => text
             end in
           match truthy (opts ≫= replyToMessageId) with
           | Some replyTo => platformCall platform (message_reply replyTo Text fallbackText)
           | None =>
             let chatId := stripLarkPrefix jid in
             platformCall platform (message_create chatId Text fallbackText)
           end)
          (λ _, enqueue jid text)).

Definition isConnected : M bool := c ← getChan; mret (connected c).

Definition ownsJid (jid : string) : bool := JS.startsWith jid "lark:".

(** [disconnect()]; the HTTP server is not part of the model. *)
Definition disconnect : M unit :=
  modifyChan (set_connected false);;
  modifyChan (set_dedupTimer false).

(** [cleanupDedup()] at time [now]. *)
Definition cleanupDedup (now : Z) : M unit :=
  modifyChan (λ c,
    set_seenMessages
      (filter (λ '(_, ts), ¬ (now - ts > DEDUP_TTL_MS)%Z) (seenMessages c)) c).

(** The [while] loop of [flushOutgoingQueue]; [fuel] bounds the number of
    times its condition is evaluated. *)
Fixpoint flushLoop (fuel : nat) : M unit :=
  match fuel with
  | O => diverge
  | S fuel' =>
    c ← getChan;
    match outgoingQueue c with
    | [] => mret tt
    | item :: rest =>
      putChan (set_outgoingQueue rest c);;
      _sendDirect (item_jid item) (item_text item) None None;;
      flushLoop fuel'
    end
  end.

(** [flushOutgoingQueue()]: one evaluation of the loop condition per queued
    item, and one more. *)
Definition flushOutgoingQueue : M unit :=
  c ← getChan;
  if flushing c || bool_decide (outgoingQueue c = []) then mret tt
  else
    modifyChan (set_flushing true);;
    tryFinally
      (flushLoop (S (length (outgoingQueue c))))
      (modifyChan (set_flushing false)).

(** [syncChatMetadata()] as [connect()] awaits it: the page loop of
    [ChatSync.syncChatMetadata] on the listing [list_] and the store
    [updateChatName], which catches every error and touches neither the
    channel's fields nor a send primitive or callback.  It has not returned
    when [fuel] requests were not enough. *)
Definition syncChatMetadata (list_ : nat → option string → ChatSync.Answer)
    (updateChatName : list (string * string) → string * string → bool)
    (fuel : nat) : M unit :=
  match ChatSync.syncChatMetadata list_ updateChatName fuel with
  | Some _ => mret tt
  | None => diverge
  end.

(** [connect()].  [listening] tells whether the webhook server came up;
    [botInfo] is the answer to the bot-info request: [None] when it fails,
    otherwise the [open_id] it carries; [list_], [updateChatName] and [fuel]
    are those of the chat listing that ends it. *)
Definition connect (listening : bool) (botInfo : option (option string))
    (list_ : nat → option string → ChatSync.Answer)
    (updateChatName : list (string * string) → string * string → bool)
    (fuel : nat) : M unit :=
  if negb listening then throw ListenError
  else
    match botInfo with
    | Some openId => modifyChan (set_botOpenId openId)
    | None => mret tt
    end;;
    modifyChan (set_connected true);;
    flushOutgoingQueue;;
    syncChatMetadata list_ updateChatName fuel.

End Channel.

(** A name that [updateChatName] is given: a JID of this channel over a
    non-empty chat id, and a non-empty name. *)
Definition validUpdate (update : string * string) : Prop :=
  ownsJid update.1 = true ∧ stripLarkPrefix update.1 ≠ "" ∧ update.2 ≠ "".

(** ** Vocabulary for the statements *)

(** The chunks [_sendDirect] sends for a text. *)
Definition chunksOf (text : string) : list string :=
  default [] (splitMarkdown text MAX_TEXT_LENGTH).

(** The platform calls of the [for] loop of [_sendDirect] when none fails. *)
Fixpoint chunkCalls (chatId : string) (replyToMessageId : option string)
    (mentionUser : option MentionUser.t) (i : nat) (chunks : list string) : list Effect :=
  match chunks with
  | [] => []
  | chunk :: rest =>
    chunkCall chatId replyToMessageId mentionUser i chunk
      :: chunkCalls chatId replyToMessageId mentionUser (S i) rest
  end.

(** The platform calls of a flush of [queue] when none fails: item after
    item, chunk after chunk. *)
Definition flushCalls (queue : list QueueItem) : list Effect :=
  item ← queue;
  chunkCalls (stripLarkPrefix (item_jid item)) None None 0 (chunksOf (item_text item)).

(** The plain-text retry of [sendMessage]. *)
Definition fallbackCall (jid text : string) (opts : option SendOpts) : Effect :=
  let fallbackText :=
    match opts ≫= mentionUser with
    | Some u => mentionMarkup u +:+ text
    | None => text
    end in
  match truthy (opts ≫= replyToMessageId) with
  | Some replyTo => message_reply replyTo Text fallbackText
  | None => message_create (stripLarkPrefix jid) Text fallbackText
  end.

(** A sequence of platform calls made one after the other on top of the
    history [h], up to the first that fails: the calls made, and whether all
    succeeded. *)
Fixpoint perform (platform : list Effect → Effect → bool) (h : list Effect)
    (calls : list Effect) : list Effect * bool :=
  match calls with
  | [] => ([], true)
  | e :: rest =>
    if platform h e then
      let '(made, ok) := perform platform (h ++ [e]) rest in (e :: made, ok)
    else ([e], false)
  end.

(** A replacement text without a dollar has no special pattern in it. *)
Fixpoint noDollar (s : string) : bool :=
  match s with
  | "" => true
  | String c t => negb (bool_decide (c = "$"%char)) && noDollar t
  end.

(** [pat] occurs in [s] at position [k]. *)
Definition occursAt (s pat : string) (k : nat) : Prop :=
  JS.startsWith (JS.drop k s) pat = true.

(** An entry of the mention list that the loop of the handler rewrites for
    the bot [bot]. *)
Definition botEntry (bot : string) (mention : Mention) : Prop :=
  open_id mention = Some bot ∧ key mention ≠ "".

#[export] Instance botEntry_dec bot mention : Decision (botEntry bot mention).
Proof. unfold botEntry. apply _. Defined.

Definition isOnMessage (e : Effect) : bool :=
  match e with onMessage _ _ => true | _ => false end.

Definition isOnChatMetadata (e : Effect) : bool :=
  match e with onChatMetadata _ _ _ _ _ => true | _ => false end.

Definition isSend (e : Effect) : bool :=
  match e with message_create _ _ _ | message_reply _ _ _ => true | _ => false end.

(** The text a platform call carries. *)
Definition bodyOf (e : Effect) : option string :=
  match e with
  | message_create _ _ body | message_reply _ _ body => Some body
  | _ => None
  end.

(** What can happen to a channel, one event-loop task at a time. *)
Inductive Task :=
| Incoming (now : Z) (groups : gmap string RegisteredGroup.t) (data : LarkEvent)
| Sweep (now : Z)
| Send (jid text : string) (opts : option SendOpts)
| Connect (listening : bool) (botInfo : option (option string))
    (list_ : nat → option string → ChatSync.Answer)
    (updateChatName : list (string * string) → string * string → bool) (fuel : nat)
| Disconnect.

Section Tasks.
Variable ASSISTANT_NAME : string.
Variable TRIGGER_PATTERN : string → bool.
Variable platform : list Effect → Effect → bool.

(** The sweep timer fires [cleanupDedup] only while it is armed. *)
Definition runTask (t : Task) : M unit :=
  match t with
  | Incoming now groups data =>
    handleIncomingMessage ASSISTANT_NAME TRIGGER_PATTERN now groups data
  | Sweep now =>
    c ← getChan; if dedupTimer c then cleanupDedup now else mret tt
  | Send jid text opts => sendMessage platform jid text opts
  | Connect listening botInfo list_ updateChatName fuel =>
    connect platform listening botInfo list_ updateChatName fuel
  | Disconnect => disconnect
  end.

(** A run of tasks; a task that throws rejects its own promise and does not
    stop the next one. *)
Definition runTasks (ts : list Task) (w : World) : World :=
  foldl (λ w t, (runTask t w).2) w ts.

End Tasks.

(** The dedup map after an event has been handled at time [now]: the id of
    the event, when it has one that is not recorded yet, is recorded with
    [now]. *)
Definition seenAfter (now : Z) (data : LarkEvent) (seen : gmap string Z) : gmap string Z :=
  match message data ≫= (λ m, truthy (message_id m)) with
  | Some mid => if has seen (Some mid) then seen else <[mid := now]> seen
  | None => seen
  end.

(** No sweep of a run happens after time [t]. *)
Definition sweptBy (t : Z) (task : Task) : Prop :=
  match task with
  | Sweep now => (now ≤ t)%Z
  | _ => True
  end.

(** ** The configuration of the test suite

    [lark.test.ts] mocks [config.ts] with [ASSISTANT_NAME: 'Jonesy'] and
    [TRIGGER_PATTERN: /^@Jonesy\b/i]. *)

Module TestConfig.

Definition isWordChar (c : ascii) : bool :=
  let n := nat_of_ascii c in
  bool_decide (48 ≤ n ≤ 57) || bool_decide (65 ≤ n ≤ 90)
    || bool_decide (97 ≤ n ≤ 122) || bool_decide (n = 95).

Definition toUpper (c : ascii) : ascii :=
  let n := nat_of_ascii c in
  if bool_decide (97 ≤ n ≤ 122) then ascii_of_nat (n - 32) else c.

(** A match of the literal [pat] at the start of [s] under the [i] flag,
    for a [pat] of ASCII characters. *)
Fixpoint startsWith_i (s pat : string) : bool :=
  match pat, s with
  | "", _ => true
  | String p pat', String c s' =>
    if decide (toUpper p = toUpper c) then startsWith_i s' pat' else false
  | String _ _, "" => false
  end.

Definition ASSISTANT_NAME : string := "Jonesy".

(** [/^@Jonesy\b/i.test(s)]: the literal, then a word boundary; the [y]
    before the boundary is a word character, so what follows must not be. *)
Definition TRIGGER_PATTERN (s : string) : bool :=
  startsWith_i s "@Jonesy" &&
  match JS.drop 7 s with
  | "" => true
  | String c _ => negb (isWordChar c)
  end.

(** The bot identity the mocked bot-info request returns. *)
Definition BOT : string := "ou_BOT_123".

(** A platform on which every send succeeds. *)
Definition reliable : list Effect → Effect → bool := λ _ _, true.

(** A platform on which every send fails. *)
Definition unreachable : list Effect → Effect → bool := λ _ _, false.

(** A platform on which the first send fails and every later one succeeds. *)
Definition failsOnce : list Effect → Effect → bool := λ h _,
  match filter (λ e, isSend e = true) h with
  | [] => false
  | _ => true
  end.

(** The registered groups of [createTestOpts]. *)
Definition groups : gmap string RegisteredGroup.t :=
  {[ "lark:oc_test123" :=
       {| RegisteredGroup.name := "Test Group"; RegisteredGroup.folder := "test-group";
          RegisteredGroup.trigger := "@Jonesy";
          RegisteredGroup.added_at := "2024-01-01T00:00:00.000Z" |} ]}.

(** [createMessageData] with every field the tests override as an argument. *)
Definition createMessageDataIn (chatId chatType : string) (messageId : string)
    (messageType : string) (payload : Payload) (ms : option (list Mention))
    (senderOpenId : string) : LarkEvent :=
  {| message := Some {| message_id := Some messageId; message_type := Some messageType;
                        content := payload; chat_id := Some chatId;
                        chat_type := Some chatType; create_time := Some "1704067200000";
                        mentions := ms |};
     sender_open_id := Some senderOpenId |}.

(** [createMessageData] in the default chat, a group. *)
Definition createMessageData : string → string → Payload → option (list Mention) → string
    → LarkEvent :=
  createMessageDataIn "oc_test123" "group".

(** The mention list of the translation tests: [@_user_1] is [who]. *)
Definition mentionOf (who : string) : option (list Mention) :=
  Some [{| key := "@_user_1"; open_id := Some who; mention_name := None |}].

(** The content of the message handed to [onMessage], if one was. *)
Definition deliveredContent (w : World) : list string :=
  omap (λ e, match e with onMessage _ msg => Some (Message.content msg) | _ => None end)
    (trace w).

(** The chat listing of the mock client: one page without chats. *)
Definition chatList : nat → option string → ChatSync.Answer := λ _ _,
  ChatSync.Returns (Some {| ChatSync.items := Some []; ChatSync.page_token := None |}).

(** The mock of [updateChatName], which stores every name. *)
Definition storeName : list (string * string) → string * string → bool := λ _ _, true.

(** A channel after [connect()] against the mocks. *)
Definition connectedWorld : World :=
  (connect reliable true (Some (Some BOT)) chatList storeName 1 newWorld).2.

End TestConfig.

(** ** The renderer *)

(** The style tags of a text span. *)
Inductive Style := Code | Bold | Italic.

(** An element of a post line: a mention ([tag: 'at']), a link ([tag: 'a'])
    or a text span ([tag: 'text']) whose [style] may be absent. *)
Inductive Element :=
| ElAt (user_id user_name : string)
| ElLink (text href : string)
| ElText (text : string) (style : option (list Style)).

(** The longest prefix of [s] free of characters in [stop], and what follows
    it: a greedy negated character class. *)
Fixpoint spanUntil (stop : ascii → bool) (s : string) : string * string :=
  match s with
  | "" => ("", "")
  | String c s' =>
    if stop c then ("", s)
    else let '(run, rest) := spanUntil stop s' in (String c run, rest)
  end.

(** A line terminator, which [.] does not match. *)
Definition isLineTerminator (c : ascii) : bool :=
  bool_decide (nat_of_ascii c ∈ [10; 13]).

Definition isChar (d : ascii) : ascii → bool := λ c, bool_decide (c = d).

(** The characters at which a plain run stops: star, backtick, opening
    bracket, less-than. *)
Definition isSpecial (c : ascii) : bool :=
  bool_decide (c = "*"%char) || bool_decide (c = "`"%char)
    || bool_decide (c = "["%char) || bool_decide (c = "<"%char).

(** [literal] at the start of [s], then the rest. *)
Definition expect (literal s : string) : option string :=
  if JS.startsWith s literal then Some (JS.drop (String.length literal) s) else None.

(** A non-empty greedy run of characters outside [stop], then the rest. *)
Definition run1 (stop : ascii → bool) (s : string) : option (string * string) :=
  let '(run, rest) := spanUntil stop s in
  if bool_decide (run = "") then None else Some (run, rest).

(** The mention pattern: [<at user_id=], a double quote, a non-empty run of
    characters other than the double quote (the first group), a double quote
    and [>], a run of characters other than [<] (the second group, which may
    be empty), and [</at>].  The two groups and the rest. *)
Definition matchAt (s : string) : option (string * string * string) :=
  s1 ← expect ("<at user_id=" +:+ JS.DQ) s;
  '(userId, s2) ← run1 (isChar "034") s1;
  s3 ← expect (JS.DQ +:+ ">") s2;
  let '(userName, s4) := spanUntil (isChar "<") s3 in
  rest ← expect "</at>" s4;
  Some (userId, userName, rest).

(** [/^\[([^\]]+)\]\(([^)]+)\)/]. *)
Definition matchLink (s : string) : option (string * string * string) :=
  s1 ← expect "[" s;
  '(text, s2) ← run1 (isChar "]") s1;
  s3 ← expect "](" s2;
  '(href, s4) ← run1 (isChar ")") s3;
  rest ← expect ")" s4;
  Some (text, href, rest).

(** [/^`([^`]+)`/]. *)
Definition matchCode (s : string) : option (string * string) :=
  s1 ← expect "`" s;
  '(text, s2) ← run1 (isChar "`") s1;
  rest ← expect "`" s2;
  Some (text, rest).

(** The lazy group of the bold pattern: the shortest non-empty run of
    characters that [.] matches and that two stars follow; the run and what
    comes after the two stars. *)
Fixpoint lazyUntilStars (s : string) : option (string * string) :=
  match s with
  | "" => None
  | String c s' =>
    if isLineTerminator c then None
    else if JS.startsWith s' "**" then Some (String c "", JS.drop 2 s')
    else '(run, rest) ← lazyUntilStars s'; Some (String c run, rest)
  end.

(** [/^\*\*(.+?)\*\*/]. *)
Definition matchBold (s : string) : option (string * string) :=
  s1 ← expect "**" s; lazyUntilStars s1.

(** [/^\*([^*]+)\*/]. *)
Definition matchItalic (s : string) : option (string * string) :=
  s1 ← expect "*" s;
  '(text, s2) ← run1 (isChar "*") s1;
  rest ← expect "*" s2;
  Some (text, rest).

(** [/^([^*`\[<]+)/]. *)
Definition matchPlain (s : string) : option (string * string) :=
  run1 isSpecial s.

(** The body of the [while] loop of [parseLineToElements] for a non-empty
    [remaining]: the element pushed and the new value of [remaining]. *)
Definition parseStep (remaining : string) : Element * string :=
  match matchAt remaining with
  | Some (userId, userName, rest) => (ElAt userId userName, rest)
  | None =>
    match matchLink remaining with
    | Some (text, href, rest) => (ElLink text href, rest)
    | None =>
      match matchCode remaining with
      | Some (text, rest) => (ElText text (Some [Code]), rest)
      | None =>
        match matchBold remaining with
        | Some (text, rest) => (ElText text (Some [Bold]), rest)
        | None =>
          match matchItalic remaining with
          | Some (text, rest) => (ElText text (Some [Italic]), rest)
          | None =>
            match matchPlain remaining with
            | Some (text, rest) => (ElText text None, rest)
            | None => (ElText (JS.take 1 remaining) None, JS.drop 1 remaining)
            end
          end
        end
      end
    end
  end.

(** The [while] loop of [parseLineToElements]; [fuel] bounds the number of
    times its condition is evaluated. *)
Fixpoint parseLoop (fuel : nat) (elements : list Element) (remaining : string)
  : option (list Element) :=
  match fuel with
  | O => None
  | S fuel' =>
    if bool_decide (String.length remaining = 0) then Some elements
    else
      let '(element, rest) := parseStep remaining in
      parseLoop fuel' (elements ++ [element]) rest
  end.

(** [parseLineToElements(line)]: one evaluation of the loop condition per
    character of the line, and one more. *)
Definition parseLineToElements (line : string) : option (list Element) :=
  parseLoop (S (String.length line)) [] line.

(** [s.split(sep)] for a one-character separator. *)
Fixpoint split (sep : ascii) (s : string) : list string :=
  match s with
  | "" => [""]
  | String c s' =>
    if decide (c = sep) then "" :: split sep s'
    else match split sep s' with
         | current :: rest => String c current :: rest
         | [] => [String c ""]
         end
  end.

(** The heading pattern: one to six hashes, white space, then everything up
    to a line terminator, which is the second group, the title. *)
Definition headingMatch (line : string) : option string :=
  let '(hashes, s1) := spanUntil (λ c, negb (bool_decide (c = "#"%char))) line in
  if bool_decide (1 ≤ String.length hashes ≤ 6) then
    let s2 := skipWhiteSpace s1 in
    if bool_decide (String.length s2 < String.length s1)
    then Some (spanUntil isLineTerminator s2).1
    else None
  else None.

(** The loop over the elements of a heading: text spans get [bold] appended
    to their style. *)
Definition embolden (el : Element) : Element :=
  match el with
  | ElText text (Some style) => ElText text (Some (style ++ [Bold]))
  | ElText text None => ElText text (Some [Bold])
  | _ => el
  end.

(** The [for] loop of [markdownToPostContent] over the lines, with
    [inCodeBlock] and the [content] array as explicit state. *)
Fixpoint renderLines (inCodeBlock : bool) (content : list (list Element)) (lines : list string)
  : option (list (list Element)) :=
  match lines with
  | [] => Some content
  | line :: rest =>
    if JS.startsWith (skipWhiteSpace line) "```" then
      renderLines (negb inCodeBlock) (content ++ [[ElText line None]]) rest
    else if inCodeBlock then
      renderLines inCodeBlock (content ++ [[ElText line None]]) rest
    else
      match headingMatch line with
      | Some title =>
        headingElements ← parseLineToElements title;
        renderLines inCodeBlock (content ++ [embolden <$> headingElements]) rest
      | None =>
        if bool_decide (String.length line = 0) then
          renderLines inCodeBlock (content ++ [[ElText "" None]]) rest
        else
          elements ← parseLineToElements line;
          if bool_decide (0 < length elements)
          then renderLines inCodeBlock (content ++ [elements]) rest
          else renderLines inCodeBlock content rest
      end
  end.

(** The post content: the same blocks under both locales. *)
Record PostContent := {
  zh_cn : list (list Element);
  en_us : list (list Element);
}.

(** [markdownToPostContent(text)]. *)
Definition markdownToPostContent (text : string) : option PostContent :=
  content ← renderLines false [] (split "010" text);
  Some {| zh_cn := content; en_us := content |}.

(** The markup an element was read from. *)
Definition sourceOf (el : Element) : string :=
  match el with
  | ElAt userId userName =>
    "<at user_id=" +:+ JS.DQ +:+ userId +:+ JS.DQ +:+ ">" +:+ userName +:+ "</at>"
  | ElLink text href => "[" +:+ text +:+ "](" +:+ href +:+ ")"
  | ElText text (Some [Code]) => "`" +:+ text +:+ "`"
  | ElText text (Some [Bold]) => "**" +:+ text +:+ "**"
  | ElText text (Some [Italic]) => "*" +:+ text +:+ "*"
  | ElText text _ => text
  end.

(** Strings put end to end. *)
Definition concatStrings (parts : list string) : string :=
  foldr String.append "" parts.

(** The text of an element as a reader sees it. *)
Definition textOf (el : Element) : string :=
  match el with
  | ElAt _ userName => userName
  | ElLink text _ => text
  | ElText text _ => text
  end.


(** Every character of [s] satisfies [p]. *)
Fixpoint allChars (p : ascii → bool) (s : string) : bool :=
  match s with
  | "" => true
  | String c s' => p c && allChars p s'
  end.

(** The number of occurrences of [c] in [s]. *)
Fixpoint countChar (c : ascii) (s : string) : nat :=
  match s with
  | "" => 0
  | String d s' => (if decide (d = c) then 1 else 0) + countChar c s'
  end.

(** A line that opens or closes a fenced code block. *)
Definition isFence (line : string) : bool :=
  JS.startsWith (skipWhiteSpace line) "```".

(** The block of a line emitted as it is. *)
Definition rawBlock (line : string) : list Element := [ElText line None].



(** ** More vocabulary for the channel *)

(** The message [handleIncomingMessage] builds for an event that passes its
    checks, from the channel [c] it runs in. *)
Definition deliveredMessage (ASSISTANT_NAME : string) (TRIGGER_PATTERN : string → bool)
    (c : LarkChannel) (now : Z) (data : LarkEvent) (m : LarkMessage)
    (chatId textContent : string) : Message.t :=
  let isBotMessage :=
    bool_decide (is_Some (truthy (botOpenId c)) ∧ sender_open_id data = botOpenId c) in
  {| Message.id := default (default "" (truthy (create_time m))) (truthy (message_id m));
     Message.chat_jid := "lark:" +:+ chatId;
     Message.sender := default "" (truthy (sender_open_id data));
     Message.sender_name :=
       if isBotMessage then ASSISTANT_NAME else default "unknown" (truthy (sender_open_id data));
     Message.content :=
       normalizeMentions ASSISTANT_NAME TRIGGER_PATTERN (botOpenId c) isBotMessage
         (mentions m) textContent;
     Message.timestamp := numberOr (parseInt10 (create_time m)) now;
     Message.is_from_me := isBotMessage;
     Message.is_bot_message := isBotMessage |}.

(** An event that passes every check of the handler but the dedup check: a
    message of type text, with a non-empty text, a chat id and a creation time
    that makes a date. *)
Definition deliverable (now : Z) (data : LarkEvent)
    (m : LarkMessage) (chatId textContent : string) : Prop :=
  message data = Some m
  ∧ message_type m = Some "text"
  ∧ content m = TextField (Some textContent)
  ∧ textContent ≠ ""
  ∧ truthy (chat_id m) = Some chatId
  ∧ (- MAX_TIME_VALUE ≤ numberOr (parseInt10 (create_time m)) now ≤ MAX_TIME_VALUE)%Z.

(** A deliverable event whose id is not in the dedup map [seen]. *)
Definition accepted (seen : gmap string Z) (now : Z) (data : LarkEvent)
    (m : LarkMessage) (chatId textContent : string) : Prop :=
  deliverable now data m chatId textContent
  ∧ has seen (truthy (message_id m)) = false.

(** The metadata callback of an accepted event. *)
Definition metadataOf (now : Z) (m : LarkMessage) (chatId : string) : Effect :=
  onChatMetadata ("lark:" +:+ chatId) (numberOr (parseInt10 (create_time m)) now) None "lark"
    (bool_decide (chat_type m ≠ Some "p2p")).

Definition isSweep (t : Task) : bool :=
  match t with Sweep _ => true | _ => false end.

(** The calls [_sendDirect] makes for an item of the queue. *)
Definition itemCalls (item : QueueItem) : list Effect :=
  chunkCalls (stripLarkPrefix (item_jid item)) None None 0 (chunksOf (item_text item)).

(** A character with a role in the inline markup, or a line terminator. *)
Definition isMarkup (c : ascii) : bool :=
  isSpecial c || isChar "]" c || isChar ")" c || isLineTerminator c.

(** A non-empty text free of markup characters. *)
Definition plainText (t : string) : Prop :=
  t ≠ "" ∧ allChars (λ c, negb (isMarkup c)) t = true.

(** The value of [connected] after a task: a [connect()] whose server comes
    up sets it, a [disconnect()] clears it, nothing else touches it. *)
Definition connectedAfter (before : bool) (task : Task) : bool :=
  match task with
  | Connect true _ _ _ _ => true
  | Disconnect => false
  | _ => before
  end.

(** ** The OAuth credentials ([claude-credentials.ts])

    The credentials file is modelled by what [JSON.parse] makes of it, the
    token endpoint by its response, [Date.now()] by explicit times, and a
    failing write by a flag.  The numbers of the file and of the response are
    taken to be whole numbers; they are doubles in the source, and where the
    source computes with them the rounding is written out. *)

Module Credentials.

(** Refresh when less than five minutes remain. *)
Definition REFRESH_MARGIN_MS : Z := (5 * 60 * 1000)%Z.

(** [ClaudeOAuth], with [None] for a field that is missing or [null]. *)
Record ClaudeOAuth := {
  accessToken : option string;
  refreshToken : option string;
  expiresAt : option Z;
  scopes : list string;
  subscriptionType : option string;
  rateLimitTier : option string;
}.

(** The credentials file: it cannot be read or parsed; it parses to a value
    that takes no new key ([null], a number, a string, a boolean, an array,
    whose serialisation ignores the key); or it parses to an object, with its
    [claudeAiOauth] entry and its other entries. *)
Inductive File :=
| Unreadable
| NotAnObject
| Object (claudeAiOauth : option ClaudeOAuth) (others : list (string * string)).

(** The double nearest to the whole number [x], ties to even: what a
    product or a sum of doubles comes to when [x] is its exact value.  Up to
    2^53 every whole number is a double; beyond, a double has a significand of
    53 bits, and [None] stands for an infinity, past the largest double. *)
Definition roundToDouble (x : Z) : option Z :=
  let a := Z.abs x in
  if bool_decide (a < 2 ^ 53)%Z then Some x
  else
    let e := (Z.log2 a - 52)%Z in
    let q := (a / 2 ^ e)%Z in
    let r := (a mod 2 ^ e)%Z in
    let half := (2 ^ (e - 1))%Z in
    let q' := if bool_decide (half < r)%Z || (bool_decide (r = half) && Z.odd q)
              then (q + 1)%Z else q in
    let y := (q' * 2 ^ e)%Z in
    if bool_decide (y < 2 ^ 1024)%Z then Some (Z.sgn x * y)%Z else None.

(** [Date.now() + data.expires_in * 1000] at time [now], as it is written to
    the file: [expires_in] is read as a double, the product and the sum are
    rounded, and an infinity is serialised as [null]. *)
Definition expiryOf (now expires_in : Z) : option Z :=
  seconds ← roundToDouble expires_in;
  millis ← roundToDouble (seconds * 1000);
  roundToDouble (now + millis).

(** The response of the token endpoint: [fetch] rejects; the status is not
    ok; the body is not JSON; or the body parses, with its fields. *)
Inductive Response :=
| FetchThrows
| NotOk
| JsonThrows
| Data (access_token : option string) (refresh_token : option string)
       (expires_in : Z) (scope : option string).

(** [readCredentialsFile()]. *)
Definition readCredentialsFile (file : File) : option ClaudeOAuth :=
  match file with
  | Object oauth _ => oauth
  | _ => None
  end.

(** [writeCredentialsFile(oauth)]: the file afterwards.  [writable] tells
    whether [writeFileSync] succeeds; every error is swallowed. *)
Definition writeCredentialsFile (writable : bool) (oauth : ClaudeOAuth) (file : File) : File :=
  match file with
  | Unreadable => if writable then Object (Some oauth) [] else file
  | NotAnObject => file
  | Object _ others => if writable then Object (Some oauth) others else file
  end.

(** [refreshAccessToken(refreshToken)] at time [now]: the credentials it
    returns and the file afterwards. *)
Definition refreshAccessToken (now : Z) (response : Response) (writable : bool)
    (refreshToken : string) (file : File) : option ClaudeOAuth * File :=
  match response with
  | Data access_token refresh_token expires_in scope =>
    let oauth :=
      {| accessToken := access_token;
         refreshToken := Some (default refreshToken refresh_token);
         expiresAt := expiryOf now expires_in;
         scopes := match truthy scope with
                   | Some s => split " " s
                   | None => []
                   end;
         subscriptionType := None;
         rateLimitTier := None |} in
    (Some oauth, writeCredentialsFile writable oauth file)
  | _ => (None, file)
  end.

(** [creds.expiresAt != null && creds.expiresAt - Date.now() < REFRESH_MARGIN_MS].
    The difference of the two doubles is rounded, to a double that is below
    the margin exactly when the difference is: the margin is a double and
    rounding keeps the order. *)
Definition needsRefresh (now : Z) (creds : ClaudeOAuth) : bool :=
  match expiresAt creds with
  | Some e => bool_decide (e - now < REFRESH_MARGIN_MS)%Z
  | None => false
  end.

(** [getClaudeOAuthToken()]: the token returned and the file afterwards.
    [now] is the time of the expiry check and [now'] that of the refresh;
    [endpoint] answers a refresh request for a refresh token. *)
Definition getClaudeOAuthToken (now now' : Z) (endpoint : string → Response)
    (writable : bool) (file : File) : option string * File :=
  match readCredentialsFile file with
  | None => (None, file)
  | Some creds =>
    match truthy (accessToken creds) with
    | None => (None, file)
    | Some token =>
      if negb (needsRefresh now creds) then (Some token, file)
      else
        match truthy (refreshToken creds) with
        | None => (Some token, file)
        | Some refresh =>
          let '(refreshed, file') :=
            refreshAccessToken now' (endpoint refresh) writable refresh file in
          (Some (default token (refreshed ≫= accessToken)), file')
        end
    end
  end.

(** The file holds an access token that can be used. *)
Definition hasToken (file : File) (token : string) : Prop :=
  ∃ creds, readCredentialsFile file = Some creds ∧ truthy (accessToken creds) = Some token.

End Credentials.

(** * Properties *)

(** ** Strings *)

Module JSFacts.
Import JS.

Lemma app_cons c s t : String c s +:+ t = String c (s +:+ t).
Proof. reflexivity. Qed.

Lemma app_nil_l s : "" +:+ s = s.
Proof. reflexivity. Qed.

Lemma app_nil_r s : s +:+ "" = s.
Proof. induction s as [|c s IH]; [done|]. by rewrite app_cons, IH. Qed.

Lemma app_assoc s t u : (s +:+ t) +:+ u = s +:+ t +:+ u.
Proof. induction s as [|c s IH]; [done|]. by rewrite !app_cons, IH. Qed.

Lemma length_app s t : String.length (s +:+ t) = String.length s + String.length t.
Proof. induction s as [|c s IH]; [done|]. rewrite app_cons. simpl. by rewrite IH. Qed.

Lemma take_drop n s : take n s +:+ drop n s = s.
Proof.
  revert s. induction n as [|n IH]; intros [|c s]; try done.
  simpl. by rewrite app_cons, IH.
Qed.

Lemma length_take n s : String.length (take n s) = Nat.min n (String.length s).
Proof.
  revert s. induction n as [|n IH]; intros [|c s]; try done.
  simpl. by rewrite IH.
Qed.

Lemma length_drop n s : String.length (drop n s) = String.length s - n.
Proof.
  revert s. induction n as [|n IH]; intros [|c s]; try done.
  simpl. by rewrite IH.
Qed.

Lemma drop_drop a b s : drop b (drop a s) = drop (a + b) s.
Proof.
  revert s. induction a as [|a IH]; intros s; [done|].
  destruct s as [|c s]; simpl; [by destruct b|]. apply IH.
Qed.

Lemma take_app_length s t : take (String.length s) (s +:+ t) = s.
Proof. induction s as [|c s IH]; [by destruct t|]. rewrite app_cons. simpl. by rewrite IH. Qed.

Lemma drop_app_length s t : drop (String.length s) (s +:+ t) = t.
Proof. induction s as [|c s IH]; [by destruct t|]. rewrite app_cons. simpl. by rewrite IH. Qed.

(** A successful [startsWith] splits the string. *)
Lemma startsWith_split s pat :
  startsWith s pat = true → s = pat +:+ drop (String.length pat) s.
Proof.
  revert s. induction pat as [|p pat IH]; intros s H; [done|].
  destruct s as [|c s]; [done|]. simpl in H.
  destruct (decide (p = c)) as [->|]; [|done].
  rewrite app_cons. simpl. f_equal. by apply IH.
Qed.

Lemma startsWith_app pat t : startsWith (pat +:+ t) pat = true.
Proof.
  induction pat as [|p pat IH]; [by destruct t|].
  rewrite app_cons. simpl. by rewrite decide_True.
Qed.

(** What [lastIndexOf] returns: [-1], or a position at most [pos] at which
    the pattern occurs. *)
Lemma lastIndexOf_down_spec s pat i :
  lastIndexOf_down s pat i = (-1)%Z ∨
  ∃ k, lastIndexOf_down s pat i = Z.of_nat k ∧ k ≤ i ∧ startsWith (drop k s) pat = true.
Proof.
  induction i as [|i IH]; cbn [lastIndexOf_down].
  - destruct (startsWith (drop 0 s) pat) eqn:E; [right; by exists 0|by left].
  - destruct (startsWith (drop (S i) s) pat) eqn:E.
    + right. exists (S i). split_and!; [done|lia|done].
    + destruct IH as [->|(k & -> & ? & ?)]; [by left|].
      right. exists k. split_and!; [done|lia|done].
Qed.

Lemma lastIndexOf_spec s pat pos :
  lastIndexOf s pat pos = (-1)%Z ∨
  ∃ k, lastIndexOf s pat pos = Z.of_nat k ∧ k ≤ pos ∧ k ≤ String.length s
       ∧ s = take k s +:+ pat +:+ drop (k + String.length pat) s.
Proof.
  unfold lastIndexOf.
  destruct (lastIndexOf_down_spec s pat (Nat.min pos (String.length s)))
    as [->|(k & -> & Hk & Hm)]; [by left|].
  right. exists k. split_and!; [done|lia|lia|].
  apply startsWith_split in Hm. rewrite drop_drop in Hm.
  rewrite <- Hm. by rewrite take_drop.
Qed.

(** What [indexOf] returns: the first position at which the pattern occurs. *)
Lemma indexOf_up_spec s pat i :
  match indexOf_up s pat i with
  | Some k => i ≤ k ∧ startsWith (drop (k - i) s) pat = true
              ∧ ∀ j, j < k - i → startsWith (drop j s) pat = false
  | None => ∀ j, startsWith (drop j s) pat = false
  end.
Proof.
  revert i. induction s as [|c s IH]; intros i.
  - cbn [indexOf_up]. destruct (startsWith "" pat) eqn:E.
    + replace (i - i) with 0 by lia. split_and!; [done|done|]. intros j ?; lia.
    + intros [|j]; done.
  - cbn [indexOf_up]. destruct (startsWith (String c s) pat) eqn:E.
    + replace (i - i) with 0 by lia. split_and!; [done|done|]. intros j ?; lia.
    + specialize (IH (S i)). destruct (indexOf_up s pat (S i)) as [k|].
      * destruct IH as (Hk & Hm & Hfirst).
        replace (k - i) with (S (k - S i)) by lia.
        split_and!; [lia|done|]. intros [|j] ?; [done|]. apply Hfirst. lia.
      * intros [|j]; [done|]. apply IH.
Qed.

Lemma length_repeat c n : String.length (repeat c n) = n.
Proof. induction n as [|n IH]; simpl; [done|by rewrite IH]. Qed.

End JSFacts.

(** ** The splitter *)

Section Splitter.

(** One cut: the chunk, the separator and the new remainder make up the old
    remainder; the chunk fits; a cut at a boundary leaves a non-empty chunk
    and a hard cut one of exactly [maxLen] characters. *)
Lemma splitStep_spec maxLen remaining cut chunk rest :
  maxLen < String.length remaining →
  splitStep maxLen remaining = (cut, chunk, rest) →
  remaining = chunk +:+ separator cut +:+ rest
  ∧ String.length chunk ≤ maxLen
  ∧ match cut with
    | HardCut => String.length chunk = maxLen
    | _ => 1 ≤ String.length chunk
    end.
Proof.
  intros Hlen. unfold splitStep.
  destruct (JSFacts.lastIndexOf_spec remaining (JS.LF +:+ JS.LF) maxLen) as [->|(k & -> & Hk & Hkl & Hsplit)].
  - rewrite bool_decide_eq_false_2 by lia.
    destruct (JSFacts.lastIndexOf_spec remaining JS.LF maxLen) as [->|(k & -> & Hk & Hkl & Hsplit)].
    + rewrite bool_decide_eq_false_2 by lia. intros [= <- <- <-].
      split_and!; [by rewrite JSFacts.app_nil_l, JSFacts.take_drop| |]; rewrite JSFacts.length_take; lia.
    + case_bool_decide as Hpos; intros [= <- <- <-].
      * rewrite Nat2Z.id. split_and!; [done| |]; rewrite JSFacts.length_take; lia.
      * split_and!; [by rewrite JSFacts.app_nil_l, JSFacts.take_drop| |]; rewrite JSFacts.length_take; lia.
  - case_bool_decide as Hpos.
    + intros [= <- <- <-]. rewrite Nat2Z.id.
      split_and!; [done| |]; rewrite JSFacts.length_take; lia.
    + assert (k = 0) as -> by lia.
      destruct (JSFacts.lastIndexOf_spec remaining JS.LF maxLen) as [->|(k & -> & Hk' & Hkl' & Hsplit')].
      * rewrite bool_decide_eq_false_2 by lia. intros [= <- <- <-].
        split_and!; [by rewrite JSFacts.app_nil_l, JSFacts.take_drop| |]; rewrite JSFacts.length_take; lia.
      * case_bool_decide as Hpos'; intros [= <- <- <-].
        -- rewrite Nat2Z.id. split_and!; [done| |]; rewrite JSFacts.length_take; lia.
        -- split_and!; [by rewrite JSFacts.app_nil_l, JSFacts.take_drop| |]; rewrite JSFacts.length_take; lia.
Qed.

Lemma length_separator cut :
  String.length (separator cut) =
    match cut with ParagraphCut => 2 | LineCut => 1 | HardCut => 0 end.
Proof. by destruct cut. Qed.

(** Every cut shortens the remainder: by at least 3 characters at a
    paragraph boundary, at least 2 at a line boundary, exactly [maxLen] at
    a hard cut. *)
Lemma splitStep_shortens maxLen remaining cut chunk rest :
  maxLen < String.length remaining →
  splitStep maxLen remaining = (cut, chunk, rest) →
  match cut with
  | ParagraphCut => String.length rest + 3 ≤ String.length remaining
  | LineCut => String.length rest + 2 ≤ String.length remaining
  | HardCut => String.length rest + maxLen = String.length remaining
  end.
Proof.
  intros Hlen Hstep.
  destruct (splitStep_spec _ _ _ _ _ Hlen Hstep) as (Heq & Hfit & Hcut).
  apply (f_equal String.length) in Heq.
  rewrite !JSFacts.length_app, length_separator in Heq.
  destruct cut; lia.
Qed.

Lemma separator_isSeparator cut : isSeparator (separator cut).
Proof. destruct cut; unfold isSeparator; simpl; auto. Qed.

(** The loop returns once it has one unit of fuel more than there are
    characters left; what it adds rejoins to the remainder it started from,
    in chunks that fit. *)
Lemma splitLoop_cuts_returns maxLen :
  1 ≤ maxLen →
  ∀ fuel cuts remaining,
    String.length remaining < fuel →
    ∃ cs, splitLoop_cuts fuel maxLen cuts remaining = Some (cuts ++ cs)
          ∧ rejoin cs = remaining
          ∧ Forall (λ c, String.length c.1 ≤ maxLen ∧ isSeparator c.2) cs.
Proof.
  intros Hpos. induction fuel as [|fuel IH]; intros cuts remaining Hfuel; [lia|].
  cbn [splitLoop_cuts]. case_bool_decide as Hempty.
  - exists []. rewrite app_nil_r. split_and!; [done| |done].
    destruct remaining; [done|simpl in Hempty; lia].
  - case_bool_decide as Hfit.
    + exists [(remaining, "")]. split_and!; [done| |].
      * simpl. by rewrite !JSFacts.app_nil_r.
      * constructor; [|constructor]. simpl. split; [done|]. unfold isSeparator; auto.
    + destruct (splitStep maxLen remaining) as [[cut chunk] rest] eqn:Hstep.
      assert (maxLen < String.length remaining) as Hlong by lia.
      destruct (splitStep_spec _ _ _ _ _ Hlong Hstep) as (Heq & Hchunk & _).
      pose proof (splitStep_shortens _ _ _ _ _ Hlong Hstep) as Hshort.
      destruct (IH (cuts ++ [(chunk, separator cut)]) rest) as (cs & -> & Hre & Hall).
      { destruct cut; lia. }
      exists ((chunk, separator cut) :: cs). split_and!.
      * by rewrite <- (assoc_L (++)).
      * simpl. by rewrite Hre.
      * constructor; [|done]. simpl. split; [done|apply separator_isSeparator].
Qed.

(** The chunks of the loop are the first components of its ghost record. *)
Lemma splitLoop_cuts_chunks maxLen fuel cuts remaining :
  splitLoop fuel maxLen (cuts.*1) remaining
  = fmap (M := option) (fmap fst) (splitLoop_cuts fuel maxLen cuts remaining).
Proof.
  revert cuts remaining. induction fuel as [|fuel IH]; intros cuts remaining; [done|].
  cbn [splitLoop splitLoop_cuts]. case_bool_decide; [done|].
  case_bool_decide; [simpl; by rewrite fmap_app|].
  destruct (splitStep maxLen remaining) as [[cut chunk] rest].
  rewrite <- IH. by rewrite fmap_app.
Qed.

(** More fuel does not change what the loop returns. *)
Lemma splitLoop_fuel_mono maxLen fuel fuel' chunks remaining result :
  splitLoop fuel maxLen chunks remaining = Some result →
  fuel ≤ fuel' →
  splitLoop fuel' maxLen chunks remaining = Some result.
Proof.
  revert fuel' chunks remaining.
  induction fuel as [|fuel IH]; intros fuel' chunks remaining Hrun Hle; [done|].
  destruct fuel' as [|fuel']; [lia|].
  cbn [splitLoop] in *. case_bool_decide; [done|]. case_bool_decide; [done|].
  destruct (splitStep maxLen remaining) as [[cut chunk] rest].
  apply IH; [done|lia].
Qed.

(** [splitMarkdown] returns for every positive [maxLen], with its ghost
    record. *)
Lemma splitMarkdown_cuts_returns text maxLen :
  1 ≤ maxLen →
  ∃ cuts, splitMarkdown_cuts text maxLen = Some cuts
          ∧ splitMarkdown text maxLen = Some (cuts.*1)
          ∧ rejoin cuts = text
          ∧ Forall (λ c, String.length c.1 ≤ maxLen ∧ isSeparator c.2) cuts.
Proof.
  intros Hpos. unfold splitMarkdown_cuts, splitMarkdown, splitMarkdown_fuel.
  case_bool_decide as Hfit.
  - exists [(text, "")]. split_and!; [done|done| |].
    + simpl. by rewrite !JSFacts.app_nil_r.
    + constructor; [|constructor]. simpl. split; [done|]. unfold isSeparator; auto.
  - destruct (splitLoop_cuts_returns maxLen Hpos (S (String.length text)) [] text)
      as (cs & Hrun & Hre & Hall); [lia|].
    exists cs. split_and!; [done| |done|done].
    change (@nil string) with ((@nil (string * string)).*1).
    by rewrite splitLoop_cuts_chunks, Hrun.
Qed.

(** With [maxLen = 0] no boundary is found past position 0 and the hard cut
    removes nothing. *)
Lemma splitStep_zero remaining : splitStep 0 remaining = (HardCut, "", remaining).
Proof.
  unfold splitStep.
  destruct (JSFacts.lastIndexOf_spec remaining (JS.LF +:+ JS.LF) 0) as [->|(k & -> & Hk & _)];
    (rewrite bool_decide_eq_false_2 by lia);
    (destruct (JSFacts.lastIndexOf_spec remaining JS.LF 0) as [->|(k' & -> & Hk' & _)]);
    (rewrite bool_decide_eq_false_2 by lia); done.
Qed.

(** So the loop never returns on a non-empty remainder. *)
Lemma splitLoop_zero_diverges fuel chunks remaining :
  remaining ≠ "" → splitLoop fuel 0 chunks remaining = None.
Proof.
  intros Hne. revert chunks. induction fuel as [|fuel IH]; intros chunks; [done|].
  cbn [splitLoop].
  assert (0 < String.length remaining) by (destruct remaining; [done|simpl; lia]).
  rewrite !bool_decide_eq_false_2 by lia.
  rewrite splitStep_zero. apply IH.
Qed.

End Splitter.

(** Any fuel beyond the length of the text gives the result of [splitMarkdown]. *)
Lemma splitMarkdown_fuel_enough text maxLen chunks fuel :
  splitMarkdown text maxLen = Some chunks →
  String.length text < fuel →
  splitMarkdown_fuel fuel text maxLen = Some chunks.
Proof.
  unfold splitMarkdown, splitMarkdown_fuel. case_bool_decide; [done|].
  intros Hrun Hfuel. eapply splitLoop_fuel_mono; [done|lia].
Qed.

(** C5 — For every text [T] and every [L ≥ 1]: a text of at most [L]
    characters comes back as the single chunk [T]; in every case
    [splitMarkdown] returns and each chunk has at most [L] characters.  In
    particular 4500 times [A] at limit 4000 gives 4000 and 500 times [A], and
    4000 times [B] at limit 4000 gives the text itself. *)
Theorem splitMarkdown_chunks_bounded (T : string) (L : nat) :
  1 ≤ L →
  (String.length T ≤ L → splitMarkdown T L = Some [T])
  ∧ (∃ chunks, splitMarkdown T L = Some chunks
               ∧ Forall (λ chunk, String.length chunk ≤ L) chunks)
  ∧ splitMarkdown (JS.repeat "A" 4500) 4000 = Some [JS.repeat "A" 4000; JS.repeat "A" 500]
  ∧ splitMarkdown (JS.repeat "B" 4000) 4000 = Some [JS.repeat "B" 4000].
Proof.
  intros HL. split_and!.
  - intros Hfit. unfold splitMarkdown, splitMarkdown_fuel.
    by rewrite bool_decide_eq_true_2.
  - destruct (splitMarkdown_cuts_returns T L HL) as (cuts & _ & Hrun & _ & Hall).
    exists (cuts.*1). split; [done|].
    apply Forall_fmap. eapply Forall_impl; [exact Hall|]. by intros [chunk sep] [? _].
  - vm_compute. reflexivity.
  - vm_compute. reflexivity.
Qed.

Lemma splitMarkdown_chunks_bounded_witness :
  1 ≤ 8
  ∧ ((String.length "short text" ≤ 8 → splitMarkdown "short text" 8 = Some ["short text"])
     ∧ (∃ chunks, splitMarkdown "short text" 8 = Some chunks
                  ∧ Forall (λ chunk, String.length chunk ≤ 8) chunks)
     ∧ splitMarkdown (JS.repeat "A" 4500) 4000
       = Some [JS.repeat "A" 4000; JS.repeat "A" 500]
     ∧ splitMarkdown (JS.repeat "B" 4000) 4000 = Some [JS.repeat "B" 4000]).
Proof. split; [lia | apply (splitMarkdown_chunks_bounded "short text" 8); lia]. Defined.

(** C6 — For every text [T] and every [L ≥ 1], the chunks of
    [splitMarkdown T L], each followed by the separator consumed after it (two
    line feeds at a paragraph cut, one at a line cut, nothing at a hard cut or
    after the last chunk), put together give [T] again: no character is
    dropped or duplicated. *)
Theorem splitMarkdown_rejoin (T : string) (L : nat) :
  1 ≤ L →
  ∃ cuts, splitMarkdown_cuts T L = Some cuts
          ∧ splitMarkdown T L = Some (cuts.*1)
          ∧ Forall (λ c, isSeparator c.2) cuts
          ∧ rejoin cuts = T.
Proof.
  intros HL.
  destruct (splitMarkdown_cuts_returns T L HL) as (cuts & Hcuts & Hrun & Hre & Hall).
  exists cuts. split_and!; [done|done| |done].
  eapply Forall_impl; [exact Hall|]. by intros [chunk sep] [_ ?].
Qed.

Lemma splitMarkdown_rejoin_witness :
  1 ≤ 12
  ∧ ∃ cuts, splitMarkdown_cuts ("para1" +:+ JS.LF +:+ JS.LF +:+ "para2" +:+ JS.LF +:+ "para3") 12
            = Some cuts
            ∧ splitMarkdown ("para1" +:+ JS.LF +:+ JS.LF +:+ "para2" +:+ JS.LF +:+ "para3") 12
              = Some (cuts.*1)
            ∧ Forall (λ c, isSeparator c.2) cuts
            ∧ rejoin cuts = "para1" +:+ JS.LF +:+ JS.LF +:+ "para2" +:+ JS.LF +:+ "para3".
Proof.
  split; [lia|].
  apply (splitMarkdown_rejoin ("para1" +:+ JS.LF +:+ JS.LF +:+ "para2" +:+ JS.LF +:+ "para3") 12).
  lia.
Defined.

(** C10 — [splitMarkdown(text, maxLen)] returns for every text whenever
    [maxLen ≥ 1]: each iteration of its loop strictly shortens the remainder,
    by at least 3 characters at a paragraph cut, at least 2 at a line cut and
    exactly [maxLen] at a hard cut.  The bound is needed: with [maxLen = 0]
    and a non-empty text the step is a hard cut that removes nothing, and the
    loop never returns, whatever the fuel. *)
Theorem splitMarkdown_terminates (text : string) (maxLen : nat) :
  (1 ≤ maxLen →
     (∃ chunks, ∀ fuel, String.length text < fuel →
                        splitMarkdown_fuel fuel text maxLen = Some chunks)
     ∧ ∀ remaining cut chunk rest,
         maxLen < String.length remaining →
         splitStep maxLen remaining = (cut, chunk, rest) →
         String.length rest < String.length remaining
         ∧ match cut with
           | ParagraphCut => String.length rest + 3 ≤ String.length remaining
           | LineCut => String.length rest + 2 ≤ String.length remaining
           | HardCut => String.length rest + maxLen = String.length remaining
           end)
  ∧ (text ≠ "" →
     splitStep 0 text = (HardCut, "", text)
     ∧ ∀ fuel, splitMarkdown_fuel fuel text 0 = None).
Proof.
  split.
  - intros Hpos. split.
    + destruct (splitMarkdown_cuts_returns text maxLen Hpos) as (cuts & _ & Hrun & _).
      exists (cuts.*1). intros fuel Hfuel. by apply splitMarkdown_fuel_enough.
    + intros remaining cut chunk rest Hlong Hstep.
      pose proof (splitStep_shortens _ _ _ _ _ Hlong Hstep) as Hshort.
      split; [destruct cut; lia|done].
  - intros Hne. split; [apply splitStep_zero|].
    intros fuel. unfold splitMarkdown_fuel.
    rewrite bool_decide_eq_false_2.
    + by apply splitLoop_zero_diverges.
    + destruct text; [done|simpl; lia].
Qed.

Lemma splitMarkdown_terminates_witness :
  (1 ≤ 2 ∧ "abc" ≠ "")
  ∧ (∃ chunks, ∀ fuel, String.length "abc" < fuel →
                       splitMarkdown_fuel fuel "abc" 2 = Some chunks)
  ∧ (splitStep 0 "abc" = (HardCut, "", "abc")
     ∧ ∀ fuel, splitMarkdown_fuel fuel "abc" 0 = None).
Proof.
  split; [split; [lia|discriminate]|].
  split.
  - apply (splitMarkdown_terminates "abc" 2). lia.
  - apply (splitMarkdown_terminates "abc" 2). discriminate.
Defined.

(** ** Sending *)

(** Unfolds the operations of the monad [M] down to functions on worlds. *)
Ltac unfold_M :=
  repeat (progress (
    repeat match goal with
    | |- context [@mbind M ?i ?A ?B ?f ?m] =>
      change (@mbind M i A B f m) with (M_bind A B f m)
    | |- context [@mret M ?i ?A ?a] =>
      change (@mret M i A a) with (M_ret A a)
    end;
    unfold M_bind, M_ret, getChan, putChan, modifyChan, emit, throw,
      diverge, tryCatch, tryFinally, enqueue;
    cbn [fst snd trace chan orb andb negb])).

Section Sending.
Variable platform : list Effect → Effect → bool.

Lemma splitMarkdown_MAX text :
  splitMarkdown text MAX_TEXT_LENGTH = Some (chunksOf text).
Proof.
  unfold chunksOf.
  destruct (splitMarkdown_cuts_returns text MAX_TEXT_LENGTH) as (cuts & _ & -> & _); [|done].
  unfold MAX_TEXT_LENGTH. lia.
Qed.

(** A text always splits into at least one chunk, and each fits. *)
Lemma chunksOf_spec text :
  ∃ first rest, chunksOf text = first :: rest
                ∧ Forall (λ chunk, String.length chunk ≤ MAX_TEXT_LENGTH) (first :: rest).
Proof.
  assert (1 ≤ MAX_TEXT_LENGTH) as Hpos by (unfold MAX_TEXT_LENGTH; lia).
  destruct (splitMarkdown_cuts_returns text MAX_TEXT_LENGTH Hpos)
    as (cuts & Hcuts & Hrun & Hre & Hall).
  unfold chunksOf. rewrite Hrun. simpl.
  destruct cuts as [|[chunk sep] cuts].
  - exfalso. revert Hcuts. unfold splitMarkdown_cuts. case_bool_decide as Hfit; [done|].
    simpl in Hre. subst text. simpl in Hfit. lia.
  - exists chunk, (cuts.*1). split; [done|].
    change (chunk :: cuts.*1) with (((chunk, sep) :: cuts).*1).
    apply Forall_fmap. eapply Forall_impl; [exact Hall|]. by intros [? ?] [? _].
Qed.

Lemma perform_app h calls1 calls2 :
  perform platform h (calls1 ++ calls2) =
    let '(made1, ok1) := perform platform h calls1 in
    if ok1 then
      let '(made2, ok2) := perform platform (h ++ made1) calls2 in (made1 ++ made2, ok2)
    else (made1, false).
Proof.
  revert h. induction calls1 as [|e calls1 IH]; intros h; simpl.
  - rewrite app_nil_r. by destruct (perform platform h calls2).
  - destruct (platform h e); [|done]. rewrite IH.
    destruct (perform platform (h ++ [e]) calls1) as [made1 [|]]; [|done].
    rewrite <- (assoc_L (++)). simpl.
    by destruct (perform platform (h ++ e :: made1) calls2).
Qed.

(** The calls made are the first of the calls planned, all of them exactly
    when none fails; a failure is the failure of the last call made. *)
Lemma perform_spec h calls :
  let '(made, ok) := perform platform h calls in
  made `prefix_of` calls
  ∧ (ok = true → made = calls)
  ∧ (ok = false → ∃ before e, made = before ++ [e] ∧ platform (h ++ before) e = false)
  ∧ ((∀ before e, before ++ [e] `prefix_of` calls → platform (h ++ before) e = true)
     → ok = true).
Proof.
  revert h. induction calls as [|e calls IH]; intros h; simpl.
  - split_and!; [done|done|done|done].
  - destruct (platform h e) eqn:He.
    + specialize (IH (h ++ [e])).
      destruct (perform platform (h ++ [e]) calls) as [made ok].
      destruct IH as (Hpre & Hok & Hfail & Hall). split_and!.
      * by apply prefix_cons.
      * intros ->. by rewrite Hok.
      * intros ->. destruct Hfail as (before & e' & -> & Hf); [done|].
        exists (e :: before), e'. split; [done|]. by rewrite <- (assoc_L (++)) in Hf.
      * intros Hgood. apply Hall. intros before e' Hp.
        rewrite <- (assoc_L (++)). simpl. apply (Hgood (e :: before) e').
        simpl. by apply prefix_cons.
    + split_and!.
      * exists calls. done.
      * done.
      * intros _. exists [], e. by rewrite app_nil_r.
      * intros Hgood. specialize (Hgood [] e). rewrite app_nil_r, He in Hgood.
        apply Hgood. by exists calls.
Qed.

(** The loop of [_sendDirect] makes its calls in order and throws at the
    first that fails; it leaves the channel's fields alone. *)
Lemma sendChunks_perform chatId replyTo mu chunks i w :
  sendChunks platform chatId replyTo mu i chunks w =
    let '(made, ok) := perform platform (trace w) (chunkCalls chatId replyTo mu i chunks) in
    (if ok then Returned tt else Thrown PlatformError,
     {| chan := chan w; trace := trace w ++ made |}).
Proof.
  revert i w. induction chunks as [|chunk chunks IH]; intros i w.
  - simpl. rewrite app_nil_r. by destruct w.
  - cbn [sendChunks chunkCalls perform].
    unfold mbind, M_bind, platformCall.
    destruct (platform (trace w) _) eqn:Hp; [|done].
    rewrite IH. cbn [trace chan].
    destruct (perform platform _ _) as [made ok].
    by rewrite <- (assoc_L (++)).
Qed.

Lemma _sendDirect_perform jid text replyTo mu w :
  _sendDirect platform jid text replyTo mu w =
    let '(made, ok) :=
      perform platform (trace w)
        (chunkCalls (stripLarkPrefix jid) replyTo mu 0 (chunksOf text)) in
    (if ok then Returned tt else Thrown PlatformError,
     {| chan := chan w; trace := trace w ++ made |}).
Proof. unfold _sendDirect. rewrite splitMarkdown_MAX. apply sendChunks_perform. Qed.

(** The flush loop, run on a queue [q] with fuel to spare: the calls of the
    items in order up to the first failure; the queue is left empty when
    none fails, and otherwise holds the items after the failing one. *)
Lemma flushLoop_perform q : ∀ fuel w,
  outgoingQueue (chan w) = q →
  length q < fuel →
  let '(made, ok) := perform platform (trace w) (flushCalls q) in
  ∃ q', flushLoop platform fuel w =
          (if ok then Returned tt else Thrown PlatformError,
           {| chan := set_outgoingQueue q' (chan w); trace := trace w ++ made |})
        ∧ q' `suffix_of` q
        ∧ (ok = true → q' = []).
Proof.
  induction q as [|item q IH]; intros fuel w Hq Hfuel.
  - destruct fuel as [|fuel]; [simpl in Hfuel; lia|].
    simpl. unfold mbind, M_bind, getChan. rewrite Hq. exists [].
    split_and!; [|done|done].
    rewrite app_nil_r. unfold mret, M_ret. f_equal.
    destruct w as [c t]. simpl in *. f_equal. destruct c; simpl in *. by subst.
  - destruct fuel as [|fuel]; [simpl in Hfuel; lia|].
    unfold flushCalls. cbn [mbind list_bind]. fold (flushCalls q).
    rewrite perform_app.
    cbn [flushLoop]. unfold mbind at 1, M_bind at 1, getChan at 1. rewrite Hq.
    unfold mbind at 1, M_bind at 1, putChan at 1.
    unfold mbind at 1, M_bind at 1. rewrite _sendDirect_perform. cbn [trace chan].
    destruct (perform platform (trace w) _) as [made1 [|]].
    + specialize (IH fuel
        {| chan := set_outgoingQueue q (chan w); trace := trace w ++ made1 |}).
      cbn [trace chan] in IH.
      destruct (perform platform (trace w ++ made1) (flushCalls q)) as [made2 ok2].
      destruct IH as (q' & -> & Hsuf & Hempty); [done|simpl in Hfuel; lia|].
      exists q'. split_and!; [|by apply suffix_cons_r|done].
      by rewrite <- (assoc_L (++)).
    + exists q. split_and!; [done|by apply suffix_cons_r|done].
Qed.

Lemma set_outgoingQueue_id c : set_outgoingQueue (outgoingQueue c) c = c.
Proof. by destruct c. Qed.

(** [flushOutgoingQueue] outside a flush: the calls of the queued items in
    order up to the first failure. *)
Lemma flushOutgoingQueue_perform w :
  flushing (chan w) = false →
  let '(made, ok) := perform platform (trace w) (flushCalls (outgoingQueue (chan w))) in
  ∃ q', flushOutgoingQueue platform w =
          (if ok then Returned tt else Thrown PlatformError,
           {| chan := set_outgoingQueue q' (chan w); trace := trace w ++ made |})
        ∧ q' `suffix_of` outgoingQueue (chan w)
        ∧ (ok = true → q' = []).
Proof.
  intros Hfl. unfold flushOutgoingQueue.
  unfold mbind at 1, M_bind at 1, getChan at 1. rewrite Hfl. simpl orb.
  case_bool_decide as Hq.
  - rewrite Hq. simpl. exists []. split_and!; [|done|done].
    rewrite app_nil_r, <- Hq, set_outgoingQueue_id. unfold mret, M_ret. by destruct w.
  - unfold_M.
    set (w1 := {| chan := set_flushing true (chan w); trace := trace w |}).
    pose proof (flushLoop_perform (outgoingQueue (chan w)) (S (length (outgoingQueue (chan w)))) w1)
      as Hloop.
    cbn [trace chan w1 set_flushing outgoingQueue] in Hloop.
    destruct (perform platform (trace w) (flushCalls (outgoingQueue (chan w)))) as [made ok].
    destruct Hloop as (q' & Hrun & Hsuf & Hempty); [done|lia|].
    exists q'. split_and!; [|done|done].
    fold w1. rewrite Hrun.
    destruct w as [[] ?]; simpl in *; subst. by destruct ok.
Qed.

(** [sendMessage] with its retry named. *)
Lemma sendMessage_unfold jid text opts w :
  sendMessage platform jid text opts w =
    if connected (chan w) then
      tryCatch
        (_sendDirect platform jid text (opts ≫= replyToMessageId) (opts ≫= mentionUser))
        (λ _, tryCatch (platformCall platform (fallbackCall jid text opts))
                (λ _, enqueue jid text)) w
    else enqueue jid text w.
Proof.
  unfold sendMessage, fallbackCall.
  unfold mbind at 1, M_bind at 1, getChan at 1.
  destruct (connected (chan w)); [|done]. cbn [negb].
  by destruct (truthy (opts ≫= replyToMessageId)).
Qed.


Lemma syncChatMetadata_run list_ updateChatName fuel w :
  syncChatMetadata list_ updateChatName fuel w =
    (match ChatSync.syncChatMetadata list_ updateChatName fuel with
     | Some _ => Returned tt
     | None => Diverged
     end, w).
Proof.
  unfold syncChatMetadata.
  by destruct (ChatSync.syncChatMetadata list_ updateChatName fuel).
Qed.

(** [connect()] with the server up: the fields are set, the queue is
    flushed, and the chat listing decides whether it returns. *)
Lemma connect_run botInfo list_ updateChatName fuel w :
  connect platform true botInfo list_ updateChatName fuel w =
    let w1 := {| chan := set_connected true
                           (match botInfo with
                            | Some openId => set_botOpenId openId (chan w)
                            | None => chan w
                            end);
                 trace := trace w |} in
    match flushOutgoingQueue platform w1 with
    | (Returned _, w2) =>
      (match ChatSync.syncChatMetadata list_ updateChatName fuel with
       | Some _ => Returned tt
       | None => Diverged
       end, w2)
    | (Thrown e, w2) => (Thrown e, w2)
    | (Diverged, w2) => (Diverged, w2)
    end.
Proof.
  unfold connect. cbn [negb]. cbn zeta.
  destruct botInfo as [openId|]; unfold_M.
  all: match goal with |- context [flushOutgoingQueue platform ?w1] =>
      destruct (flushOutgoingQueue platform w1) as [[[]| |] w2]
    end; try done; apply syncChatMetadata_run.
Qed.

End Sending.

(** C8 — When [sendMessage] is called while connected and the rich (post)
    send fails, it retries exactly once with a plain-text send of the same
    text, mention-prefixed when a mention is asked for: through the reply
    primitive when [opts.replyToMessageId] is set and through the create
    primitive otherwise.  If that retry fails too, the original [{jid, text}]
    is enqueued.  In every case [sendMessage] returns and never throws. *)
Theorem sendMessage_fallback
    (platform : list Effect → Effect → bool) (w : World)
    (jid text : string) (opts : option SendOpts) :
  let rich := _sendDirect platform jid text (opts ≫= replyToMessageId) (opts ≫= mentionUser) w in
  let r := sendMessage platform jid text opts w in
  let fallbackText :=
    match opts ≫= mentionUser with
    | Some u => mentionMarkup u +:+ text
    | None => text
    end in
  r.1 = Returned tt
  ∧ (connected (chan w) = true →
     (rich.1 = Returned tt → r.2 = rich.2)
     ∧ (rich.1 ≠ Returned tt →
        trace r.2 = trace rich.2 ++ [fallbackCall jid text opts]
        ∧ (platform (trace rich.2) (fallbackCall jid text opts) = true →
           chan r.2 = chan w)
        ∧ (platform (trace rich.2) (fallbackCall jid text opts) = false →
           chan r.2 =
             set_outgoingQueue
               (outgoingQueue (chan w) ++ [{| item_jid := jid; item_text := text |}]) (chan w))))
  ∧ (∀ replyTo, opts ≫= replyToMessageId = Some replyTo → replyTo ≠ "" →
       fallbackCall jid text opts = message_reply replyTo Text fallbackText)
  ∧ (opts ≫= replyToMessageId = None →
       fallbackCall jid text opts = message_create (stripLarkPrefix jid) Text fallbackText).
Proof.
  cbn zeta. rewrite sendMessage_unfold, _sendDirect_perform.
  destruct (perform platform (trace w) _) as [made ok] eqn:Hperform.
  split_and!.
  - destruct (connected (chan w)); [|done].
    unfold_M. rewrite _sendDirect_perform, Hperform.
    destruct ok; [done|].
    unfold platformCall. cbn [trace chan].
    by destruct (platform (trace w ++ made) (fallbackCall jid text opts)).
  - intros ->. unfold_M. rewrite _sendDirect_perform, Hperform.
    cbn [fst snd trace chan]. split.
    + intros Hok. by destruct ok.
    + intros Hfail. destruct ok; [done|].
      unfold platformCall. cbn [trace chan].
      destruct (platform (trace w ++ made) (fallbackCall jid text opts));
        split_and!; done.
  - intros replyTo Hr Hne. unfold fallbackCall. rewrite Hr.
    destruct replyTo; done.
  - intros Hr. unfold fallbackCall. by rewrite Hr.
Qed.

Lemma sendMessage_fallback_witness :
  let opts := Some {| replyToMessageId := Some "om_trigger_msg_003"; mentionUser := None |} in
  let w := TestConfig.connectedWorld in
  connected (chan w) = true
  ∧ (sendMessage TestConfig.failsOnce "lark:oc_test123" "Fallback reply" opts w).1 = Returned tt
  ∧ trace (sendMessage TestConfig.failsOnce "lark:oc_test123" "Fallback reply" opts w).2
    = [message_reply "om_trigger_msg_003" Post "Fallback reply";
       message_reply "om_trigger_msg_003" Text "Fallback reply"].
Proof.
  cbn zeta. split; [reflexivity|].
  pose proof (sendMessage_fallback TestConfig.failsOnce TestConfig.connectedWorld
                "lark:oc_test123" "Fallback reply"
                (Some {| replyToMessageId := Some "om_trigger_msg_003"; mentionUser := None |}))
    as (Hret & Hconn & _).
  split; [exact Hret|].
  destruct (Hconn eq_refl) as (_ & Hfail).
  destruct Hfail as (Htrace & _); [vm_compute; discriminate|].
  rewrite Htrace. vm_compute. reflexivity.
Defined.




(** C2 — When [sendMessage] is called while connected with
    [opts.mentionUser] set, the text is split into chunks of at most 4000
    characters first, and the mention markup is then put in front of the first
    chunk: the text of the first unit sent is the markup followed by the first
    chunk, so its length is that of the markup plus that of the chunk, at
    most 4000 characters more than the markup. *)
Theorem mention_prepended_after_split
    (platform : list Effect → Effect → bool) (w : World)
    (jid text : string) (opts : option SendOpts) (u : MentionUser.t) :
  connected (chan w) = true →
  opts ≫= mentionUser = Some u →
  ∃ firstChunk chunks firstCall later,
    splitMarkdown text MAX_TEXT_LENGTH = Some (firstChunk :: chunks)
    ∧ String.length firstChunk ≤ MAX_TEXT_LENGTH
    ∧ trace (sendMessage platform jid text opts w).2 = trace w ++ firstCall :: later
    ∧ bodyOf firstCall = Some (mentionMarkup u +:+ firstChunk)
    ∧ String.length (mentionMarkup u +:+ firstChunk)
      = String.length (mentionMarkup u) + String.length firstChunk.
Proof.
  intros Hconn Hu.
  destruct (chunksOf_spec text) as (firstChunk & chunks & Hchunks & Hfit).
  apply Forall_cons in Hfit as [Hfirst _].
  set (firstCall := chunkCall (stripLarkPrefix jid) (opts ≫= replyToMessageId) (Some u) 0 firstChunk).
  assert (bodyOf firstCall = Some (mentionMarkup u +:+ firstChunk)) as Hbody.
  { unfold firstCall, chunkCall. cbn [bool_decide decide_rel].
    by destruct (truthy (opts ≫= replyToMessageId)). }
  assert (∃ later, trace (sendMessage platform jid text opts w).2 = trace w ++ firstCall :: later)
    as [later Hlater].
  { rewrite sendMessage_unfold, Hconn. unfold_M. rewrite _sendDirect_perform.
    rewrite Hu, Hchunks. cbn [chunkCalls perform]. fold firstCall.
    destruct (platform (trace w) firstCall).
    - destruct (perform platform (trace w ++ [firstCall]) _) as [made [|]].
      + by exists made.
      + unfold platformCall. cbn [trace chan].
        destruct (platform _ _); cbn [snd trace];
          eexists; by rewrite <- (assoc_L (++)).
    - unfold platformCall. cbn [trace chan].
      destruct (platform _ _); cbn [snd trace];
        eexists; by rewrite <- (assoc_L (++)). }
  exists firstChunk, chunks, firstCall, later.
  split_and!; [|done|done|done|apply JSFacts.length_app].
  by rewrite splitMarkdown_MAX, Hchunks.
Qed.

Lemma mention_prepended_after_split_witness :
  let alice := {| MentionUser.id := "ou_USER_456"; MentionUser.name := "Alice" |} in
  let opts := Some {| replyToMessageId := Some "om_trigger_msg_010"; mentionUser := Some alice |} in
  (connected (chan TestConfig.connectedWorld) = true ∧ opts ≫= mentionUser = Some alice)
  ∧ ∃ firstChunk chunks firstCall later,
      splitMarkdown "Hello there" MAX_TEXT_LENGTH = Some (firstChunk :: chunks)
      ∧ String.length firstChunk ≤ MAX_TEXT_LENGTH
      ∧ trace (sendMessage TestConfig.reliable "lark:oc_test123" "Hello there" opts
                 TestConfig.connectedWorld).2
        = trace TestConfig.connectedWorld ++ firstCall :: later
      ∧ bodyOf firstCall = Some (mentionMarkup alice +:+ firstChunk)
      ∧ String.length (mentionMarkup alice +:+ firstChunk)
        = String.length (mentionMarkup alice) + String.length firstChunk.
Proof.
  cbn zeta. split; [split; reflexivity|].
  apply (mention_prepended_after_split TestConfig.reliable TestConfig.connectedWorld
           "lark:oc_test123" "Hello there"); reflexivity.
Defined.

(** C2, as the specification states it, fails: for a text of 4500 times [A]
    and a mention of Alice, the first unit sent carries the markup and a full
    chunk of 4000 characters, more than the 4000 allowed. *)
Lemma mention_exceeds_budget :
  let alice := {| MentionUser.id := "ou_USER_456"; MentionUser.name := "Alice" |} in
  let opts := Some {| replyToMessageId := Some "om_trigger_msg_011"; mentionUser := Some alice |} in
  let sent := trace (sendMessage TestConfig.reliable "lark:oc_test123" (JS.repeat "A" 4500) opts
                       TestConfig.connectedWorld).2 in
  connected (chan TestConfig.connectedWorld) = true
  ∧ sent = [message_reply "om_trigger_msg_011" Post (mentionMarkup alice +:+ JS.repeat "A" 4000);
            message_create "oc_test123" Post (JS.repeat "A" 500)]
  ∧ ¬ (String.length (mentionMarkup alice +:+ JS.repeat "A" 4000) ≤ MAX_TEXT_LENGTH).
Proof.
  cbn zeta. split_and!; [reflexivity|vm_compute; reflexivity|].
  rewrite JSFacts.length_app, JSFacts.length_repeat. unfold MAX_TEXT_LENGTH. simpl. lia.
Qed.

(** ** Handling an inbound event *)

Section Inbound.
Variable ASSISTANT_NAME : string.
Variable TRIGGER_PATTERN : string → bool.

Abbreviation handle := (handleIncomingMessage ASSISTANT_NAME TRIGGER_PATTERN).

(** A branch of the handler that returns without a callback. *)
Local Ltac quiet_leaf :=
  intros <-; exists []; cbn [fst snd]; rewrite app_nil_r; split; [done|by left].

Lemma set_seenMessages_id c : set_seenMessages (seenMessages c) c = c.
Proof. by destruct c. Qed.

(** What handling one event can do: it records the id, and emits nothing,
    or the metadata and the registry call, or these and one message. *)
Lemma handle_spec now groups data w r :
  handle now groups data w = r →
  ∃ es, r.2 = {| chan := set_seenMessages (seenAfter now data (seenMessages (chan w))) (chan w);
                 trace := trace w ++ es |}
        ∧ (es = []
           ∨ ∃ m chatId textContent ts,
               message data = Some m
               ∧ has (seenMessages (chan w)) (truthy (message_id m)) = false
               ∧ message_type m = Some "text"
               ∧ content m = TextField (Some textContent)
               ∧ textContent ≠ ""
               ∧ truthy (chat_id m) = Some chatId
               ∧ ts = numberOr (parseInt10 (create_time m)) now
               ∧ (- MAX_TIME_VALUE ≤ ts ≤ MAX_TIME_VALUE)%Z
               ∧ r.1 = Returned tt
               ∧ let jid := "lark:" +:+ chatId in
                 let meta :=
                   onChatMetadata jid ts None "lark" (bool_decide (chat_type m ≠ Some "p2p")) in
                 (es = [meta; registeredGroups] ∧ groups !! jid = None)
                 ∨ (∃ msg, es = [meta; registeredGroups; onMessage jid msg]
                           ∧ is_Some (groups !! jid)
                           ∧ Message.content msg =
                               normalizeMentions ASSISTANT_NAME TRIGGER_PATTERN
                                 (botOpenId (chan w)) (Message.is_bot_message msg)
                                 (mentions m) textContent
                           ∧ Message.is_bot_message msg =
                               bool_decide (is_Some (truthy (botOpenId (chan w)))
                                            ∧ sender_open_id data = botOpenId (chan w)))).
Proof.
  unfold handleIncomingMessage, seenAfter.
  destruct (message data) as [m|] eqn:Hm; cbn [mbind option_bind].
  2:{ intros <-. exists []. unfold_M. rewrite app_nil_r, set_seenMessages_id.
      split; [by destruct w|by left]. }
  unfold_M.
  destruct (has (seenMessages (chan w)) (truthy (message_id m))) eqn:Hhas.
  { intros <-. exists []. cbn [snd]. rewrite app_nil_r.
    destruct (truthy (message_id m)); rewrite ?Hhas, set_seenMessages_id;
      (split; [by destruct w|by left]). }
  destruct w as [c t]. cbn [chan trace] in *.
  destruct (truthy (message_id m)) as [mid|] eqn:Hid;
    rewrite ?Hhas, ?set_seenMessages_id; cbn [trace].
  all: case_bool_decide as Htype; [quiet_leaf|].
  all: destruct (content m) as [|textField] eqn:Hcontent; [quiet_leaf|].
  all: destruct (truthy textField) as [textContent|] eqn:Htext; [|quiet_leaf].
  all: destruct (truthy (chat_id m)) as [chatId|] eqn:Hchat; [|quiet_leaf].
  all: unfold toISOString;
    destruct (decide (- MAX_TIME_VALUE ≤ numberOr (parseInt10 (create_time m)) now
                      ≤ MAX_TIME_VALUE)%Z) as [Hrange|Hrange];
    [rewrite (bool_decide_eq_true_2 _ Hrange)
    |rewrite (bool_decide_eq_false_2 _ Hrange); unfold_M; quiet_leaf].
  all: unfold_M.
  all: assert (textField = Some textContent ∧ textContent ≠ "") as [-> Hne]
         by (destruct textField as [[|? ?]|]; simplify_eq/=; done).
  all: destruct (groups !! ("lark:" +:+ chatId)) as [g|] eqn:Hg; intros <-; cbn [fst snd].
  all: first
    [ eexists [_; _; _]; split;
        [cbn [chan trace]; rewrite <- !(assoc_L (++)); reflexivity|];
      right; exists m, chatId, textContent, (numberOr (parseInt10 (create_time m)) now);
      rewrite ?Hid; split_and!; [done..|apply Hrange|apply Hrange|done|]; right; eexists;
      split_and!; [reflexivity|by eexists|done|done]
    | eexists [_; _]; split;
        [cbn [chan trace]; rewrite <- !(assoc_L (++)); reflexivity|];
      right; exists m, chatId, textContent, (numberOr (parseInt10 (create_time m)) now);
      rewrite ?Hid; split_and!; [done..|apply Hrange|apply Hrange|done|]; by left ].
Qed.

Lemma truthy_nonempty s : s ≠ "" → truthy (Some s) = Some s.
Proof. by destruct s. Qed.

Lemma truthy_Some v s : truthy v = Some s → v = Some s ∧ s ≠ "".
Proof. destruct v as [[|c t]|]; intros [= <-]; done. Qed.

(** An event that passes every check gets its metadata out, then the
    registry is asked, and the message goes out if the chat is registered. *)
Lemma handle_emits now groups data w m chatId textContent :
  message data = Some m →
  has (seenMessages (chan w)) (truthy (message_id m)) = false →
  message_type m = Some "text" →
  content m = TextField (Some textContent) →
  textContent ≠ "" →
  truthy (chat_id m) = Some chatId →
  (- MAX_TIME_VALUE ≤ numberOr (parseInt10 (create_time m)) now ≤ MAX_TIME_VALUE)%Z →
  let r := handle now groups data w in
  let jid := "lark:" +:+ chatId in
  r.1 = Returned tt
  ∧ ∃ later,
      trace r.2 =
        trace w ++ onChatMetadata jid (numberOr (parseInt10 (create_time m)) now) None "lark"
                     (bool_decide (chat_type m ≠ Some "p2p"))
                :: registeredGroups :: later
      ∧ match groups !! jid with
        | None => later = []
        | Some _ => ∃ msg, later = [onMessage jid msg]
        end.
Proof.
  intros Hm Hhas Htype Hcontent Hne Hchat Hrange. cbn zeta.
  unfold handleIncomingMessage. rewrite Hm. unfold_M. rewrite Hhas.
  rewrite (bool_decide_eq_false_2 (message_type m ≠ Some "text")) by (by intros []).
  rewrite Hcontent, (truthy_nonempty _ Hne), Hchat.
  unfold toISOString. rewrite (bool_decide_eq_true_2 _ Hrange). unfold_M.
  destruct (truthy (message_id m)); cbn [fst snd trace chan];
    destruct (groups !! ("lark:" +:+ chatId)); cbn [fst snd trace chan];
    (split; [done|]); eexists; (split; [rewrite <- !(assoc_L (++)); reflexivity|]);
    first [done | by eexists].
Qed.

End Inbound.

(** C1 — [handleIncomingMessage] emits a [ChatMetadataEvent] for every
    inbound event that is not a duplicate, whose [message_type] is ['text'],
    whose content parses to a non-empty text, whose chat id is resolvable and
    whose creation time is a valid date: exactly one, whether or not the chat
    is registered.  An event whose [message_type] is not ['text'], or whose
    content is unparseable or yields no or empty text, gets no callback at
    all. *)
Theorem metadata_for_accepted_text_events
    (ASSISTANT_NAME : string) (TRIGGER_PATTERN : string → bool)
    (now : Z) (groups : gmap string RegisteredGroup.t) (data : LarkEvent) (w : World)
    (m : LarkMessage) :
  message data = Some m →
  let r := handleIncomingMessage ASSISTANT_NAME TRIGGER_PATTERN now groups data w in
  ∃ es, trace r.2 = trace w ++ es
    ∧ (∀ chatId textContent,
         has (seenMessages (chan w)) (truthy (message_id m)) = false →
         message_type m = Some "text" →
         content m = TextField (Some textContent) →
         textContent ≠ "" →
         chat_id m = Some chatId →
         chatId ≠ "" →
         (- MAX_TIME_VALUE ≤ numberOr (parseInt10 (create_time m)) now ≤ MAX_TIME_VALUE)%Z →
         ∃ later,
           es = onChatMetadata ("lark:" +:+ chatId)
                  (numberOr (parseInt10 (create_time m)) now) None "lark"
                  (bool_decide (chat_type m ≠ Some "p2p")) :: later
           ∧ Forall (λ e, isOnChatMetadata e = false) later)
    ∧ (message_type m ≠ Some "text"
       ∨ content m = Unparseable
       ∨ content m = TextField None
       ∨ content m = TextField (Some "") →
       es = []).
Proof.
  intros Hm. cbn zeta.
  destruct (handleIncomingMessage ASSISTANT_NAME TRIGGER_PATTERN now groups data w)
    as [o w'] eqn:Hrun.
  destruct (handle_spec _ _ _ _ _ _ _ Hrun) as (es & Hw' & Hes).
  exists es. cbn [snd] in *. split_and!.
  - by rewrite Hw'.
  - intros chatId textContent Hhas Htype Hcontent Hne Hchat Hchatne Hrange.
    assert (truthy (chat_id m) = Some chatId) as Htruthy
      by (rewrite Hchat; by apply truthy_nonempty).
    destruct (handle_emits ASSISTANT_NAME TRIGGER_PATTERN now groups data w m chatId textContent
                Hm Hhas Htype Hcontent Hne Htruthy Hrange) as (_ & later & Htrace & Hlater).
    rewrite Hrun in Htrace. cbn [snd] in Htrace. rewrite Hw' in Htrace. cbn [trace] in Htrace.
    apply (inj (app (trace w))) in Htrace. subst es.
    eexists. split; [done|].
    constructor; [done|].
    destruct (groups !! ("lark:" +:+ chatId)); [destruct Hlater as [msg ->]|subst later];
      by repeat constructor.
  - intros Hbad. destruct Hes as [->|Hes]; [done|].
    destruct Hes as (m' & chatId & textContent & ts & Hm' & _ & Htype & Hcontent & Hne & _).
    rewrite Hm in Hm'. injection Hm' as <-.
    destruct Hbad as [?|[?|[?|?]]]; congruence.
Qed.

Lemma metadata_for_accepted_text_events_witness :
  let data := TestConfig.createMessageData "om_test_msg_001" "text"
                (TextField (Some "Hello everyone")) None "ou_USER_456" in
  let r := handleIncomingMessage TestConfig.ASSISTANT_NAME TestConfig.TRIGGER_PATTERN 5%Z ∅ data
             TestConfig.connectedWorld in
  (∃ m, message data = Some m)
  ∧ ∃ es, trace r.2 = trace TestConfig.connectedWorld ++ es
          ∧ ∃ later,
              es = onChatMetadata "lark:oc_test123" 1704067200000%Z None "lark" true :: later
              ∧ Forall (λ e, isOnChatMetadata e = false) later.
Proof.
  cbn zeta. split; [by eexists|].
  destruct (metadata_for_accepted_text_events
              TestConfig.ASSISTANT_NAME TestConfig.TRIGGER_PATTERN 5%Z ∅
              (TestConfig.createMessageData "om_test_msg_001" "text"
                 (TextField (Some "Hello everyone")) None "ou_USER_456")
              TestConfig.connectedWorld _ eq_refl) as (es & Htrace & Hemit & _).
  exists es. split; [exact Htrace|].
  apply (Hemit "oc_test123" "Hello everyone"); try reflexivity; try discriminate.
  vm_compute. split; discriminate.
Defined.

(** C1, as the specification states it, fails: an [image] event with a
    resolvable chat id, the first with its message id, gets no metadata
    callback. *)
Lemma image_event_emits_no_metadata :
  let data := TestConfig.createMessageData "om_test_msg_001" "image"
                (TextField (Some "Hello everyone")) None "ou_USER_456" in
  let r := handleIncomingMessage TestConfig.ASSISTANT_NAME TestConfig.TRIGGER_PATTERN 5%Z
             TestConfig.groups data TestConfig.connectedWorld in
  (∃ m, message data = Some m ∧ truthy (chat_id m) = Some "oc_test123")
  ∧ r.1 = Returned tt
  ∧ ¬ (∃ e, e ∈ trace r.2 ∧ isOnChatMetadata e = true).
Proof.
  cbn zeta. split_and!; [by eexists|vm_compute; reflexivity|].
  intros (e & He & _). revert He.
  replace (trace _) with (@nil Effect) by (vm_compute; reflexivity).
  apply not_elem_of_nil.
Qed.

(** C9 — [handleIncomingMessage] calls [onMessage] for an event only if the
    event's JID is a key of the mapping that [registeredGroups()] returns when
    called during the handling of that very event, after the metadata and
    before the message: nothing of the registry is kept in the channel.  An
    event of an unregistered chat never gets an [onMessage]; and whether the
    next event is delivered depends on the registry as it is then, not as it
    was for this event. *)
Theorem onMessage_only_for_registered
    (ASSISTANT_NAME : string) (TRIGGER_PATTERN : string → bool)
    (now : Z) (groups : gmap string RegisteredGroup.t) (data : LarkEvent) (w : World) :
  let handle := handleIncomingMessage ASSISTANT_NAME TRIGGER_PATTERN in
  let r := handle now groups data w in
  ∃ es, trace r.2 = trace w ++ es
    ∧ (∀ jid msg, onMessage jid msg ∈ es →
         is_Some (groups !! jid)
         ∧ (∃ m chatId, message data = Some m ∧ truthy (chat_id m) = Some chatId
                        ∧ jid = "lark:" +:+ chatId)
         ∧ ∃ meta, es = [meta; registeredGroups; onMessage jid msg])
    ∧ (∀ m chatId, message data = Some m → truthy (chat_id m) = Some chatId →
         groups !! ("lark:" +:+ chatId) = None →
         Forall (λ e, isOnMessage e = false) es)
    ∧ (∀ now' groups' data' m' chatId' textContent',
         message data' = Some m' →
         has (seenMessages (chan r.2)) (truthy (message_id m')) = false →
         message_type m' = Some "text" →
         content m' = TextField (Some textContent') →
         textContent' ≠ "" →
         truthy (chat_id m') = Some chatId' →
         (- MAX_TIME_VALUE ≤ numberOr (parseInt10 (create_time m')) now' ≤ MAX_TIME_VALUE)%Z →
         ∃ es', trace (handle now' groups' data' r.2).2 = trace r.2 ++ es'
                ∧ (is_Some (groups' !! ("lark:" +:+ chatId'))
                   ↔ ∃ msg, onMessage ("lark:" +:+ chatId') msg ∈ es')).
Proof.
  cbn zeta.
  destruct (handleIncomingMessage ASSISTANT_NAME TRIGGER_PATTERN now groups data w)
    as [o w'] eqn:Hrun.
  destruct (handle_spec _ _ _ _ _ _ _ Hrun) as (es & Hw' & Hes).
  exists es. cbn [snd] in *. split_and!.
  - by rewrite Hw'.
  - intros jid msg Hin.
    destruct Hes as [->|(m & chatId & textContent & ts & Hm & _ & _ & _ & _ & Hchat & _ & _ & _ & Hes)];
      [by apply elem_of_nil in Hin|].
    cbn zeta in Hes. destruct Hes as [[-> Hnone]|(msg' & -> & Hsome & _)].
    + apply elem_of_cons in Hin as [?|Hin]; [done|].
      apply elem_of_cons in Hin as [?|Hin]; [done|]. by apply elem_of_nil in Hin.
    + apply elem_of_cons in Hin as [?|Hin]; [done|].
      apply elem_of_cons in Hin as [?|Hin]; [done|].
      apply list_elem_of_singleton in Hin. injection Hin as -> ->.
      split_and!; [done|by exists m, chatId|by eexists].
  - intros m chatId Hm Hchat Hnone.
    destruct Hes as [->|(m' & chatId' & textContent & ts & Hm' & _ & _ & _ & _ & Hchat' & _ & _ & _ & Hes)];
      [done|].
    rewrite Hm in Hm'. injection Hm' as <-. rewrite Hchat in Hchat'. injection Hchat' as <-.
    cbn zeta in Hes. destruct Hes as [[-> _]|(msg' & -> & Hsome & _)].
    + by repeat constructor.
    + rewrite Hnone in Hsome. by destruct Hsome.
  - intros now' groups' data' m' chatId' textContent' Hm' Hhas' Htype' Hcontent' Hne' Hchat' Hrange'.
    destruct (handle_emits ASSISTANT_NAME TRIGGER_PATTERN now' groups' data' w' m' chatId'
                textContent' Hm' Hhas' Htype' Hcontent' Hne' Hchat' Hrange')
      as (_ & later & Htrace & Hlater).
    eexists. split; [exact Htrace|].
    destruct (groups' !! ("lark:" +:+ chatId')) as [g|].
    + destruct Hlater as [msg ->]. split; [|by eexists].
      intros _. exists msg. rewrite !elem_of_cons. auto.
    + subst later. split; [by intros []|].
      intros [msg Hin]. exfalso.
      apply elem_of_cons in Hin as [?|Hin]; [done|].
      apply elem_of_cons in Hin as [?|Hin]; [done|]. by apply elem_of_nil in Hin.
Qed.

Lemma onMessage_only_for_registered_witness :
  let first := TestConfig.createMessageData "om_1" "text" (TextField (Some "Hello")) None
                 "ou_USER_456" in
  let second := TestConfig.createMessageData "om_2" "text" (TextField (Some "Hello again")) None
                  "ou_USER_456" in
  let handle := handleIncomingMessage TestConfig.ASSISTANT_NAME TestConfig.TRIGGER_PATTERN in
  let w1 := (handle 5%Z ∅ first TestConfig.connectedWorld).2 in
  (∃ m', message second = Some m'
         ∧ has (seenMessages (chan w1)) (truthy (message_id m')) = false)
  ∧ Forall (λ e, isOnMessage e = false) (trace w1)
  ∧ ∃ es', trace (handle 9%Z TestConfig.groups second w1).2 = trace w1 ++ es'
           ∧ ∃ msg, onMessage "lark:oc_test123" msg ∈ es'.
Proof.
  cbn zeta. split; [eexists; split; [reflexivity|vm_compute; reflexivity]|].
  destruct (onMessage_only_for_registered
              TestConfig.ASSISTANT_NAME TestConfig.TRIGGER_PATTERN 5%Z ∅
              (TestConfig.createMessageData "om_1" "text" (TextField (Some "Hello")) None
                 "ou_USER_456")
              TestConfig.connectedWorld) as (es & Htrace & _ & Hunreg & Hnext).
  split.
  - rewrite Htrace. apply Forall_app. split; [apply Forall_nil_2|].
    by apply (Hunreg _ "oc_test123" eq_refl).
  - destruct (Hnext 9%Z TestConfig.groups
                (TestConfig.createMessageData "om_2" "text" (TextField (Some "Hello again")) None
                   "ou_USER_456")
                _ "oc_test123" "Hello again" eq_refl) as (es' & Htrace' & Hiff);
      [vm_compute; reflexivity|reflexivity|reflexivity|discriminate|reflexivity
      |vm_compute; split; discriminate|].
    exists es'. split; [exact Htrace'|]. apply Hiff. vm_compute. by eexists.
Defined.

(** ** The dedup map over a run *)

Section Dedup.
Variable ASSISTANT_NAME : string.
Variable TRIGGER_PATTERN : string → bool.
Variable platform : list Effect → Effect → bool.

Lemma seenAfter_preserves now data seen mid ts :
  seen !! mid = Some ts → seenAfter now data seen !! mid = Some ts.
Proof.
  intros Hmid. unfold seenAfter.
  destruct (message data ≫= _) as [mid'|]; [|done]. cbn [has].
  case_bool_decide as Hhas; [done|].
  rewrite lookup_insert_ne; [done|]. intros ->. apply Hhas. by eexists.
Qed.

Lemma seenAfter_records now data seen mid :
  message data ≫= (λ m, truthy (message_id m)) = Some mid →
  ∃ ts, seenAfter now data seen !! mid = Some ts ∧ (seen !! mid = None → ts = now).
Proof.
  intros Hmid. unfold seenAfter. rewrite Hmid. cbn [has].
  case_bool_decide as Hhas.
  - destruct Hhas as [ts Hts]. exists ts. split; [done|]. congruence.
  - exists now. split; [apply lookup_insert_eq|done].
Qed.

Lemma handle_seen now groups data w :
  seenMessages (chan (handleIncomingMessage ASSISTANT_NAME TRIGGER_PATTERN now groups data w).2)
  = seenAfter now data (seenMessages (chan w)).
Proof.
  destruct (handle_spec ASSISTANT_NAME TRIGGER_PATTERN now groups data w _ eq_refl)
    as (es & -> & _).
  by destruct (chan w).
Qed.

(** An event whose id is on record is dropped on the spot. *)
Lemma handle_duplicate now groups data w mid :
  message data ≫= (λ m, truthy (message_id m)) = Some mid →
  is_Some (seenMessages (chan w) !! mid) →
  handleIncomingMessage ASSISTANT_NAME TRIGGER_PATTERN now groups data w = (Returned tt, w).
Proof.
  intros Hmid Hseen. unfold handleIncomingMessage.
  destruct (message data) as [m|]; [|done]. cbn [mbind option_bind] in Hmid.
  unfold_M. rewrite Hmid. cbn [has]. by rewrite bool_decide_eq_true_2.
Qed.

Lemma flushOutgoingQueue_seen w :
  seenMessages (chan (flushOutgoingQueue platform w).2) = seenMessages (chan w).
Proof.
  destruct (flushing (chan w)) eqn:Hfl.
  - unfold flushOutgoingQueue. unfold_M. by rewrite Hfl.
  - pose proof (flushOutgoingQueue_perform platform w Hfl) as Hflush.
    destruct (perform platform (trace w) _) as [made ok].
    destruct Hflush as (q' & -> & _). by destruct (chan w).
Qed.

Lemma sendMessage_seen jid text opts w :
  seenMessages (chan (sendMessage platform jid text opts w).2) = seenMessages (chan w).
Proof.
  rewrite sendMessage_unfold. destruct (connected (chan w)).
  - unfold_M. rewrite _sendDirect_perform.
    destruct (perform platform (trace w) _) as [made [|]]; [done|].
    unfold platformCall. cbn [trace chan].
    by destruct (platform (trace w ++ made) (fallbackCall jid text opts)).
  - by unfold_M.
Qed.

Lemma connect_seen listening botInfo list_ updateChatName fuel w :
  seenMessages (chan (connect platform listening botInfo list_ updateChatName fuel w).2)
  = seenMessages (chan w).
Proof.
  destruct listening; [|done]. rewrite connect_run. cbn zeta.
  match goal with |- context [flushOutgoingQueue platform ?w1] =>
    pose proof (flushOutgoingQueue_seen w1) as Hseen;
    destruct (flushOutgoingQueue platform w1) as [[[]| |] w2]
  end; cbn [snd chan] in *; rewrite Hseen; by destruct botInfo, (chan w).
Qed.

(** A sweep at time [now] keeps every entry that is not older than the TTL. *)
Lemma cleanupDedup_keeps now w mid ts :
  seenMessages (chan w) !! mid = Some ts →
  (now - ts ≤ DEDUP_TTL_MS)%Z →
  seenMessages (chan (cleanupDedup now w).2) !! mid = Some ts.
Proof.
  intros Hmid Hfresh. unfold cleanupDedup. unfold_M. cbn [set_seenMessages seenMessages].
  apply map_lookup_filter_Some_2; [done|]. simpl. lia.
Qed.

(** No task of the channel removes an entry of the dedup map that is still
    inside the TTL window when the task runs. *)
Lemma runTask_keeps task w mid ts bound :
  seenMessages (chan w) !! mid = Some ts →
  (bound - ts ≤ DEDUP_TTL_MS)%Z →
  sweptBy bound task →
  seenMessages (chan (runTask ASSISTANT_NAME TRIGGER_PATTERN platform task w).2) !! mid
  = Some ts.
Proof.
  intros Hmid Hfresh Hswept. destruct task as [now groups data|now|jid text opts|l b li up fu|];
    cbn [runTask].
  - rewrite handle_seen. by apply seenAfter_preserves.
  - unfold_M. destruct (dedupTimer (chan w)); [|done].
    apply cleanupDedup_keeps; [done|]. simpl in Hswept. lia.
  - by rewrite sendMessage_seen.
  - by rewrite connect_seen.
  - unfold disconnect. unfold_M. by destruct (chan w).
Qed.

Lemma runTasks_keeps tasks w mid ts bound :
  seenMessages (chan w) !! mid = Some ts →
  (bound - ts ≤ DEDUP_TTL_MS)%Z →
  Forall (sweptBy bound) tasks →
  seenMessages (chan (runTasks ASSISTANT_NAME TRIGGER_PATTERN platform tasks w)) !! mid
  = Some ts.
Proof.
  intros Hmid Hfresh Hswept. revert w Hmid.
  induction Hswept as [|task tasks Htask _ IH]; intros w Hmid; [done|].
  cbn [runTasks foldl]. apply IH. by apply runTask_keeps with bound.
Qed.

End Dedup.

(** C3 — For two inbound events with the same non-empty message id, the
    second arriving while the id, recorded when it was first seen, is still
    inside the 10-minute TTL window: the second event is dropped on the spot,
    with no callback and no change of state, whatever the channel did in
    between, since a sweep only deletes entries older than the TTL.  The first
    event gets at most one [onMessage], so the pair gets at most one. *)
Theorem duplicate_within_ttl_dropped
    (ASSISTANT_NAME : string) (TRIGGER_PATTERN : string → bool)
    (platform : list Effect → Effect → bool)
    (now1 now2 : Z) (groups1 groups2 : gmap string RegisteredGroup.t)
    (data1 data2 : LarkEvent) (tasks : list Task) (w : World) (mid : string) :
  message data1 ≫= (λ m, truthy (message_id m)) = Some mid →
  message data2 ≫= (λ m, truthy (message_id m)) = Some mid →
  let handle := handleIncomingMessage ASSISTANT_NAME TRIGGER_PATTERN in
  let w1 := (handle now1 groups1 data1 w).2 in
  let w2 := runTasks ASSISTANT_NAME TRIGGER_PATTERN platform tasks w1 in
  ∃ firstSeen es1,
    seenMessages (chan w1) !! mid = Some firstSeen
    ∧ (seenMessages (chan w) !! mid = None → firstSeen = now1)
    ∧ trace w1 = trace w ++ es1
    ∧ length (filter (λ e, isOnMessage e = true) es1) ≤ 1
    ∧ ((now2 - firstSeen ≤ DEDUP_TTL_MS)%Z →
       Forall (sweptBy now2) tasks →
       handle now2 groups2 data2 w2 = (Returned tt, w2)).
Proof.
  intros Hid1 Hid2. cbn zeta.
  destruct (seenAfter_records now1 data1 (seenMessages (chan w)) mid Hid1) as (ts & Hts & Hnew).
  destruct (handle_spec ASSISTANT_NAME TRIGGER_PATTERN now1 groups1 data1 w _ eq_refl)
    as (es & Hw1 & Hes).
  exists ts, es. split_and!.
  - by rewrite handle_seen.
  - done.
  - by rewrite Hw1.
  - destruct Hes as [->|(m & chatId & textContent & ts' & _ & _ & _ & _ & _ & _ & _ & _ & _ & Hes)];
      [simpl; lia|].
    cbn zeta in Hes. destruct Hes as [[-> _]|(msg & -> & _)]; simpl; lia.
  - intros Hfresh Hswept. apply handle_duplicate with mid; [done|].
    exists ts. apply runTasks_keeps with now2; [|done|done].
    by rewrite handle_seen.
Qed.

Lemma duplicate_within_ttl_dropped_witness :
  let data := TestConfig.createMessageData "om_dup_001" "text" (TextField (Some "Hello everyone"))
                None "ou_USER_456" in
  let handle := handleIncomingMessage TestConfig.ASSISTANT_NAME TestConfig.TRIGGER_PATTERN in
  let tasks := [Sweep 300000%Z; Send "lark:oc_test123" "Hi" None; Sweep 600000%Z] in
  let w1 := (handle 0%Z TestConfig.groups data TestConfig.connectedWorld).2 in
  let w2 := runTasks TestConfig.ASSISTANT_NAME TestConfig.TRIGGER_PATTERN TestConfig.reliable
              tasks w1 in
  (message data ≫= (λ m, truthy (message_id m)) = Some "om_dup_001"
   ∧ (600000 - 0 ≤ DEDUP_TTL_MS)%Z
   ∧ Forall (sweptBy 600000%Z) tasks)
  ∧ handle 600000%Z TestConfig.groups data w2 = (Returned tt, w2).
Proof.
  cbn zeta. split.
  - split; [reflexivity|]. split; [vm_compute; discriminate|].
    repeat constructor; vm_compute; discriminate.
  - destruct (duplicate_within_ttl_dropped
                TestConfig.ASSISTANT_NAME TestConfig.TRIGGER_PATTERN TestConfig.reliable
                0%Z 600000%Z TestConfig.groups TestConfig.groups
                (TestConfig.createMessageData "om_dup_001" "text"
                   (TextField (Some "Hello everyone")) None "ou_USER_456")
                (TestConfig.createMessageData "om_dup_001" "text"
                   (TextField (Some "Hello everyone")) None "ou_USER_456")
                [Sweep 300000%Z; Send "lark:oc_test123" "Hi" None; Sweep 600000%Z]
                TestConfig.connectedWorld "om_dup_001" eq_refl eq_refl)
      as (firstSeen & es1 & _ & Hfirst & _ & _ & Hdrop).
    rewrite (Hfirst eq_refl) in Hdrop. apply Hdrop.
    + vm_compute. discriminate.
    + repeat constructor; vm_compute; discriminate.
Defined.

(** ** Mentions *)

Section Mentions.
Variable ASSISTANT_NAME : string.
Variable TRIGGER_PATTERN : string → bool.

Lemma getSubstitution_literal repl matched before after :
  noDollar repl = true → getSubstitution repl matched before after = repl.
Proof.
  induction repl as [|c t IH]; [done|]. cbn [noDollar getSubstitution].
  intros [Hc Ht]%andb_true_iff. apply negb_true_iff, bool_decide_eq_false in Hc.
  rewrite decide_False by done. by rewrite IH.
Qed.

(** [indexOf] finds the first occurrence. *)
Lemma indexOf_first s pat k :
  occursAt s pat k → (∀ j, j < k → ¬ occursAt s pat j) → JS.indexOf s pat = Some k.
Proof.
  unfold occursAt, JS.indexOf. intros Hk Hfirst.
  pose proof (JSFacts.indexOf_up_spec s pat 0) as Hspec.
  destruct (JS.indexOf_up s pat 0) as [k'|].
  - destruct Hspec as (_ & Hk' & Hfirst'). rewrite Nat.sub_0_r in *.
    f_equal. destruct (Nat.lt_trichotomy k' k) as [Hlt|[->|Hlt]]; [|done|].
    + by destruct (Hfirst k' Hlt).
    + rewrite (Hfirst' k Hlt) in Hk. discriminate.
  - rewrite Hspec in Hk. discriminate.
Qed.

Lemma indexOf_none s pat :
  (∀ j, ¬ occursAt s pat j) → JS.indexOf s pat = None.
Proof.
  unfold occursAt, JS.indexOf. intros Hnone.
  pose proof (JSFacts.indexOf_up_spec s pat 0) as Hspec.
  destruct (JS.indexOf_up s pat 0) as [k'|]; [|done].
  destruct Hspec as (_ & Hk' & _). by destruct (Hnone (k' - 0)).
Qed.

(** [replace] with a replacement free of dollars rewrites the first
    occurrence of the pattern. *)
Lemma replace_first pre pat post repl :
  noDollar repl = true →
  (∀ j, j < String.length pre → ¬ occursAt (pre +:+ pat +:+ post) pat j) →
  replace (pre +:+ pat +:+ post) pat repl = pre +:+ repl +:+ post.
Proof.
  intros Hrepl Hfirst. unfold replace.
  rewrite (indexOf_first _ _ (String.length pre)); [|unfold occursAt|done].
  - rewrite getSubstitution_literal by done.
    rewrite JSFacts.take_app_length.
    rewrite <- JSFacts.drop_drop, JSFacts.drop_app_length, JSFacts.drop_app_length. done.
  - rewrite JSFacts.drop_app_length. apply JSFacts.startsWith_app.
Qed.

(** [replace] rewrites the first occurrence of the pattern, by the
    replacement read as a pattern. *)
Lemma replace_pattern pre pat post repl :
  (∀ j, j < String.length pre → ¬ occursAt (pre +:+ pat +:+ post) pat j) →
  replace (pre +:+ pat +:+ post) pat repl
  = pre +:+ getSubstitution repl pat pre post +:+ post.
Proof.
  intros Hfirst. unfold replace.
  rewrite (indexOf_first _ _ (String.length pre)); [|unfold occursAt|done].
  - rewrite JSFacts.take_app_length.
    rewrite <- JSFacts.drop_drop, JSFacts.drop_app_length, JSFacts.drop_app_length. done.
  - rewrite JSFacts.drop_app_length. apply JSFacts.startsWith_app.
Qed.

Lemma replace_absent s pat repl :
  (∀ j, ¬ occursAt s pat j) → replace s pat repl = s.
Proof. intros Hnone. unfold replace. by rewrite indexOf_none. Qed.

Lemma noDollar_at : noDollar ASSISTANT_NAME = true → noDollar ("@" +:+ ASSISTANT_NAME) = true.
Proof. intros H. done. Qed.

(** The loop skips the entries that do not name the bot. *)
Lemma replaceMentions_filter bot ms content :
  replaceMentions ASSISTANT_NAME bot ms content
  = replaceMentions ASSISTANT_NAME bot (filter (botEntry bot) ms) content.
Proof.
  revert content. induction ms as [|mention ms IH]; intros content; [done|].
  cbn [replaceMentions]. rewrite filter_cons.
  destruct (decide (botEntry bot mention)) as [[Hid Hkey]|Hno].
  - cbn [replaceMentions]. rewrite !bool_decide_eq_true_2 by done. apply IH.
  - rewrite <- IH. case_bool_decide; [|done]. case_bool_decide; [|done]. by destruct Hno.
Qed.

Lemma filter_botEntry_others bot ms :
  Forall (λ mention, open_id mention ≠ Some bot) ms → filter (botEntry bot) ms = [].
Proof.
  induction 1 as [|mention ms Hne _ IH]; [done|].
  rewrite filter_cons, IH. destruct (decide (botEntry bot mention)) as [[? _]|]; done.
Qed.

End Mentions.

(** X29 — The content of a delivered message is the text of the event after
    mention normalisation.  For a message the bot wrote itself the text is
    passed through unchanged.  For any other message the mention list is gone
    through in order, and each entry whose [open_id] is the bot's own id, with
    a non-empty key, has the first occurrence of its key in the text, as a
    substring, replaced by [@<AssistantName>] read as a replacement pattern:
    by [@<AssistantName>] itself when the name holds no dollar sign.  Entries
    of other identities cause no replacement, so the result is that of the
    bot's entries alone and a message that mentions only others is left
    unchanged.  If the text has changed and does not match the trigger
    pattern, [@<AssistantName> ] is prepended, once.  In particular
    ['@_user_1 hello'] with a bot mention keyed ['@_user_1'] becomes
    ['@<AssistantName> hello'], with no second trigger prefix, for a name
    without a dollar sign that the trigger pattern matches. *)
Theorem mentions_normalized (ASSISTANT_NAME : string) (TRIGGER_PATTERN : string → bool) :
  let normalize := normalizeMentions ASSISTANT_NAME TRIGGER_PATTERN in
  let substitute := replaceMentions ASSISTANT_NAME in
  let tag := "@" +:+ ASSISTANT_NAME in
  (∀ now groups data w es jid msg,
     trace (handleIncomingMessage ASSISTANT_NAME TRIGGER_PATTERN now groups data w).2
     = trace w ++ es →
     onMessage jid msg ∈ es →
     ∃ m textContent,
       message data = Some m
       ∧ content m = TextField (Some textContent)
       ∧ Message.is_bot_message msg =
           bool_decide (is_Some (truthy (botOpenId (chan w)))
                        ∧ sender_open_id data = botOpenId (chan w))
       ∧ Message.content msg =
           normalize (botOpenId (chan w)) (Message.is_bot_message msg) (mentions m) textContent)
  ∧ (∀ bot ms t, normalize bot true ms t = t)
  ∧ (∀ bot ms t, bot ≠ "" →
       let c := substitute bot ms t in
       normalize (Some bot) false (Some ms) t =
         if decide (c ≠ t ∧ TRIGGER_PATTERN c = false) then tag +:+ " " +:+ c else c)
  ∧ (∀ bot mention ms pre post,
       botEntry bot mention →
       (∀ j, j < String.length pre → ¬ occursAt (pre +:+ key mention +:+ post) (key mention) j) →
       substitute bot (mention :: ms) (pre +:+ key mention +:+ post)
       = substitute bot ms (pre +:+ getSubstitution tag (key mention) pre post +:+ post))
  ∧ (noDollar ASSISTANT_NAME = true →
     ∀ matched before after, getSubstitution tag matched before after = tag)
  ∧ (∀ bot mention ms t,
       (∀ j, ¬ occursAt t (key mention) j) →
       substitute bot (mention :: ms) t = substitute bot ms t)
  ∧ (∀ bot ms t, substitute bot ms t = substitute bot (filter (botEntry bot) ms) t)
  ∧ (∀ bot ms t,
       Forall (λ mention, open_id mention ≠ Some bot) ms →
       normalize (Some bot) false (Some ms) t = t)
  ∧ (∀ bot, bot ≠ "" →
       noDollar ASSISTANT_NAME = true →
       TRIGGER_PATTERN (tag +:+ " hello") = true →
       normalize (Some bot) false
         (Some [{| key := "@_user_1"; open_id := Some bot; mention_name := None |}])
         "@_user_1 hello"
       = tag +:+ " hello").
Proof.
  cbn zeta. split_and!.
  - intros now groups data w es jid msg Htrace Hin.
    destruct (handle_spec ASSISTANT_NAME TRIGGER_PATTERN now groups data w _ eq_refl)
      as (es' & Hw' & Hes).
    rewrite Hw' in Htrace. cbn [trace] in Htrace. apply (inj (app (trace w))) in Htrace.
    subst es'.
    destruct Hes as [->|(m & chatId & textContent & ts & Hm & _ & _ & Hcontent & _ & _ & _ & _ & _ & Hes)];
      [by apply elem_of_nil in Hin|].
    cbn zeta in Hes. destruct Hes as [[-> _]|(msg' & -> & _ & Hmsg & Hbot)].
    + apply elem_of_cons in Hin as [?|Hin]; [done|].
      apply elem_of_cons in Hin as [?|Hin]; [done|]. by apply elem_of_nil in Hin.
    + apply elem_of_cons in Hin as [?|Hin]; [done|].
      apply elem_of_cons in Hin as [?|Hin]; [done|].
      apply list_elem_of_singleton in Hin. injection Hin as -> ->.
      by exists m, textContent.
  - done.
  - intros bot ms t Hbot. cbn zeta. unfold normalizeMentions.
    rewrite (truthy_nonempty _ Hbot).
    destruct (decide (replaceMentions ASSISTANT_NAME bot ms t ≠ t
                      ∧ TRIGGER_PATTERN (replaceMentions ASSISTANT_NAME bot ms t) = false))
      as [[Hchanged Hno]|Hno].
    + by rewrite bool_decide_eq_true_2, Hno.
    + case_bool_decide as Hchanged; [|done].
      destruct (TRIGGER_PATTERN _) eqn:Htrig; [done|]. by destruct Hno.
  - intros bot mention ms pre post [Hid Hkey] Hfirst. cbn [replaceMentions].
    rewrite !bool_decide_eq_true_2 by done. cbn [andb].
    by rewrite replace_pattern.
  - intros Hname matched before after.
    apply getSubstitution_literal. by apply noDollar_at.
  - intros bot mention ms t Habsent. cbn [replaceMentions].
    rewrite replace_absent by done. by destruct (_ && _).
  - apply replaceMentions_filter.
  - intros bot ms t Hothers. unfold normalizeMentions.
    assert (replaceMentions ASSISTANT_NAME bot ms t = t) as Hsame.
    { rewrite replaceMentions_filter.
      by rewrite filter_botEntry_others. }
    destruct (truthy (Some bot)) as [bot'|] eqn:Hbot.
    + apply truthy_Some in Hbot as [[= <-] _]. rewrite Hsame.
      by rewrite bool_decide_eq_false_2 by (by intros []).
    + by rewrite bool_decide_eq_false_2 by (by intros []).
  - intros bot Hbot Hname Htrig. unfold normalizeMentions.
    rewrite (truthy_nonempty _ Hbot). cbn [replaceMentions key open_id].
    rewrite (bool_decide_eq_true_2 (Some bot = Some bot)) by done.
    rewrite (bool_decide_eq_true_2 ("@_user_1" ≠ "")) by done. cbn [andb].
    assert (replace "@_user_1 hello" "@_user_1" ("@" +:+ ASSISTANT_NAME)
            = ("@" +:+ ASSISTANT_NAME) +:+ " hello") as ->.
    { apply (replace_first "" "@_user_1" " hello"); [by apply noDollar_at|simpl; lia]. }
    by rewrite Htrig, andb_false_r.
Qed.

Lemma mentions_normalized_witness :
  (TestConfig.BOT ≠ ""
   ∧ noDollar TestConfig.ASSISTANT_NAME = true
   ∧ TestConfig.TRIGGER_PATTERN "@Jonesy hello" = true)
  ∧ normalizeMentions TestConfig.ASSISTANT_NAME TestConfig.TRIGGER_PATTERN
      (Some TestConfig.BOT) false
      (Some [{| key := "@_user_1"; open_id := Some TestConfig.BOT; mention_name := None |}])
      "@_user_1 hello"
    = "@Jonesy hello".
Proof.
  split; [split_and!; [discriminate|reflexivity|reflexivity]|].
  destruct (mentions_normalized TestConfig.ASSISTANT_NAME TestConfig.TRIGGER_PATTERN)
    as (_ & _ & _ & _ & _ & _ & _ & _ & Hexample).
  apply (Hexample TestConfig.BOT); [discriminate|reflexivity|reflexivity].
Defined.

(** C4 — The handler is to replace the placeholder of each bot mention and
    leave the mentions of other identities unchanged.  It misses the case in
    which the key of a bot mention occurs inside the placeholder of another
    identity: it replaces the first occurrence of the key as a substring.
    With the bot mentioned as [@_user_1] and another user as [@_user_10], the
    text [cc @_user_10 and @_user_1] is delivered with the other user's
    placeholder rewritten and the bot's own left in place. *)
Lemma other_mention_rewritten :
  let ms := Some [{| key := "@_user_1"; open_id := Some TestConfig.BOT; mention_name := None |};
                  {| key := "@_user_10"; open_id := Some "ou_OTHER_USER";
                     mention_name := None |}] in
  let data := TestConfig.createMessageData "om_1" "text"
                (TextField (Some "cc @_user_10 and @_user_1")) ms "ou_USER_456" in
  let delivered := "@Jonesy cc @Jonesy0 and @_user_1" in
  TestConfig.deliveredContent
    (handleIncomingMessage TestConfig.ASSISTANT_NAME TestConfig.TRIGGER_PATTERN 5%Z
       TestConfig.groups data TestConfig.connectedWorld).2
  = [delivered]
  ∧ JS.indexOf "cc @_user_10 and @_user_1" "@_user_10" = Some 3
  ∧ JS.indexOf delivered "@_user_10" = None
  ∧ JS.indexOf delivered "@_user_1" = Some 24.
Proof. cbn zeta. split_and!; vm_compute; reflexivity. Qed.


(** ** The test suite of the channel, replayed on the model *)

Module Replay.
Import TestConfig.

Abbreviation handle := (handleIncomingMessage ASSISTANT_NAME TRIGGER_PATTERN).

Abbreviation hello := (TextField (Some "Hello everyone")).

(** splitMarkdown: 'splits at paragraph boundary (double newline)'. *)
Example splits_at_paragraph :
  splitMarkdown ("para1" +:+ JS.LF +:+ JS.LF +:+ "para2" +:+ JS.LF +:+ JS.LF +:+ "para3") 12
  = Some ["para1" +:+ JS.LF +:+ JS.LF +:+ "para2"; "para3"].
Proof. reflexivity. Qed.

(** splitMarkdown: 'splits at single newline when no paragraph boundary'. *)
Example splits_at_line :
  splitMarkdown ("line1" +:+ JS.LF +:+ "line2" +:+ JS.LF +:+ "line3") 11
  = Some ["line1" +:+ JS.LF +:+ "line2"; "line3"].
Proof. reflexivity. Qed.

(** splitMarkdown: 'hard-cuts when no newline within limit'. *)
Example hard_cuts :
  splitMarkdown (JS.repeat "A" 20) 8 = Some [JS.repeat "A" 8; JS.repeat "A" 8; JS.repeat "A" 4].
Proof. reflexivity. Qed.

(** splitMarkdown: 'returns empty array content for empty string'. *)
Example splits_empty : splitMarkdown "" 100 = Some [""].
Proof. reflexivity. Qed.

(** 'splits messages into 3 when over 8000 chars'. *)
Example splits_in_three :
  length <$> splitMarkdown (JS.repeat "C" (4250 + 4250)) 4000 = Some 3.
Proof. vm_compute. reflexivity. Qed.

(** 'delivers message for registered group'. *)
Example delivers_for_registered :
  isOnMessage <$> trace (handle 0%Z groups (createMessageData "om_1" "text" hello None "ou_USER_456")
                           connectedWorld).2
  = [false; false; true].
Proof. vm_compute. reflexivity. Qed.

(** 'only emits metadata for unregistered groups'. *)
Example metadata_only_for_unregistered :
  trace (handle 0%Z groups
           (createMessageDataIn "oc_unregistered" "group" "om_1" "text" hello None "ou_USER_456")
           connectedWorld).2
  = [onChatMetadata "lark:oc_unregistered" 1704067200000%Z None "lark" true; registeredGroups].
Proof. vm_compute. reflexivity. Qed.

(** 'identifies p2p chat as non-group'. *)
Example p2p_is_not_a_group :
  trace (handle 0%Z groups
           (createMessageDataIn "oc_dm" "p2p" "om_1" "text" hello None "ou_USER_456")
           connectedWorld).2
  = [onChatMetadata "lark:oc_dm" 1704067200000%Z None "lark" false; registeredGroups].
Proof. vm_compute. reflexivity. Qed.

(** 'skips non-text message types': neither callback is called. *)
Example skips_non_text :
  trace (handle 0%Z groups (createMessageData "om_1" "image" hello None "ou_USER_456")
           connectedWorld).2 = [].
Proof. vm_compute. reflexivity. Qed.

(** 'skips messages with no content text' and 'with invalid JSON content'. *)
Example skips_empty_and_invalid :
  trace (handle 0%Z groups (createMessageData "om_1" "text" (TextField (Some "")) None "ou_USER_456")
           connectedWorld).2 = []
  ∧ trace (handle 0%Z groups (createMessageData "om_1" "text" Unparseable None "ou_USER_456")
             connectedWorld).2 = [].
Proof. split; vm_compute; reflexivity. Qed.

(** 'deduplicates messages by message_id'. *)
Example deduplicates :
  let data := createMessageData "om_dup_001" "text" hello None "ou_USER_456" in
  length (filter (λ e, isOnMessage e = true)
            (trace (handle 1%Z groups data (handle 0%Z groups data connectedWorld).2).2)) = 1.
Proof. vm_compute. reflexivity. Qed.

(** 'replaces bot mention placeholder with trigger name'. *)
Example translates_bot_mention :
  deliveredContent
    (handle 0%Z groups
       (createMessageData "om_1" "text" (TextField (Some "Hey @_user_1 what do you think?"))
          (mentionOf BOT) "ou_USER_456") connectedWorld).2
  = ["@Jonesy Hey @Jonesy what do you think?"].
Proof. vm_compute. reflexivity. Qed.

(** 'does not translate mentions for other users'. *)
Example keeps_other_mentions :
  deliveredContent
    (handle 0%Z groups
       (createMessageData "om_1" "text" (TextField (Some "@_user_1 look at this"))
          (mentionOf "ou_OTHER_USER") "ou_USER_456") connectedWorld).2
  = ["@_user_1 look at this"].
Proof. vm_compute. reflexivity. Qed.

(** 'does not translate mentions in bot messages'. *)
Example keeps_bot_messages :
  deliveredContent
    (handle 0%Z groups
       (createMessageData "om_1" "text" (TextField (Some "@_user_1 echo")) (mentionOf BOT) BOT)
       connectedWorld).2
  = ["@_user_1 echo"].
Proof. vm_compute. reflexivity. Qed.

(** 'does not prepend trigger when trigger pattern already matches'. *)
Example no_second_trigger :
  deliveredContent
    (handle 0%Z groups
       (createMessageData "om_1" "text" (TextField (Some "@_user_1 hello")) (mentionOf BOT)
          "ou_USER_456") connectedWorld).2
  = ["@Jonesy hello"].
Proof. vm_compute. reflexivity. Qed.

(** 'queues message when disconnected'. *)
Example queues_when_disconnected :
  sendMessage reliable "lark:oc_test123" "Queued message" None newWorld
  = (Returned tt,
     {| chan := set_outgoingQueue
                  [{| item_jid := "lark:oc_test123"; item_text := "Queued message" |}] newChannel;
        trace := [] |}).
Proof. reflexivity. Qed.

(** 'queues message when both send attempts fail'. *)
Example queues_when_both_fail :
  let r := sendMessage unreachable "lark:oc_test123" "Will fail" None connectedWorld in
  r.1 = Returned tt
  ∧ trace r.2 = [message_create "oc_test123" Post "Will fail";
                 message_create "oc_test123" Text "Will fail"]
  ∧ outgoingQueue (chan r.2) = [{| item_jid := "lark:oc_test123"; item_text := "Will fail" |}].
Proof. vm_compute. done. Qed.

(** 'retries as single unsplit message on send failure'. *)
Example retries_as_text :
  trace (sendMessage failsOnce "lark:oc_test123" "Retry message" None connectedWorld).2
  = [message_create "oc_test123" Post "Retry message";
     message_create "oc_test123" Text "Retry message"].
Proof. vm_compute. reflexivity. Qed.

(** 'replies first chunk and creates subsequent chunks for long messages'. *)
Example replies_first_chunk_only :
  trace (sendMessage reliable "lark:oc_test123" (JS.repeat "A" 4500)
           (Some {| replyToMessageId := Some "om_trigger_msg_002"; mentionUser := None |})
           connectedWorld).2
  = [message_reply "om_trigger_msg_002" Post (JS.repeat "A" 4000);
     message_create "oc_test123" Post (JS.repeat "A" 500)].
Proof. vm_compute. reflexivity. Qed.

(** 'flushes queued messages on connect'. *)
Example flushes_on_connect :
  let w := (sendMessage reliable "lark:oc_test123" "Second queued" None
              (sendMessage reliable "lark:oc_test123" "First queued" None newWorld).2).2 in
  trace w = []
  ∧ trace (connect reliable true (Some (Some BOT)) chatList storeName 1 w).2
    = [message_create "oc_test123" Post "First queued";
       message_create "oc_test123" Post "Second queued"].
Proof. vm_compute. done. Qed.

(** 'owns lark: JIDs' and 'does not own WhatsApp group JIDs'. *)
Example owns_lark_jids :
  ownsJid "lark:oc_test123" = true ∧ ownsJid "12345@g.us" = false.
Proof. done. Qed.

End Replay.
(** ** The renderer *)

Section Renderer.

Lemma spanUntil_split stop s run rest :
  spanUntil stop s = (run, rest) → s = run +:+ rest.
Proof.
  revert run rest. induction s as [|c s IH]; intros run rest; simpl.
  - by intros [= <- <-].
  - destruct (stop c); [by intros [= <- <-]|].
    destruct (spanUntil stop s) as [run' rest']. intros [= <- <-].
    rewrite JSFacts.app_cons. f_equal. by apply IH.
Qed.

(** A run taken over characters none of which stops it is the whole string. *)
Lemma spanUntil_all stop s :
  allChars (λ c, negb (stop c)) s = true → spanUntil stop s = (s, "").
Proof.
  induction s as [|c s IH]; simpl; [done|].
  intros [Hc Hs]%andb_true_iff. apply negb_true_iff in Hc. rewrite Hc.
  by rewrite IH.
Qed.

(** A run stops in front of the first character that stops it. *)
Lemma spanUntil_app stop run c rest :
  allChars (λ c, negb (stop c)) run = true → stop c = true →
  spanUntil stop (run +:+ String c rest) = (run, String c rest).
Proof.
  intros Hrun Hc. induction run as [|d run IH].
  - rewrite JSFacts.app_nil_l. simpl. by rewrite Hc.
  - simpl in Hrun. apply andb_true_iff in Hrun as [Hd Hrun]. apply negb_true_iff in Hd.
    rewrite JSFacts.app_cons. simpl. rewrite Hd. by rewrite IH.
Qed.

Lemma expect_split literal s rest :
  expect literal s = Some rest → s = literal +:+ rest.
Proof.
  unfold expect. destruct (JS.startsWith s literal) eqn:Hs; [|done].
  intros [= <-]. by apply JSFacts.startsWith_split.
Qed.

Lemma expect_None_head literal c s :
  JS.startsWith (String c s) literal = false → expect literal (String c s) = None.
Proof. unfold expect. by intros ->. Qed.

Lemma run1_split stop s run rest :
  run1 stop s = Some (run, rest) → s = run +:+ rest ∧ run ≠ "".
Proof.
  unfold run1. destruct (spanUntil stop s) as [run' rest'] eqn:Hspan.
  case_bool_decide; [done|]. intros [= <- <-]. split; [by apply (spanUntil_split stop)|done].
Qed.

Lemma lazyUntilStars_split s run rest :
  lazyUntilStars s = Some (run, rest) → s = run +:+ "**" +:+ rest ∧ run ≠ "".
Proof.
  revert run rest. induction s as [|c s IH]; intros run rest; simpl; [done|].
  destruct (isLineTerminator c); [done|].
  destruct (JS.startsWith s "**") eqn:Hs.
  - intros [= <- <-]. split; [|done].
    rewrite JSFacts.app_cons, JSFacts.app_nil_l. f_equal. by apply JSFacts.startsWith_split.
  - destruct (lazyUntilStars s) as [[run' rest']|]; [|done]. simpl.
    intros [= <- <-]. destruct (IH run' rest' eq_refl) as [-> _].
    split; [by rewrite JSFacts.app_cons|done].
Qed.

Lemma length_nonempty s : s ≠ "" → 0 < String.length s.
Proof. destruct s; [done|simpl; lia]. Qed.

(** One step of the loop: the markup of the element pushed and the new
    remainder make up the old remainder, and the remainder gets shorter. *)
Lemma parseStep_spec remaining element rest :
  remaining ≠ "" →
  parseStep remaining = (element, rest) →
  remaining = sourceOf element +:+ rest
  ∧ String.length rest < String.length remaining.
Proof.
  intros Hne Hstep.
  assert (remaining = sourceOf element +:+ rest ∧ sourceOf element ≠ "") as [Hsplit Hsrc].
  { revert Hstep. unfold parseStep.
    destruct (matchAt remaining) as [[[userId userName] rest']|] eqn:HAt.
    { intros [= <- <-]. split; [|done]. revert HAt. unfold matchAt.
      destruct (expect _ remaining) as [s1|] eqn:H1; [|done]. cbn [mbind option_bind].
      destruct (run1 _ s1) as [[uid s2]|] eqn:H2; [|done]. cbn [mbind option_bind].
      destruct (expect _ s2) as [s3|] eqn:H3; [|done]. cbn [mbind option_bind].
      destruct (spanUntil _ s3) as [uname s4] eqn:H4.
      destruct (expect _ s4) as [s5|] eqn:H5; [|done]. cbn [mbind option_bind].
      intros [= <- <- <-].
      apply expect_split in H1, H3, H5. apply run1_split in H2 as [H2 _].
      apply spanUntil_split in H4. subst. cbn [sourceOf].
      by rewrite !JSFacts.app_assoc. }
    destruct (matchLink remaining) as [[[text href] rest']|] eqn:HLink.
    { intros [= <- <-]. split; [|done]. revert HLink. unfold matchLink.
      destruct (expect _ remaining) as [s1|] eqn:H1; [|done]. cbn [mbind option_bind].
      destruct (run1 _ s1) as [[t s2]|] eqn:H2; [|done]. cbn [mbind option_bind].
      destruct (expect _ s2) as [s3|] eqn:H3; [|done]. cbn [mbind option_bind].
      destruct (run1 _ s3) as [[h s4]|] eqn:H4; [|done]. cbn [mbind option_bind].
      destruct (expect _ s4) as [s5|] eqn:H5; [|done]. cbn [mbind option_bind].
      intros [= <- <- <-].
      apply expect_split in H1, H3, H5. apply run1_split in H2 as [H2 _], H4 as [H4 _].
      subst. cbn [sourceOf]. by rewrite !JSFacts.app_assoc. }
    destruct (matchCode remaining) as [[text rest']|] eqn:HCode.
    { intros [= <- <-]. split; [|done]. revert HCode. unfold matchCode.
      destruct (expect _ remaining) as [s1|] eqn:H1; [|done]. cbn [mbind option_bind].
      destruct (run1 _ s1) as [[t s2]|] eqn:H2; [|done]. cbn [mbind option_bind].
      destruct (expect _ s2) as [s3|] eqn:H3; [|done]. cbn [mbind option_bind].
      intros [= <- <-].
      apply expect_split in H1, H3. apply run1_split in H2 as [H2 _].
      subst. cbn [sourceOf]. by rewrite !JSFacts.app_assoc. }
    destruct (matchBold remaining) as [[text rest']|] eqn:HBold.
    { intros [= <- <-]. split; [|done]. revert HBold. unfold matchBold.
      destruct (expect _ remaining) as [s1|] eqn:H1; [|done]. cbn [mbind option_bind].
      intros [H2 _]%lazyUntilStars_split. apply expect_split in H1.
      subst. cbn [sourceOf]. by rewrite !JSFacts.app_assoc. }
    destruct (matchItalic remaining) as [[text rest']|] eqn:HItalic.
    { intros [= <- <-]. split; [|done]. revert HItalic. unfold matchItalic.
      destruct (expect _ remaining) as [s1|] eqn:H1; [|done]. cbn [mbind option_bind].
      destruct (run1 _ s1) as [[t s2]|] eqn:H2; [|done]. cbn [mbind option_bind].
      destruct (expect _ s2) as [s3|] eqn:H3; [|done]. cbn [mbind option_bind].
      intros [= <- <-].
      apply expect_split in H1, H3. apply run1_split in H2 as [H2 _].
      subst. cbn [sourceOf]. by rewrite !JSFacts.app_assoc. }
    destruct (matchPlain remaining) as [[text rest']|] eqn:HPlain.
    { intros [= <- <-]. by apply run1_split in HPlain as [-> ?]. }
    intros [= <- <-]. by destruct remaining. }
  split; [done|].
  apply (f_equal String.length) in Hsplit. rewrite JSFacts.length_app in Hsplit.
  pose proof (length_nonempty _ Hsrc). lia.
Qed.

Lemma concatStrings_cons part parts :
  concatStrings (part :: parts) = part +:+ concatStrings parts.
Proof. reflexivity. Qed.

Lemma concatStrings_app parts1 parts2 :
  concatStrings (parts1 ++ parts2) = concatStrings parts1 +:+ concatStrings parts2.
Proof.
  induction parts1 as [|p parts1 IH]; [done|].
  cbn [app]. by rewrite !concatStrings_cons, IH, JSFacts.app_assoc.
Qed.

(** The loop returns once its fuel exceeds the length of the remainder; the
    markup of the elements it adds makes up the remainder, and a non-empty
    remainder adds at least one element. *)
Lemma parseLoop_returns fuel : ∀ elements remaining,
  String.length remaining < fuel →
  ∃ added, parseLoop fuel elements remaining = Some (elements ++ added)
           ∧ concatStrings (sourceOf <$> added) = remaining
           ∧ (remaining ≠ "" → added ≠ []).
Proof.
  induction fuel as [|fuel IH]; intros elements remaining Hfuel; [lia|].
  cbn [parseLoop]. case_bool_decide as Hempty.
  - exists []. rewrite app_nil_r. destruct remaining; [done|simpl in Hempty; lia].
  - assert (remaining ≠ "") as Hne by (by intros ->).
    destruct (parseStep remaining) as [element rest] eqn:Hstep.
    destruct (parseStep_spec _ _ _ Hne Hstep) as [Hsplit Hshort].
    destruct (IH (elements ++ [element]) rest) as (added & -> & Hsrc & _); [lia|].
    exists (element :: added). split_and!; [by rewrite <- (assoc_L (++))| |done].
    by rewrite fmap_cons, concatStrings_cons, Hsrc.
Qed.

Lemma parseLoop_fuel_mono fuel fuel' elements remaining result :
  parseLoop fuel elements remaining = Some result → fuel ≤ fuel' →
  parseLoop fuel' elements remaining = Some result.
Proof.
  revert fuel' elements remaining.
  induction fuel as [|fuel IH]; intros fuel' elements remaining Hrun Hle; [done|].
  destruct fuel' as [|fuel']; [lia|]. cbn [parseLoop] in *.
  case_bool_decide; [done|]. destruct (parseStep remaining) as [element rest].
  apply IH; [done|lia].
Qed.

Lemma parseLineToElements_returns line :
  ∃ elements, parseLineToElements line = Some elements
              ∧ concatStrings (sourceOf <$> elements) = line
              ∧ (line ≠ "" → elements ≠ []).
Proof.
  destruct (parseLoop_returns (S (String.length line)) [] line) as (els & Hrun & ?); [lia|].
  by exists els.
Qed.

End Renderer.

(** X1 — [parseLineToElements] returns for every line, with any fuel beyond
    the length of the line, and loses nothing: the markup of the elements it
    returns, put end to end, is the line. *)
Theorem parseLineToElements_lossless (line : string) :
  ∃ elements,
    parseLineToElements line = Some elements
    ∧ (∀ fuel, String.length line < fuel → parseLoop fuel [] line = Some elements)
    ∧ concatStrings (sourceOf <$> elements) = line.
Proof.
  destruct (parseLineToElements_returns line) as (els & Hrun & Hsrc & _).
  exists els. split_and!; [done| |done].
  intros fuel Hfuel. eapply parseLoop_fuel_mono; [exact Hrun|lia].
Qed.

Section RendererLines.

Lemma startsWith_head_ne c s d literal :
  c ≠ d → JS.startsWith (String c s) (String d literal) = false.
Proof. intros Hne. simpl. by rewrite decide_False by (by intros ->). Qed.

Lemma isSpecial_false c :
  isSpecial c = false →
  c ≠ "*"%char ∧ c ≠ "`"%char ∧ c ≠ "["%char ∧ c ≠ "<"%char.
Proof.
  unfold isSpecial. intros H.
  repeat (apply orb_false_iff in H as [H ?]).
  repeat match goal with H : bool_decide _ = false |- _ => apply bool_decide_eq_false in H end.
  done.
Qed.

(** A non-empty line without a star, a backtick, an opening bracket or a
    less-than sign is consumed whole by the plain pattern. *)
Lemma parseStep_plain line :
  line ≠ "" → allChars (λ c, negb (isSpecial c)) line = true →
  parseStep line = (ElText line None, "").
Proof.
  intros Hne Hplain. destruct line as [|c s]; [done|].
  assert (isSpecial c = false) as Hc.
  { simpl in Hplain. apply andb_true_iff in Hplain as [Hc _]. by apply negb_true_iff in Hc. }
  apply isSpecial_false in Hc as (Hstar & Htick & Hbracket & Hlt).
  unfold parseStep, matchAt, matchLink, matchCode, matchBold, matchItalic, matchPlain, expect.
  change ("<at user_id=" +:+ JS.DQ) with (String "<" ("at user_id=" +:+ JS.DQ)).
  rewrite (startsWith_head_ne c s "<") by done.
  rewrite (startsWith_head_ne c s "[") by done.
  rewrite (startsWith_head_ne c s "`") by done.
  rewrite (startsWith_head_ne c s "*" "*") by done.
  rewrite (startsWith_head_ne c s "*" "") by done.
  cbn [mbind option_bind]. unfold run1. rewrite spanUntil_all by done.
  by rewrite bool_decide_eq_false_2.
Qed.

Lemma length_split sep s : length (split sep s) = S (countChar sep s).
Proof.
  induction s as [|c s IH]; [done|]. cbn [split countChar].
  destruct (decide (c = sep)); simpl; [by rewrite IH|].
  destruct (split sep s); simpl in *; lia.
Qed.


(** Lines without the separator, joined by it, split back into themselves. *)
Lemma split_join sep line lines :
  allChars (λ c, negb (bool_decide (c = sep))) line = true →
  split sep (line +:+ String sep "" +:+ lines) = line :: split sep lines.
Proof.
  induction line as [|c line IH]; intros Hline.
  - rewrite JSFacts.app_nil_l, JSFacts.app_cons, JSFacts.app_nil_l.
    cbn [split]. by rewrite decide_True.
  - cbn [allChars] in Hline. apply andb_true_iff in Hline as [Hc Hline].
    apply negb_true_iff, bool_decide_eq_false in Hc.
    rewrite JSFacts.app_cons. cbn [split]. rewrite decide_False by done.
    by rewrite IH.
Qed.

Lemma isFence_empty : isFence "" = false.
Proof. done. Qed.

Lemma headingMatch_empty : headingMatch "" = None.
Proof. done. Qed.

(** Every line gives one block, a blank line the block of an empty span. *)
Lemma renderLines_blocks lines : ∀ inCodeBlock content,
  ∃ blocks, renderLines inCodeBlock content lines = Some (content ++ blocks)
            ∧ length blocks = length lines
            ∧ ∀ i, lines !! i = Some "" → blocks !! i = Some [ElText "" None].
Proof.
  induction lines as [|line lines IH]; intros inCodeBlock content.
  - exists []. by rewrite app_nil_r.
  - assert (∀ inCode block,
              (line = "" → block = [ElText "" None]) →
              ∃ blocks, renderLines inCode (content ++ [block]) lines = Some (content ++ blocks)
                        ∧ length blocks = length (line :: lines)
                        ∧ ∀ i, (line :: lines) !! i = Some "" → blocks !! i = Some [ElText "" None])
      as Hpush.
    { intros inCode block Hblank.
      destruct (IH inCode (content ++ [block])) as (blocks & -> & Hlen & Hblanks).
      exists (block :: blocks). split_and!; [by rewrite <- (assoc_L (++))|simpl; lia|].
      intros [|i]; simpl; [intros [= ->]; by rewrite Hblank|apply Hblanks]. }
    cbn [renderLines].
    destruct (JS.startsWith (skipWhiteSpace line) "```") eqn:Hfence.
    { apply Hpush. by intros ->. }
    destruct inCodeBlock; [apply Hpush; by intros ->|].
    destruct (headingMatch line) as [title|] eqn:Hheading.
    { destruct (parseLineToElements_returns title) as (els & -> & _). cbn [mbind option_bind].
      apply Hpush. intros ->. by rewrite headingMatch_empty in Hheading. }
    case_bool_decide as Hblank.
    { apply Hpush. done. }
    assert (line ≠ "") as Hne by (by intros ->).
    destruct (parseLineToElements_returns line) as (els & -> & _ & Hsome).
    cbn [mbind option_bind].
    rewrite bool_decide_eq_true_2
      by (specialize (Hsome Hne); destruct els; [done|simpl; lia]).
    apply Hpush. done.
Qed.

(** Inside a code block, lines that are not fences are emitted as they are. *)
Lemma renderLines_in_code body : ∀ content rest,
  Forall (λ line, isFence line = false) body →
  renderLines true content (body ++ rest)
  = renderLines true (content ++ (rawBlock <$> body)) rest.
Proof.
  induction body as [|line body IH]; intros content rest Hbody.
  - by rewrite app_nil_r.
  - apply Forall_cons in Hbody as [Hline Hbody]. unfold isFence in Hline.
    cbn [app renderLines]. rewrite Hline, IH by done.
    by rewrite fmap_cons, <- (assoc_L (++)).
Qed.




Lemma allChars_app p s t : allChars p (s +:+ t) = allChars p s && allChars p t.
Proof.
  induction s as [|c s IH]; [done|].
  rewrite JSFacts.app_cons. cbn [allChars]. by rewrite IH, andb_assoc.
Qed.

Lemma allChars_impl (p q : ascii → bool) s :
  (∀ c, p c = true → q c = true) → allChars p s = true → allChars q s = true.
Proof.
  intros Hpq. induction s as [|c s IH]; [done|]. cbn [allChars].
  intros [Hc Hs]%andb_true_iff. apply andb_true_iff. split; [by apply Hpq|by apply IH].
Qed.



End RendererLines.

(** X2 — A non-empty line without a star, a backtick, an opening bracket or a
    less-than sign is rendered as one unstyled text span holding the line. *)
Theorem plain_line_is_one_span (line : string) :
  line ≠ "" →
  allChars (λ c, negb (isSpecial c)) line = true →
  parseLineToElements line = Some [ElText line None].
Proof.
  intros Hne Hplain. unfold parseLineToElements. cbn [parseLoop].
  rewrite bool_decide_eq_false_2 by (destruct line; [done|simpl; lia]).
  rewrite parseStep_plain by done.
  destruct line as [|c s]; [done|]. by cbn [String.length parseLoop].
Qed.

Lemma plain_line_is_one_span_witness :
  ("Hello world" ≠ "" ∧ allChars (λ c, negb (isSpecial c)) "Hello world" = true)
  ∧ parseLineToElements "Hello world" = Some [ElText "Hello world" None].
Proof.
  split; [split; [discriminate|reflexivity]|].
  apply (plain_line_is_one_span "Hello world"); [discriminate|reflexivity].
Defined.

(** X3 — [markdownToPostContent] returns for every text, with the same blocks
    under both locales and exactly one block per line of the text: one more
    than there are line feeds.  No line is dropped, and a blank line gives the
    block of one empty text span. *)
Theorem one_block_per_line (text : string) :
  ∃ content,
    markdownToPostContent text = Some {| zh_cn := content; en_us := content |}
    ∧ length content = S (countChar "010" text)
    ∧ ∀ i, split "010" text !! i = Some "" → content !! i = Some [ElText "" None].
Proof.
  unfold markdownToPostContent.
  destruct (renderLines_blocks (split "010" text) false []) as (blocks & -> & Hlen & Hblank).
  exists blocks. cbn [mbind option_bind app]. split_and!; [done| |done].
  by rewrite Hlen, length_split.
Qed.

(** X4 — A fenced code block is kept as it is: when the lines of a text are an
    opening fence, lines that are not fences, and then either nothing or a
    closing fence, every line, fences included, gives one unstyled text span
    holding the line, with no markdown read inside. *)
Theorem fenced_block_is_raw (text opening : string) (body closing : list string) :
  split "010" text = opening :: body ++ closing →
  isFence opening = true →
  Forall (λ line, isFence line = false) body →
  closing = [] ∨ (∃ fence, closing = [fence] ∧ isFence fence = true) →
  ∃ content,
    markdownToPostContent text = Some {| zh_cn := content; en_us := content |}
    ∧ content = rawBlock <$> (opening :: body ++ closing).
Proof.
  intros Hlines Hopen Hbody Hclosing. unfold markdownToPostContent. rewrite Hlines.
  cbn [renderLines]. unfold isFence in Hopen. rewrite Hopen. cbn [negb app].
  rewrite renderLines_in_code by done.
  destruct Hclosing as [->|(fence & -> & Hfence)].
  - cbn [renderLines mbind option_bind]. eexists. split; [done|].
    by rewrite app_nil_r.
  - unfold isFence in Hfence. cbn [renderLines]. rewrite Hfence.
    cbn [mbind option_bind]. eexists. split; [done|].
    by rewrite fmap_cons, fmap_app, <- (assoc_L (++)).
Qed.

Lemma fenced_block_is_raw_witness :
  let text := "```python" +:+ JS.LF +:+ "x = **1**" +:+ JS.LF +:+ "```" in
  (split "010" text = "```python" :: ["x = **1**"] ++ ["```"]
   ∧ isFence "```python" = true
   ∧ Forall (λ line, isFence line = false) ["x = **1**"])
  ∧ ∃ content,
      markdownToPostContent text = Some {| zh_cn := content; en_us := content |}
      ∧ content = rawBlock <$> ("```python" :: ["x = **1**"] ++ ["```"]).
Proof.
  cbn zeta. split; [split_and!; [reflexivity|reflexivity|by repeat constructor]|].
  apply (fenced_block_is_raw _ "```python" ["x = **1**"] ["```"]);
    [reflexivity|reflexivity|by repeat constructor|].
  right. by exists "```".
Defined.



(** ** The handler, field by field *)

Section Delivery.
Variable ASSISTANT_NAME : string.
Variable TRIGGER_PATTERN : string → bool.
Variable platform : list Effect → Effect → bool.

Abbreviation handle' := (handleIncomingMessage ASSISTANT_NAME TRIGGER_PATTERN).

(** An accepted event, in full: the id is recorded, the metadata goes out,
    the registry is asked, and the message is handed over if the chat is
    registered. *)
Lemma handle_accepted now groups data w m chatId textContent :
  accepted (seenMessages (chan w)) now data m chatId textContent →
  handle' now groups data w =
    (Returned tt,
     {| chan := set_seenMessages (seenAfter now data (seenMessages (chan w))) (chan w);
        trace := trace w ++ metadataOf now m chatId :: registeredGroups ::
                   match groups !! ("lark:" +:+ chatId) with
                   | Some _ =>
                     [onMessage ("lark:" +:+ chatId)
                        (deliveredMessage ASSISTANT_NAME TRIGGER_PATTERN (chan w) now data m
                           chatId textContent)]
                   | None => []
                   end |}).
Proof.
  intros [(Hm & Htype & Hcontent & Hne & Hchat & Hrange) Hhas].
  unfold handleIncomingMessage, seenAfter. rewrite Hm. cbn [mbind option_bind].
  unfold_M. rewrite Hhas.
  rewrite (bool_decide_eq_false_2 (message_type m ≠ Some "text")) by (by intros []).
  rewrite Hcontent, (truthy_nonempty _ Hne), Hchat.
  unfold toISOString. rewrite (bool_decide_eq_true_2 _ Hrange). unfold_M.
  destruct w as [c t]. cbn [chan trace] in *. unfold deliveredMessage, metadataOf.
  destruct (truthy (message_id m)) as [mid|] eqn:Hid;
    rewrite ?Hhas, ?set_seenMessages_id; cbn [fst snd trace chan];
    destruct (groups !! ("lark:" +:+ chatId)); cbn [fst snd trace chan];
    rewrite <- ?(assoc_L (++)); reflexivity.
Qed.

(** What the handler does depends on the channel's fields only: the trace is
    appended to. *)
Lemma handle_frame now groups data c t :
  handle' now groups data {| chan := c; trace := t |} =
    let r := handle' now groups data {| chan := c; trace := [] |} in
    (r.1, {| chan := chan r.2; trace := t ++ trace r.2 |}).
Proof.
  cbn zeta. unfold handleIncomingMessage.
  destruct (message data) as [m|]; [|unfold_M; by rewrite app_nil_r].
  unfold_M.
  destruct (has (seenMessages c) (truthy (message_id m))); [by rewrite app_nil_r|].
  destruct (truthy (message_id m)) as [mid|]; cbn [fst snd trace chan].
  all: case_bool_decide; [by rewrite app_nil_r|].
  all: destruct (content m) as [|textField]; [by rewrite app_nil_r|].
  all: destruct (truthy textField); [|by rewrite app_nil_r].
  all: destruct (truthy (chat_id m)); [|by rewrite app_nil_r].
  all: unfold toISOString;
    destruct (decide (- MAX_TIME_VALUE ≤ numberOr (parseInt10 (create_time m)) now
                      ≤ MAX_TIME_VALUE)%Z) as [Hrange|Hrange];
    [rewrite (bool_decide_eq_true_2 _ Hrange)
    |rewrite (bool_decide_eq_false_2 _ Hrange); unfold_M; by rewrite app_nil_r].
  all: unfold_M.
  all: destruct (groups !! _); cbn [fst snd trace chan];
    rewrite <- ?(assoc_L (++)); reflexivity.
Qed.

Lemma chunkCalls_plain chatId chunks : ∀ i,
  chunkCalls chatId None None i chunks = message_create chatId Post <$> chunks.
Proof. induction chunks as [|chunk chunks IH]; intros i; [done|]. cbn. by rewrite IH. Qed.

Lemma stripLarkPrefix_jid chatId : stripLarkPrefix ("lark:" +:+ chatId) = chatId.
Proof.
  unfold stripLarkPrefix. rewrite JSFacts.startsWith_app.
  apply (JSFacts.drop_app_length "lark:").
Qed.

Lemma ownsJid_jid chatId : ownsJid ("lark:" +:+ chatId) = true.
Proof. apply JSFacts.startsWith_app. Qed.

End Delivery.

(** X6 — The JID the handler hands out for an event is the event's chat id
    behind the prefix [lark:]: the channel owns it, the message carries it,
    and every platform call of a [sendMessage] to it, rich or plain, whatever
    the platform answers, is a create addressed to that chat id. *)
Theorem reply_goes_to_event_chat
    (ASSISTANT_NAME : string) (TRIGGER_PATTERN : string → bool)
    (platform : list Effect → Effect → bool)
    (now : Z) (groups : gmap string RegisteredGroup.t) (data : LarkEvent) (w : World)
    (m : LarkMessage) (chatId textContent : string) :
  accepted (seenMessages (chan w)) now data m chatId textContent →
  let jid := "lark:" +:+ chatId in
  (∃ later,
     trace (handleIncomingMessage ASSISTANT_NAME TRIGGER_PATTERN now groups data w).2
     = trace w ++ metadataOf now m chatId :: registeredGroups :: later
     ∧ ∀ j msg, onMessage j msg ∈ later → j = jid ∧ Message.chat_jid msg = jid)
  ∧ ownsJid jid = true
  ∧ stripLarkPrefix jid = chatId
  ∧ ∀ w' text,
      connected (chan w') = true →
      ∃ calls,
        trace (sendMessage platform jid text None w').2 = trace w' ++ calls
        ∧ calls ≠ []
        ∧ Forall (λ e, ∃ msgType body, e = message_create chatId msgType body) calls.
Proof.
  intros Hacc. cbn zeta. split_and!.
  - rewrite (handle_accepted _ _ _ _ _ _ _ _ _ Hacc). cbn [snd trace].
    eexists. split; [done|]. intros j msg Hin.
    destruct (groups !! ("lark:" +:+ chatId)); [|by apply elem_of_nil in Hin].
    apply list_elem_of_singleton in Hin. by injection Hin as -> ->.
  - apply ownsJid_jid.
  - apply stripLarkPrefix_jid.
  - intros w' text Hconn. rewrite sendMessage_unfold, Hconn. unfold_M.
    rewrite _sendDirect_perform. cbn [mbind option_bind].
    rewrite stripLarkPrefix_jid, chunkCalls_plain.
    pose proof (perform_spec platform (trace w') (message_create chatId Post <$> chunksOf text))
      as Hspec.
    destruct (chunksOf_spec text) as (first & rest & Hchunks & _).
    destruct (perform platform (trace w') _) as [made ok] eqn:Hperform.
    destruct Hspec as (Hprefix & Hall & Hfail & _).
    assert (Forall (λ e, ∃ msgType body, e = message_create chatId msgType body) made)
      as Hmade.
    { destruct Hprefix as [k Hk]. apply (Forall_app _ made k). rewrite <- Hk.
      apply Forall_fmap, Forall_forall. intros chunk _. by eexists _, _. }
    destruct ok.
    + exists made. cbn [snd trace]. split_and!; [done| |done].
      rewrite (Hall eq_refl), Hchunks. done.
    + destruct (Hfail eq_refl) as (before & e & -> & _).
      unfold platformCall. cbn [trace chan].
      assert (fallbackCall ("lark:" +:+ chatId) text None = message_create chatId Text text)
        as Hfb by (unfold fallbackCall; cbn [mbind option_bind truthy]; by rewrite stripLarkPrefix_jid).
      rewrite Hfb.
      exists ((before ++ [e]) ++ [message_create chatId Text text]).
      split_and!.
      * destruct (platform _ _); cbn [snd trace]; by rewrite <- !(assoc_L (++)).
      * by destruct before.
      * apply Forall_app. split; [done|]. constructor; [by eexists _, _|done].
Qed.

Lemma reply_goes_to_event_chat_witness :
  let data := TestConfig.createMessageData "om_1" "text" (TextField (Some "Hello")) None
                "ou_USER_456" in
  (∃ m, accepted (seenMessages (chan TestConfig.connectedWorld)) 5%Z data m "oc_test123" "Hello")
  ∧ ownsJid "lark:oc_test123" = true
  ∧ ∃ calls,
      trace (sendMessage TestConfig.unreachable "lark:oc_test123" "Hi" None
               TestConfig.connectedWorld).2
      = trace TestConfig.connectedWorld ++ calls
      ∧ calls ≠ []
      ∧ Forall (λ e, ∃ msgType body, e = message_create "oc_test123" msgType body) calls.
Proof.
  cbn zeta.
  assert (accepted (seenMessages (chan TestConfig.connectedWorld)) 5%Z
            (TestConfig.createMessageData "om_1" "text" (TextField (Some "Hello")) None
               "ou_USER_456")
            {| message_id := Some "om_1"; message_type := Some "text";
               content := TextField (Some "Hello"); chat_id := Some "oc_test123";
               chat_type := Some "group"; create_time := Some "1704067200000";
               mentions := None |} "oc_test123" "Hello") as Hacc.
  { split; [|vm_compute; reflexivity].
    split_and!; try reflexivity; try discriminate; vm_compute; discriminate. }
  split; [by eexists|].
  destruct (reply_goes_to_event_chat TestConfig.ASSISTANT_NAME TestConfig.TRIGGER_PATTERN
              TestConfig.unreachable 5%Z TestConfig.groups _ _ _ _ _ Hacc)
    as (_ & Howns & _ & Hsend).
  split; [exact Howns|].
  apply (Hsend TestConfig.connectedWorld "Hi"). reflexivity.
Defined.

(** ** The life cycle: flags, sweeps, flushes *)

Section Lifecycle.
Variable ASSISTANT_NAME : string.
Variable TRIGGER_PATTERN : string → bool.
Variable platform : list Effect → Effect → bool.

Abbreviation run := (runTask ASSISTANT_NAME TRIGGER_PATTERN platform).
Abbreviation runs := (runTasks ASSISTANT_NAME TRIGGER_PATTERN platform).

(** A flush changes the queue and nothing else of the channel, the guard
    included: the [finally] resets it on both ways out. *)
Lemma flushOutgoingQueue_chan w :
  ∃ q', chan (flushOutgoingQueue platform w).2 = set_outgoingQueue q' (chan w).
Proof.
  destruct (flushing (chan w)) eqn:Hfl.
  - exists (outgoingQueue (chan w)). unfold flushOutgoingQueue. unfold_M. rewrite Hfl.
    by rewrite set_outgoingQueue_id.
  - pose proof (flushOutgoingQueue_perform platform w Hfl) as Hflush.
    destruct (perform platform (trace w) _) as [made ok].
    destruct Hflush as (q' & -> & _). by exists q'.
Qed.

Lemma sendMessage_chan jid text opts w :
  ∃ q', chan (sendMessage platform jid text opts w).2 = set_outgoingQueue q' (chan w).
Proof.
  rewrite sendMessage_unfold. destruct (connected (chan w)).
  - unfold_M. rewrite _sendDirect_perform.
    destruct (perform platform (trace w) _) as [made [|]];
      [exists (outgoingQueue (chan w)); by rewrite set_outgoingQueue_id|].
    unfold platformCall. cbn [trace chan].
    destruct (platform (trace w ++ made) (fallbackCall jid text opts)); cbn [snd chan].
    + exists (outgoingQueue (chan w)). by rewrite set_outgoingQueue_id.
    + by eexists.
  - unfold_M. by eexists.
Qed.

Lemma connect_flags listening botInfo list_ updateChatName fuel w :
  let w' := (connect platform listening botInfo list_ updateChatName fuel w).2 in
  dedupTimer (chan w') = dedupTimer (chan w) ∧ flushing (chan w') = flushing (chan w).
Proof.
  cbn zeta. destruct listening; [|done]. rewrite connect_run. cbn zeta.
  match goal with |- context [flushOutgoingQueue platform ?w1] =>
    destruct (flushOutgoingQueue_chan w1) as [q' Hchan];
    destruct (flushOutgoingQueue platform w1) as [[[]| |] w2]
  end; cbn [snd chan] in *; rewrite Hchan; by destruct botInfo, (chan w).
Qed.

(** Every method leaves the flush guard as it found it. *)
Lemma runTask_flushing task w :
  flushing (chan (run task w).2) = flushing (chan w).
Proof.
  destruct task as [now groups data|now|jid text opts|l b li up fu|]; cbn [runTask].
  - destruct (handle_spec ASSISTANT_NAME TRIGGER_PATTERN now groups data w _ eq_refl)
      as (es & -> & _). by destruct (chan w).
  - unfold cleanupDedup. unfold_M. destruct (dedupTimer (chan w)); [|done].
    by destruct (chan w).
  - destruct (sendMessage_chan jid text opts w) as [q' ->]. by destruct (chan w).
  - apply connect_flags.
  - unfold disconnect. unfold_M. by destruct (chan w).
Qed.

(** Once the sweep timer is cleared nothing arms it again, and the dedup map
    loses nothing. *)
Lemma runTask_timer_off task w :
  dedupTimer (chan w) = false →
  dedupTimer (chan (run task w).2) = false
  ∧ ∀ mid ts, seenMessages (chan w) !! mid = Some ts →
              seenMessages (chan (run task w).2) !! mid = Some ts.
Proof.
  intros Hoff. destruct task as [now groups data|now|jid text opts|l b li up fu|]; cbn [runTask].
  - split.
    + destruct (handle_spec ASSISTANT_NAME TRIGGER_PATTERN now groups data w _ eq_refl)
        as (es & -> & _). by destruct (chan w).
    + intros mid ts Hmid. rewrite handle_seen. by apply seenAfter_preserves.
  - unfold_M. by rewrite Hoff.
  - split; [|intros mid ts Hmid; by rewrite sendMessage_seen].
    destruct (sendMessage_chan jid text opts w) as [q' ->]. by destruct (chan w).
  - split; [|intros mid ts Hmid; by rewrite connect_seen].
    by rewrite (proj1 (connect_flags l b li up fu w)).
  - unfold disconnect. unfold_M. by destruct (chan w).
Qed.

Lemma runTasks_timer_off tasks : ∀ w,
  dedupTimer (chan w) = false →
  dedupTimer (chan (runs tasks w)) = false
  ∧ ∀ mid ts, seenMessages (chan w) !! mid = Some ts →
              seenMessages (chan (runs tasks w)) !! mid = Some ts.
Proof.
  induction tasks as [|task tasks IH]; intros w Hoff; [done|].
  cbn [runTasks foldl].
  destruct (runTask_timer_off task w Hoff) as [Hoff' Hkeep].
  destruct (IH _ Hoff') as [Hoff'' Hkeep'].
  split; [done|]. intros mid ts Hmid. by apply Hkeep', Hkeep.
Qed.

Lemma runTasks_flushing tasks : ∀ w,
  flushing (chan (runs tasks w)) = flushing (chan w).
Proof.
  induction tasks as [|task tasks IH]; intros w; [done|].
  cbn [runTasks foldl]. etrans; [apply IH|]. apply runTask_flushing.
Qed.

Lemma sweptBy_no_sweep bound tasks :
  Forall (λ task, isSweep task = false) tasks → Forall (sweptBy bound) tasks.
Proof. intros Hno. eapply Forall_impl; [exact Hno|]. by intros []. Qed.

(** A flush that fails, item by item: the items before the failing one are
    sent, the failing one is off the queue, the ones behind it stay. *)
Lemma flushLoop_failure q : ∀ fuel w made,
  outgoingQueue (chan w) = q →
  length q < fuel →
  perform platform (trace w) (flushCalls q) = (made, false) →
  ∃ sent item rest madeItem,
    q = sent ++ item :: rest
    ∧ made = flushCalls sent ++ madeItem
    ∧ perform platform (trace w) (flushCalls sent) = (flushCalls sent, true)
    ∧ perform platform (trace w ++ flushCalls sent) (itemCalls item) = (madeItem, false)
    ∧ flushLoop platform fuel w =
        (Thrown PlatformError,
         {| chan := set_outgoingQueue rest (chan w); trace := trace w ++ made |}).
Proof.
  induction q as [|item q IH]; intros fuel w made Hq Hfuel Hperform; [done|].
  destruct fuel as [|fuel]; [simpl in Hfuel; lia|].
  assert (flushCalls (item :: q) = itemCalls item ++ flushCalls q) as Hcalls by done.
  rewrite Hcalls, perform_app in Hperform.
  cbn [flushLoop]. unfold mbind at 1, M_bind at 1, getChan at 1. rewrite Hq.
  unfold mbind at 1, M_bind at 1, putChan at 1.
  unfold mbind at 1, M_bind at 1. rewrite _sendDirect_perform. cbn [trace chan].
  fold (itemCalls item).
  pose proof (perform_spec platform (trace w) (itemCalls item)) as Hspec.
  destruct (perform platform (trace w) (itemCalls item)) as [made1 [|]] eqn:Hitem.
  - destruct Hspec as (_ & Hall & _). specialize (Hall eq_refl). subst made1.
    specialize (IH fuel
      {| chan := set_outgoingQueue q (chan w); trace := trace w ++ itemCalls item |}).
    cbn [trace chan] in IH.
    destruct (perform platform (trace w ++ itemCalls item) (flushCalls q))
      as [made2 ok2] eqn:Hrest.
    injection Hperform as <- ->.
    destruct (IH made2) as (sent & item' & rest & madeItem & -> & -> & Hsent & Hfail & ->);
      [done|simpl in Hfuel; lia|done|].
    exists (item :: sent), item', rest, madeItem.
    assert (flushCalls (item :: sent) = itemCalls item ++ flushCalls sent) as Hcons by done.
    rewrite Hcons. split_and!;
      [done|by rewrite (assoc_L (++))| |by rewrite (assoc_L (++))|].
    + by rewrite perform_app, Hitem, Hsent.
    + rewrite <- !(assoc_L (++)). by destruct (chan w).
  - injection Hperform as <-. exists [], item, q, made1.
    cbn [flushCalls mbind list_bind app]. rewrite app_nil_r. split_and!; done.
Qed.

End Lifecycle.

(** X7 — An event without a message id is never deduplicated: handling it
    leaves the channel's fields as they are, so the same event handled again
    gets the same callbacks again.  The message handed over then takes its id
    from the creation time, or is given the empty id. *)
Theorem events_without_id_not_deduplicated
    (ASSISTANT_NAME : string) (TRIGGER_PATTERN : string → bool)
    (now : Z) (groups : gmap string RegisteredGroup.t) (data : LarkEvent) (w : World)
    (m : LarkMessage) :
  message data = Some m →
  truthy (message_id m) = None →
  let r1 := handleIncomingMessage ASSISTANT_NAME TRIGGER_PATTERN now groups data w in
  let r2 := handleIncomingMessage ASSISTANT_NAME TRIGGER_PATTERN now groups data r1.2 in
  chan r1.2 = chan w
  ∧ r2.1 = r1.1
  ∧ ∃ es, trace r1.2 = trace w ++ es
          ∧ trace r2.2 = trace w ++ es ++ es
          ∧ ∀ j msg, onMessage j msg ∈ es →
                     Message.id msg = default "" (truthy (create_time m)).
Proof.
  intros Hm Hid. cbn zeta. destruct w as [c t].
  rewrite (handle_frame _ _ now groups data c t). cbn zeta. cbn [fst snd chan trace].
  pose proof (handle_spec ASSISTANT_NAME TRIGGER_PATTERN now groups data
                {| chan := c; trace := [] |} _ eq_refl) as (es & Hr0 & Hes).
  assert (seenAfter now data (seenMessages c) = seenMessages c) as Hsame.
  { unfold seenAfter. rewrite Hm. cbn [mbind option_bind]. by rewrite Hid. }
  cbn [chan trace app] in Hr0. rewrite Hsame, set_seenMessages_id in Hr0.
  rewrite Hr0. cbn [chan trace].
  rewrite (handle_frame _ _ now groups data c (t ++ es)). cbn zeta. rewrite Hr0.
  cbn [fst snd chan trace]. split_and!; [done|done|].
  exists es. split_and!; [done|by rewrite (assoc_L (++))|].
  intros j msg Hin.
  destruct Hes as [->|(m' & chatId & textContent & ts & Hm' & Hhas & Htype & Hcontent & Hne
                        & Hchat & -> & Hrange & _)]; [by apply elem_of_nil in Hin|].
  assert (m' = m) as -> by congruence.
  assert (accepted (seenMessages c) now data m chatId textContent) as Hacc by done.
  pose proof (handle_accepted ASSISTANT_NAME TRIGGER_PATTERN now groups data
                {| chan := c; trace := [] |} m chatId textContent Hacc) as Heq.
  rewrite Heq in Hr0. cbn [snd chan trace app] in Hr0. injection Hr0 as _ <-.
  rewrite !elem_of_cons in Hin. destruct Hin as [?|[?|Hin]]; [done|done|].
  destruct (groups !! ("lark:" +:+ chatId)); [|by apply elem_of_nil in Hin].
  apply list_elem_of_singleton in Hin. injection Hin as _ ->.
  unfold deliveredMessage. cbn [Message.id]. by rewrite Hid.
Qed.

Lemma events_without_id_not_deduplicated_witness :
  let m := {| message_id := None; message_type := Some "text";
              content := TextField (Some "Hello"); chat_id := Some "oc_test123";
              chat_type := Some "group"; create_time := Some "1704067200000";
              mentions := None |} in
  let data := {| message := Some m; sender_open_id := Some "ou_USER_456" |} in
  let r1 := handleIncomingMessage TestConfig.ASSISTANT_NAME TestConfig.TRIGGER_PATTERN 5%Z
              TestConfig.groups data TestConfig.connectedWorld in
  let r2 := handleIncomingMessage TestConfig.ASSISTANT_NAME TestConfig.TRIGGER_PATTERN 5%Z
              TestConfig.groups data r1.2 in
  truthy (message_id m) = None
  ∧ chan r1.2 = chan TestConfig.connectedWorld
  ∧ r2.1 = r1.1
  ∧ ∃ es, trace r1.2 = trace TestConfig.connectedWorld ++ es
          ∧ trace r2.2 = trace TestConfig.connectedWorld ++ es ++ es
          ∧ ∀ j msg, onMessage j msg ∈ es →
                     Message.id msg = default "" (truthy (create_time m)).
Proof.
  cbn zeta. split; [reflexivity|].
  apply (events_without_id_not_deduplicated TestConfig.ASSISTANT_NAME
           TestConfig.TRIGGER_PATTERN 5%Z TestConfig.groups
           {| message := Some {| message_id := None; message_type := Some "text";
                                 content := TextField (Some "Hello");
                                 chat_id := Some "oc_test123"; chat_type := Some "group";
                                 create_time := Some "1704067200000"; mentions := None |};
              sender_open_id := Some "ou_USER_456" |}
           TestConfig.connectedWorld _ eq_refl eq_refl).
Defined.

(** X8 — The age of a recorded id is looked at by the sweep only, not when
    an event comes in: as long as no sweep runs, an event whose id is on
    record is dropped with no callback and no change of state, however late it
    arrives and whatever else the channel did in between. *)
Theorem duplicate_dropped_until_swept
    (ASSISTANT_NAME : string) (TRIGGER_PATTERN : string → bool)
    (platform : list Effect → Effect → bool)
    (tasks : list Task) (w : World) (mid : string) (ts now : Z)
    (groups : gmap string RegisteredGroup.t) (data : LarkEvent) :
  seenMessages (chan w) !! mid = Some ts →
  message data ≫= (λ m, truthy (message_id m)) = Some mid →
  Forall (λ task, isSweep task = false) tasks →
  let w' := runTasks ASSISTANT_NAME TRIGGER_PATTERN platform tasks w in
  seenMessages (chan w') !! mid = Some ts
  ∧ handleIncomingMessage ASSISTANT_NAME TRIGGER_PATTERN now groups data w' = (Returned tt, w').
Proof.
  intros Hmid Hdata Hno. cbn zeta.
  assert (seenMessages (chan (runTasks ASSISTANT_NAME TRIGGER_PATTERN platform tasks w)) !! mid
          = Some ts) as Hkept.
  { apply runTasks_keeps with ts; [done|unfold DEDUP_TTL_MS; lia|].
    by apply sweptBy_no_sweep. }
  split; [done|]. apply handle_duplicate with mid; [done|by eexists].
Qed.

Lemma duplicate_dropped_until_swept_witness :
  let data := TestConfig.createMessageData "om_1" "text" (TextField (Some "Hello")) None
                "ou_USER_456" in
  let w := (handleIncomingMessage TestConfig.ASSISTANT_NAME TestConfig.TRIGGER_PATTERN 0%Z
              TestConfig.groups data TestConfig.connectedWorld).2 in
  let tasks := [Send "lark:oc_test123" "Hi" None; Disconnect;
                Connect true (Some (Some TestConfig.BOT)) TestConfig.chatList TestConfig.storeName 1] in
  let w' := runTasks TestConfig.ASSISTANT_NAME TestConfig.TRIGGER_PATTERN TestConfig.reliable
              tasks w in
  seenMessages (chan w) !! "om_1" = Some 0%Z
  ∧ seenMessages (chan w') !! "om_1" = Some 0%Z
  ∧ handleIncomingMessage TestConfig.ASSISTANT_NAME TestConfig.TRIGGER_PATTERN
      (1000 * DEDUP_TTL_MS)%Z TestConfig.groups data w' = (Returned tt, w').
Proof.
  cbn zeta. split; [vm_compute; reflexivity|].
  apply (duplicate_dropped_until_swept TestConfig.ASSISTANT_NAME TestConfig.TRIGGER_PATTERN
           TestConfig.reliable
           [Send "lark:oc_test123" "Hi" None; Disconnect;
            Connect true (Some (Some TestConfig.BOT)) TestConfig.chatList TestConfig.storeName 1]).
  - vm_compute. reflexivity.
  - reflexivity.
  - repeat constructor.
Defined.

(** X9 — [disconnect()] clears the sweep timer and nothing arms it again,
    not even a later [connect()]: after a disconnect the dedup map keeps every
    id it holds through every later task, sweeps included, and an event with
    such an id is dropped whenever it arrives. *)
Theorem no_sweep_after_disconnect
    (ASSISTANT_NAME : string) (TRIGGER_PATTERN : string → bool)
    (platform : list Effect → Effect → bool)
    (tasks : list Task) (w0 : World) (mid : string) (ts now : Z)
    (groups : gmap string RegisteredGroup.t) (data : LarkEvent) :
  seenMessages (chan w0) !! mid = Some ts →
  message data ≫= (λ m, truthy (message_id m)) = Some mid →
  let w := runTasks ASSISTANT_NAME TRIGGER_PATTERN platform tasks (disconnect w0).2 in
  dedupTimer (chan w) = false
  ∧ seenMessages (chan w) !! mid = Some ts
  ∧ handleIncomingMessage ASSISTANT_NAME TRIGGER_PATTERN now groups data w = (Returned tt, w).
Proof.
  intros Hmid Hdata. cbn zeta.
  assert (dedupTimer (chan (disconnect w0).2) = false) as Hoff
    by (unfold disconnect; unfold_M; by destruct (chan w0)).
  assert (seenMessages (chan (disconnect w0).2) !! mid = Some ts) as Hmid'
    by (unfold disconnect; unfold_M; by destruct (chan w0)).
  destruct (runTasks_timer_off ASSISTANT_NAME TRIGGER_PATTERN platform tasks _ Hoff)
    as [Hoff' Hkeep].
  split_and!; [done|by apply Hkeep|].
  apply handle_duplicate with mid; [done|]. exists ts. by apply Hkeep.
Qed.

Lemma no_sweep_after_disconnect_witness :
  let data := TestConfig.createMessageData "om_1" "text" (TextField (Some "Hello")) None
                "ou_USER_456" in
  let w0 := (handleIncomingMessage TestConfig.ASSISTANT_NAME TestConfig.TRIGGER_PATTERN 0%Z
               TestConfig.groups data TestConfig.connectedWorld).2 in
  let tasks := [Connect true (Some (Some TestConfig.BOT)) TestConfig.chatList TestConfig.storeName 1; Sweep (1000 * DEDUP_TTL_MS)%Z] in
  let w := runTasks TestConfig.ASSISTANT_NAME TestConfig.TRIGGER_PATTERN TestConfig.reliable
             tasks (disconnect w0).2 in
  seenMessages (chan w0) !! "om_1" = Some 0%Z
  ∧ dedupTimer (chan w) = false
  ∧ seenMessages (chan w) !! "om_1" = Some 0%Z
  ∧ handleIncomingMessage TestConfig.ASSISTANT_NAME TestConfig.TRIGGER_PATTERN
      (1000 * DEDUP_TTL_MS + 1)%Z TestConfig.groups data w = (Returned tt, w).
Proof.
  cbn zeta. split; [vm_compute; reflexivity|].
  apply (no_sweep_after_disconnect TestConfig.ASSISTANT_NAME TestConfig.TRIGGER_PATTERN
           TestConfig.reliable
           [Connect true (Some (Some TestConfig.BOT)) TestConfig.chatList TestConfig.storeName 1; Sweep (1000 * DEDUP_TTL_MS)%Z]).
  - vm_compute. reflexivity.
  - reflexivity.
Defined.

(** X10 — A sweep removes exactly the ids recorded more than ten minutes
    before it and touches nothing else; an event that carries a removed id is
    then handled as a new one: its metadata goes out and the id is recorded
    again, with the time of the new arrival. *)
Theorem expired_id_is_handled_again
    (ASSISTANT_NAME : string) (TRIGGER_PATTERN : string → bool)
    (now : Z) (w : World) (mid : string) (ts now' : Z)
    (groups : gmap string RegisteredGroup.t) (data : LarkEvent)
    (m : LarkMessage) (chatId textContent : string) :
  seenMessages (chan w) !! mid = Some ts →
  (now - ts > DEDUP_TTL_MS)%Z →
  truthy (message_id m) = Some mid →
  deliverable now' data m chatId textContent →
  let w' := (cleanupDedup now w).2 in
  let r := handleIncomingMessage ASSISTANT_NAME TRIGGER_PATTERN now' groups data w' in
  seenMessages (chan w') !! mid = None
  ∧ (∀ k t, seenMessages (chan w') !! k = Some t
            ↔ seenMessages (chan w) !! k = Some t ∧ (now - t ≤ DEDUP_TTL_MS)%Z)
  ∧ w' = {| chan := set_seenMessages (seenMessages (chan w')) (chan w); trace := trace w |}
  ∧ r.1 = Returned tt
  ∧ (∃ later, trace r.2 = trace w ++ metadataOf now' m chatId :: registeredGroups :: later)
  ∧ seenMessages (chan r.2) !! mid = Some now'.
Proof.
  intros Hmid Hold Hid Hdel. cbn zeta.
  assert (∀ k t, seenMessages (chan (cleanupDedup now w).2) !! k = Some t
                 ↔ seenMessages (chan w) !! k = Some t ∧ (now - t ≤ DEDUP_TTL_MS)%Z) as Hsweep.
  { intros k t. unfold cleanupDedup. unfold_M. cbn [set_seenMessages seenMessages].
    rewrite map_lookup_filter_Some. cbn. split; intros [? ?]; split; [done|lia|done|lia]. }
  assert (seenMessages (chan (cleanupDedup now w).2) !! mid = None) as Hgone.
  { destruct (seenMessages (chan (cleanupDedup now w).2) !! mid) as [t|] eqn:Hk; [|done].
    apply Hsweep in Hk as [Hk ?]. assert (t = ts) as -> by congruence. lia. }
  assert (accepted (seenMessages (chan (cleanupDedup now w).2)) now' data m chatId textContent)
    as Hacc.
  { split; [done|]. rewrite Hid. cbn [has]. apply bool_decide_eq_false_2.
    rewrite Hgone. by intros [? ?]. }
  rewrite (handle_accepted ASSISTANT_NAME TRIGGER_PATTERN _ groups _ _ _ _ _ Hacc).
  cbn [fst snd chan trace]. split_and!; [done|done| |done| |].
  - unfold cleanupDedup. unfold_M. by destruct (chan w).
  - eexists. reflexivity.
  - destruct Hdel as (Hm & _).
    assert (seenMessages (set_seenMessages
              (seenAfter now' data (seenMessages (chan (cleanupDedup now w).2)))
              (chan (cleanupDedup now w).2))
            = seenAfter now' data (seenMessages (chan (cleanupDedup now w).2))) as ->
      by (by destruct (chan (cleanupDedup now w).2)).
    destruct (seenAfter_records now' data (seenMessages (chan (cleanupDedup now w).2)) mid)
      as (t & Ht & Hnew).
    { rewrite Hm. cbn [mbind option_bind]. done. }
    rewrite Ht. f_equal. by apply Hnew.
Qed.

Lemma expired_id_is_handled_again_witness :
  let m := {| message_id := Some "om_1"; message_type := Some "text";
              content := TextField (Some "Hello"); chat_id := Some "oc_test123";
              chat_type := Some "group"; create_time := Some "1704067200000";
              mentions := None |} in
  let data := {| message := Some m; sender_open_id := Some "ou_USER_456" |} in
  let w := (handleIncomingMessage TestConfig.ASSISTANT_NAME TestConfig.TRIGGER_PATTERN 0%Z
              TestConfig.groups data TestConfig.connectedWorld).2 in
  let now := (DEDUP_TTL_MS + 1)%Z in
  let w' := (cleanupDedup now w).2 in
  let r := handleIncomingMessage TestConfig.ASSISTANT_NAME TestConfig.TRIGGER_PATTERN
             (now + 1)%Z TestConfig.groups data w' in
  (seenMessages (chan w) !! "om_1" = Some 0%Z
   ∧ (now - 0 > DEDUP_TTL_MS)%Z
   ∧ deliverable (now + 1)%Z data m "oc_test123" "Hello")
  ∧ seenMessages (chan w') !! "om_1" = None
  ∧ (∃ later, trace r.2 = trace w ++ metadataOf (now + 1)%Z m "oc_test123"
                            :: registeredGroups :: later)
  ∧ seenMessages (chan r.2) !! "om_1" = Some (now + 1)%Z.
Proof.
  cbn zeta.
  set (m := {| message_id := Some "om_1"; message_type := Some "text";
               content := TextField (Some "Hello"); chat_id := Some "oc_test123";
               chat_type := Some "group"; create_time := Some "1704067200000";
               mentions := None |}).
  set (data := {| message := Some m; sender_open_id := Some "ou_USER_456" |}).
  set (w := (handleIncomingMessage TestConfig.ASSISTANT_NAME TestConfig.TRIGGER_PATTERN 0%Z
               TestConfig.groups data TestConfig.connectedWorld).2).
  assert (deliverable (DEDUP_TTL_MS + 1 + 1)%Z data m "oc_test123" "Hello") as Hdel.
  { unfold deliverable. split_and!; [reflexivity|reflexivity|reflexivity|discriminate
      |reflexivity|vm_compute; discriminate|vm_compute; discriminate]. }
  assert (DEDUP_TTL_MS + 1 - 0 > DEDUP_TTL_MS)%Z as Hold by lia.
  assert (seenMessages (chan w) !! "om_1" = Some 0%Z) as Hseen by (vm_compute; reflexivity).
  split; [split_and!; [exact Hseen|exact Hold|exact Hdel]|].
  destruct (expired_id_is_handled_again TestConfig.ASSISTANT_NAME TestConfig.TRIGGER_PATTERN
              (DEDUP_TTL_MS + 1)%Z w "om_1" 0%Z (DEDUP_TTL_MS + 1 + 1)%Z TestConfig.groups
              data m "oc_test123" "Hello" Hseen Hold eq_refl Hdel)
    as (Hgone & _ & _ & _ & Hmeta & Hrec).
  split_and!; [exact Hgone|exact Hmeta|exact Hrec].
Defined.

(** X11 — The flush guard is released on every way out of a flush: when a
    send fails and [flushOutgoingQueue] throws, the [finally] still resets
    [flushing].  So every method leaves the guard as it found it, and between
    the tasks of any run of a new channel it is down. *)
Theorem flush_guard_released
    (ASSISTANT_NAME : string) (TRIGGER_PATTERN : string → bool)
    (platform : list Effect → Effect → bool) (tasks : list Task) (w : World) :
  flushing (chan (flushOutgoingQueue platform w).2) = flushing (chan w)
  ∧ flushing (chan (runTasks ASSISTANT_NAME TRIGGER_PATTERN platform tasks w))
    = flushing (chan w)
  ∧ flushing (chan (runTasks ASSISTANT_NAME TRIGGER_PATTERN platform tasks newWorld)) = false.
Proof.
  split_and!.
  - destruct (flushOutgoingQueue_chan platform w) as [q' ->]. by destruct (chan w).
  - apply runTasks_flushing.
  - by rewrite runTasks_flushing.
Qed.

(** X12 — A flush in which a send fails loses the item it was sending: the
    items before it have been sent in full, the failing item has been taken
    off the queue before its send and is not put back, and the queue is left
    with the items behind it.  The flush throws; the calls made for the
    failing item are some of its calls, the last of which failed. *)
Theorem failed_flush_drops_item
    (platform : list Effect → Effect → bool) (w : World) :
  flushing (chan w) = false →
  (perform platform (trace w) (flushCalls (outgoingQueue (chan w)))).2 = false →
  ∃ sent item rest before e,
    outgoingQueue (chan w) = sent ++ item :: rest
    ∧ flushOutgoingQueue platform w =
        (Thrown PlatformError,
         {| chan := set_outgoingQueue rest (chan w);
            trace := trace w ++ flushCalls sent ++ before ++ [e] |})
    ∧ before ++ [e] `prefix_of` itemCalls item
    ∧ platform (trace w ++ flushCalls sent ++ before) e = false.
Proof.
  intros Hfl Hfail. unfold flushOutgoingQueue.
  unfold mbind at 1, M_bind at 1, getChan at 1. rewrite Hfl. cbn [orb].
  destruct (outgoingQueue (chan w)) as [|item0 q0] eqn:Hq; [done|].
  rewrite bool_decide_eq_false_2 by done. rewrite <- Hq in *. unfold_M.
  set (w1 := {| chan := set_flushing true (chan w); trace := trace w |}).
  destruct (perform platform (trace w) (flushCalls (outgoingQueue (chan w))))
    as [made ok] eqn:Hperform. cbn [snd] in Hfail. subst ok.
  destruct (flushLoop_failure platform (outgoingQueue (chan w))
              (S (length (outgoingQueue (chan w)))) w1 made)
    as (sent & item & rest & madeItem & Hsplit & -> & Hsent & Hitem & Hrun);
    [by destruct (chan w)|lia|done|].
  pose proof (perform_spec platform (trace w1 ++ flushCalls sent) (itemCalls item)) as Hspec.
  rewrite Hitem in Hspec. destruct Hspec as (Hprefix & _ & Hlast & _).
  destruct (Hlast eq_refl) as (before & e & -> & He).
  exists sent, item, rest, before, e. split_and!; [done| |done|].
  - fold w1. rewrite Hrun. cbn [fst snd chan trace w1]. clear -Hfl.
    destruct w as [[] ?]. cbn in *. by subst.
  - by rewrite <- (assoc_L (++)) in He.
Qed.

Lemma failed_flush_drops_item_witness :
  let first := {| item_jid := "lark:oc_test123"; item_text := "First queued" |} in
  let second := {| item_jid := "lark:oc_test123"; item_text := "Second queued" |} in
  let w := {| chan := set_outgoingQueue [first; second] (set_connected true newChannel);
              trace := [] |} in
  (perform TestConfig.failsOnce (trace w) (flushCalls (outgoingQueue (chan w)))).2 = false
  ∧ ∃ sent item rest before e,
      outgoingQueue (chan w) = sent ++ item :: rest
      ∧ flushOutgoingQueue TestConfig.failsOnce w =
          (Thrown PlatformError,
           {| chan := set_outgoingQueue rest (chan w);
              trace := trace w ++ flushCalls sent ++ before ++ [e] |})
      ∧ before ++ [e] `prefix_of` itemCalls item
      ∧ TestConfig.failsOnce (trace w ++ flushCalls sent ++ before) e = false.
Proof.
  cbn zeta. split; [vm_compute; reflexivity|].
  apply (failed_flush_drops_item TestConfig.failsOnce
           {| chan := set_outgoingQueue
                        [{| item_jid := "lark:oc_test123"; item_text := "First queued" |};
                         {| item_jid := "lark:oc_test123"; item_text := "Second queued" |}]
                        (set_connected true newChannel);
              trace := [] |}); vm_compute; reflexivity.
Defined.

(** X13 — A message is taken for the bot's own exactly when the channel
    knows a non-empty bot id and the sender carries it.  The two flags of the
    message always agree; a bot message goes out under the assistant's name
    with its text untouched, any other under the sender's id, or [unknown];
    and a channel that does not know its bot id marks nothing as its own and
    rewrites no mention. *)
Theorem self_message_detection
    (ASSISTANT_NAME : string) (TRIGGER_PATTERN : string → bool)
    (now : Z) (groups : gmap string RegisteredGroup.t) (data : LarkEvent) (w : World)
    (m : LarkMessage) (chatId textContent : string) :
  accepted (seenMessages (chan w)) now data m chatId textContent →
  is_Some (groups !! ("lark:" +:+ chatId)) →
  ∃ msg,
    trace (handleIncomingMessage ASSISTANT_NAME TRIGGER_PATTERN now groups data w).2
    = trace w ++ [metadataOf now m chatId; registeredGroups;
                  onMessage ("lark:" +:+ chatId) msg]
    ∧ Message.is_bot_message msg = Message.is_from_me msg
    ∧ (Message.is_from_me msg = true
       ↔ ∃ bot, bot ≠ "" ∧ botOpenId (chan w) = Some bot ∧ sender_open_id data = Some bot)
    ∧ (Message.is_from_me msg = true →
       Message.sender_name msg = ASSISTANT_NAME ∧ Message.content msg = textContent)
    ∧ (Message.is_from_me msg = false →
       Message.sender_name msg = default "unknown" (truthy (sender_open_id data)))
    ∧ (truthy (botOpenId (chan w)) = None →
       Message.is_from_me msg = false ∧ Message.content msg = textContent).
Proof.
  intros Hacc [g Hg].
  rewrite (handle_accepted ASSISTANT_NAME TRIGGER_PATTERN _ groups _ _ _ _ _ Hacc), Hg.
  eexists. split; [reflexivity|]. unfold deliveredMessage.
  cbn [Message.is_bot_message Message.is_from_me Message.sender_name Message.content].
  split_and!.
  - done.
  - rewrite bool_decide_eq_true. split.
    + intros [[bot Hbot] Hsender]. apply truthy_Some in Hbot as [Hbot Hne].
      exists bot. by rewrite Hsender.
    + intros (bot & Hne & Hbot & Hsender). rewrite Hbot, Hsender.
      split; [|done]. exists bot. by apply truthy_nonempty.
  - by intros ->.
  - by intros ->.
  - intros Hnone. rewrite bool_decide_eq_false_2.
    + split; [done|]. unfold normalizeMentions. rewrite Hnone.
      destruct (mentions m); by rewrite bool_decide_eq_false_2 by (by intros []).
    + rewrite Hnone. by intros [[? ?] _].
Qed.

Lemma self_message_detection_witness :
  let m := {| message_id := Some "om_1"; message_type := Some "text";
              content := TextField (Some "@_user_1 hello"); chat_id := Some "oc_test123";
              chat_type := Some "group"; create_time := Some "1704067200000";
              mentions := TestConfig.mentionOf TestConfig.BOT |} in
  let data := {| message := Some m; sender_open_id := Some TestConfig.BOT |} in
  accepted (seenMessages (chan newWorld)) 5%Z data m "oc_test123" "@_user_1 hello"
  ∧ ∃ msg,
      trace (handleIncomingMessage TestConfig.ASSISTANT_NAME TestConfig.TRIGGER_PATTERN 5%Z
               TestConfig.groups data newWorld).2
      = trace newWorld ++ [metadataOf 5%Z m "oc_test123"; registeredGroups;
                           onMessage "lark:oc_test123" msg]
      ∧ Message.is_from_me msg = false
      ∧ Message.content msg = "@_user_1 hello".
Proof.
  cbn zeta.
  set (m := {| message_id := Some "om_1"; message_type := Some "text";
               content := TextField (Some "@_user_1 hello"); chat_id := Some "oc_test123";
               chat_type := Some "group"; create_time := Some "1704067200000";
               mentions := TestConfig.mentionOf TestConfig.BOT |}).
  set (data := {| message := Some m; sender_open_id := Some TestConfig.BOT |}).
  assert (accepted (seenMessages (chan newWorld)) 5%Z data m "oc_test123" "@_user_1 hello")
    as Hacc.
  { split; [|vm_compute; reflexivity].
    unfold deliverable. split_and!; [reflexivity|reflexivity|reflexivity|discriminate
      |reflexivity|vm_compute; discriminate|vm_compute; discriminate]. }
  split; [exact Hacc|].
  destruct (self_message_detection TestConfig.ASSISTANT_NAME TestConfig.TRIGGER_PATTERN 5%Z
              TestConfig.groups data newWorld m "oc_test123" "@_user_1 hello" Hacc
              ltac:(vm_compute; eauto))
    as (msg & Htrace & _ & _ & _ & _ & Hnone).
  exists msg. split; [exact Htrace|]. apply Hnone. reflexivity.
Defined.

(** X14 — A creation time outside the range of a date makes the handler
    throw where it renders the timestamp: no callback has been made by then,
    but the id has been recorded before, so the same event delivered again is
    dropped without an error and is never handed over. *)
Theorem invalid_time_rejected_then_dropped
    (ASSISTANT_NAME : string) (TRIGGER_PATTERN : string → bool)
    (now now' : Z) (groups groups' : gmap string RegisteredGroup.t) (data : LarkEvent)
    (w : World) (m : LarkMessage) (mid chatId textContent : string) :
  message data = Some m →
  truthy (message_id m) = Some mid →
  seenMessages (chan w) !! mid = None →
  message_type m = Some "text" →
  content m = TextField (Some textContent) →
  textContent ≠ "" →
  truthy (chat_id m) = Some chatId →
  ¬ (- MAX_TIME_VALUE ≤ numberOr (parseInt10 (create_time m)) now ≤ MAX_TIME_VALUE)%Z →
  let r := handleIncomingMessage ASSISTANT_NAME TRIGGER_PATTERN now groups data w in
  r = (Thrown RangeError,
       {| chan := set_seenMessages (<[mid := now]> (seenMessages (chan w))) (chan w);
          trace := trace w |})
  ∧ handleIncomingMessage ASSISTANT_NAME TRIGGER_PATTERN now' groups' data r.2
    = (Returned tt, r.2).
Proof.
  intros Hm Hid Hnew Htype Hcontent Hne Hchat Hrange. cbn zeta.
  assert (handleIncomingMessage ASSISTANT_NAME TRIGGER_PATTERN now groups data w
          = (Thrown RangeError,
             {| chan := set_seenMessages (<[mid := now]> (seenMessages (chan w))) (chan w);
                trace := trace w |})) as Hfirst.
  { unfold handleIncomingMessage. rewrite Hm. unfold_M. rewrite Hid. cbn [has].
    rewrite bool_decide_eq_false_2 by (rewrite Hnew; by intros [? ?]).
    rewrite (bool_decide_eq_false_2 (message_type m ≠ Some "text")) by (by intros []).
    rewrite Hcontent, (truthy_nonempty _ Hne), Hchat.
    unfold toISOString. rewrite (bool_decide_eq_false_2 _ Hrange). by unfold_M. }
  split; [done|]. rewrite Hfirst. cbn [snd].
  apply handle_duplicate with mid.
  - rewrite Hm. cbn [mbind option_bind]. done.
  - cbn [chan]. exists now. destruct (chan w). cbn. apply lookup_insert_eq.
Qed.

Lemma invalid_time_rejected_then_dropped_witness :
  let m := {| message_id := Some "om_1"; message_type := Some "text";
              content := TextField (Some "Hello"); chat_id := Some "oc_test123";
              chat_type := Some "group"; create_time := Some "99999999999999999";
              mentions := None |} in
  let data := {| message := Some m; sender_open_id := Some "ou_USER_456" |} in
  let r := handleIncomingMessage TestConfig.ASSISTANT_NAME TestConfig.TRIGGER_PATTERN 5%Z
             TestConfig.groups data newWorld in
  ¬ (- MAX_TIME_VALUE ≤ numberOr (parseInt10 (create_time m)) 5 ≤ MAX_TIME_VALUE)%Z
  ∧ r.1 = Thrown RangeError
  ∧ trace r.2 = []
  ∧ handleIncomingMessage TestConfig.ASSISTANT_NAME TestConfig.TRIGGER_PATTERN 6%Z
      TestConfig.groups data r.2 = (Returned tt, r.2).
Proof.
  cbn zeta.
  set (m := {| message_id := Some "om_1"; message_type := Some "text";
               content := TextField (Some "Hello"); chat_id := Some "oc_test123";
               chat_type := Some "group"; create_time := Some "99999999999999999";
               mentions := None |}).
  set (data := {| message := Some m; sender_open_id := Some "ou_USER_456" |}).
  assert (¬ (- MAX_TIME_VALUE ≤ numberOr (parseInt10 (create_time m)) 5 ≤ MAX_TIME_VALUE)%Z)
    as Hrange.
  { intros [_ Hle]. revert Hle. vm_compute. intros Hle. by apply Hle. }
  split; [exact Hrange|].
  destruct (invalid_time_rejected_then_dropped TestConfig.ASSISTANT_NAME
              TestConfig.TRIGGER_PATTERN 5%Z 6%Z TestConfig.groups TestConfig.groups data
              newWorld m "om_1" "oc_test123" "Hello" eq_refl eq_refl eq_refl eq_refl eq_refl
              ltac:(discriminate) eq_refl Hrange) as [Hfirst Hsecond].
  split_and!; [by rewrite Hfirst|by rewrite Hfirst|exact Hsecond].
Defined.

(** ** The splitter at its edges *)

Section SplitterEdges.

Lemma countChar_app c s t : countChar c (s +:+ t) = countChar c s + countChar c t.
Proof.
  induction s as [|d s IH]; [done|].
  rewrite JSFacts.app_cons. cbn [countChar]. rewrite IH. lia.
Qed.

(** A string without a line feed has no boundary to cut at. *)
Lemma lastIndexOf_no_LF s pat pos :
  countChar "010" s = 0 →
  JS.lastIndexOf s (JS.LF +:+ pat) pos = (-1)%Z.
Proof.
  intros Hno. destruct (JSFacts.lastIndexOf_spec s (JS.LF +:+ pat) pos)
    as [->|(k & _ & _ & _ & Hsplit)]; [done|].
  assert (countChar "010" JS.LF = 1) as Hhead by reflexivity.
  rewrite Hsplit, !countChar_app, Hhead in Hno. lia.
Qed.

Lemma splitStep_no_LF maxLen remaining :
  countChar "010" remaining = 0 →
  splitStep maxLen remaining
  = (HardCut, JS.take maxLen remaining, JS.drop maxLen remaining).
Proof.
  intros Hno. unfold splitStep.
  rewrite (lastIndexOf_no_LF remaining JS.LF maxLen Hno).
  rewrite bool_decide_eq_false_2 by lia.
  pose proof (lastIndexOf_no_LF remaining "" maxLen Hno) as Hline.
  change (JS.LF +:+ "") with JS.LF in Hline. rewrite Hline.
  by rewrite bool_decide_eq_false_2 by lia.
Qed.

Lemma splitLoop_hard maxLen :
  1 ≤ maxLen →
  ∀ fuel chunks remaining,
    countChar "010" remaining = 0 →
    String.length remaining < fuel →
    ∃ cs, splitLoop fuel maxLen chunks remaining = Some (chunks ++ cs)
          ∧ concatStrings cs = remaining
          ∧ ∀ i c, cs !! i = Some c → S i < length cs → String.length c = maxLen.
Proof.
  intros Hpos. induction fuel as [|fuel IH]; intros chunks remaining Hno Hfuel; [lia|].
  cbn [splitLoop]. case_bool_decide as Hempty.
  - exists []. rewrite app_nil_r. split_and!; [done| |done].
    destruct remaining; [done|simpl in Hempty; lia].
  - case_bool_decide as Hfit.
    + exists [remaining]. split_and!; [done| |].
      * cbn. by rewrite JSFacts.app_nil_r.
      * intros i c _ Hi. simpl in Hi. lia.
    + rewrite (splitStep_no_LF maxLen remaining Hno).
      pose proof (JSFacts.take_drop maxLen remaining) as Hparts.
      destruct (IH (chunks ++ [JS.take maxLen remaining]) (JS.drop maxLen remaining))
        as (cs & -> & Hcat & Hfull).
      { rewrite <- Hparts, countChar_app in Hno. lia. }
      { rewrite JSFacts.length_drop. lia. }
      exists (JS.take maxLen remaining :: cs). split_and!.
      * by rewrite <- (assoc_L (++)).
      * by rewrite concatStrings_cons, Hcat.
      * intros [|i] c Hc Hi.
        -- injection Hc as <-. rewrite JSFacts.length_take. lia.
        -- apply (Hfull i c Hc). simpl in Hi. lia.
Qed.

(** Whatever the text, no chunk of the loop is empty. *)
Lemma splitLoop_nonempty maxLen :
  1 ≤ maxLen →
  ∀ fuel chunks remaining,
    String.length remaining < fuel →
    ∃ cs, splitLoop fuel maxLen chunks remaining = Some (chunks ++ cs)
          ∧ Forall (λ c, c ≠ "") cs
          ∧ (remaining ≠ "" → cs ≠ []).
Proof.
  intros Hpos. induction fuel as [|fuel IH]; intros chunks remaining Hfuel; [lia|].
  cbn [splitLoop]. case_bool_decide as Hempty.
  - exists []. rewrite app_nil_r. split_and!; [done|done|].
    destruct remaining; [done|simpl in Hempty; lia].
  - case_bool_decide as Hfit.
    + exists [remaining]. split_and!; [done| |done].
      constructor; [|done]. by intros ->.
    + destruct (splitStep maxLen remaining) as [[cut chunk] rest] eqn:Hstep.
      assert (maxLen < String.length remaining) as Hlong by lia.
      destruct (splitStep_spec _ _ _ _ _ Hlong Hstep) as (_ & _ & Hchunk).
      pose proof (splitStep_shortens _ _ _ _ _ Hlong Hstep) as Hshort.
      destruct (IH (chunks ++ [chunk]) rest) as (cs & -> & Hall & _).
      { destruct cut; lia. }
      exists (chunk :: cs). split_and!; [by rewrite <- (assoc_L (++))| |done].
      constructor; [|done]. intros ->. destruct cut; simpl in Hchunk; lia.
Qed.

End SplitterEdges.

(** X15 — A text without a line feed has no boundary to split at and is cut
    into slices: the chunks put end to end are the text, nothing between them
    is dropped, and every chunk but the last has exactly [maxLen]
    characters. *)
Theorem text_without_line_feed_is_sliced (text : string) (maxLen : nat) :
  1 ≤ maxLen →
  countChar "010" text = 0 →
  ∃ chunks, splitMarkdown text maxLen = Some chunks
            ∧ concatStrings chunks = text
            ∧ ∀ i c, chunks !! i = Some c → S i < length chunks →
                     String.length c = maxLen.
Proof.
  intros Hpos Hno. unfold splitMarkdown, splitMarkdown_fuel. case_bool_decide as Hfit.
  - exists [text]. split_and!; [done|cbn; by rewrite JSFacts.app_nil_r|].
    intros i c _ Hi. simpl in Hi. lia.
  - destruct (splitLoop_hard maxLen Hpos (S (String.length text)) [] text Hno)
      as (cs & Hrun & Hcat & Hfull); [lia|].
    by exists cs.
Qed.

Lemma text_without_line_feed_is_sliced_witness :
  countChar "010" "abcdefgh" = 0
  ∧ ∃ chunks, splitMarkdown "abcdefgh" 3 = Some chunks
              ∧ concatStrings chunks = "abcdefgh"
              ∧ ∀ i c, chunks !! i = Some c → S i < length chunks → String.length c = 3.
Proof.
  split; [reflexivity|].
  apply (text_without_line_feed_is_sliced "abcdefgh" 3); [lia|reflexivity].
Defined.

(** X16 — No chunk is empty unless the text is: a boundary is cut at only
    when it is not at the very start, so for a non-empty text and a positive
    [maxLen] the splitter returns at least one chunk and every chunk has a
    character; the empty text alone comes back as one empty chunk. *)
Theorem splitMarkdown_chunks_nonempty (text : string) (maxLen : nat) :
  1 ≤ maxLen →
  ∃ chunks, splitMarkdown text maxLen = Some chunks
            ∧ chunks ≠ []
            ∧ (text ≠ "" → Forall (λ c, c ≠ "") chunks)
            ∧ (text = "" → chunks = [""]).
Proof.
  intros Hpos. unfold splitMarkdown, splitMarkdown_fuel. case_bool_decide as Hfit.
  - exists [text]. split_and!; [done|done| |by intros ->].
    intros Hne. by constructor.
  - destruct (splitLoop_nonempty maxLen Hpos (S (String.length text)) [] text)
      as (cs & Hrun & Hall & Hsome); [lia|].
    assert (text ≠ "") as Hne by (intros ->; simpl in Hfit; lia).
    exists cs. split_and!; [done|by apply Hsome|done|done].
Qed.

Lemma splitMarkdown_chunks_nonempty_witness :
  ∃ chunks, splitMarkdown (JS.LF +:+ JS.LF +:+ "ab" +:+ JS.LF +:+ JS.LF +:+ "cd") 3
            = Some chunks
            ∧ chunks ≠ []
            ∧ Forall (λ c, c ≠ "") chunks.
Proof.
  destruct (splitMarkdown_chunks_nonempty
              (JS.LF +:+ JS.LF +:+ "ab" +:+ JS.LF +:+ JS.LF +:+ "cd") 3)
    as (chunks & Hrun & Hsome & Hall & _); [lia|].
  exists chunks. split_and!; [exact Hrun|exact Hsome|].
  apply Hall. discriminate.
Defined.

(** ** The mention markup, written by the sender and read by the renderer *)

Section MentionReadBack.

Lemma expect_app literal s : expect literal (literal +:+ s) = Some s.
Proof.
  unfold expect. by rewrite JSFacts.startsWith_app, JSFacts.drop_app_length.
Qed.

Lemma run1_app stop run c rest :
  run ≠ "" → allChars (λ c, negb (stop c)) run = true → stop c = true →
  run1 stop (run +:+ String c rest) = Some (run, String c rest).
Proof.
  intros Hne Hrun Hc. unfold run1. rewrite spanUntil_app by done.
  by rewrite bool_decide_eq_false_2.
Qed.

(** The accumulator of the loop is only appended to. *)
Lemma parseLoop_acc fuel : ∀ elements remaining,
  parseLoop fuel elements remaining = (elements ++.) <$> parseLoop fuel [] remaining.
Proof.
  induction fuel as [|fuel IH]; intros elements remaining; [done|].
  cbn [parseLoop]. case_bool_decide; [cbn; by rewrite app_nil_r|].
  destruct (parseStep remaining) as [element rest].
  rewrite (IH (elements ++ [element])), (IH ([] ++ [element])).
  destruct (parseLoop fuel [] rest) as [added|]; [|done].
  cbn. by rewrite <- (assoc_L (++)).
Qed.

Lemma parseLoop_step fuel elements remaining :
  remaining ≠ "" →
  parseLoop (S fuel) elements remaining
  = let '(element, rest) := parseStep remaining in
    parseLoop fuel (elements ++ [element]) rest.
Proof.
  intros Hne. cbn [parseLoop]. rewrite bool_decide_eq_false_2; [done|].
  destruct remaining; [done|simpl; lia].
Qed.

Lemma renderLines_acc lines : ∀ inCodeBlock content,
  renderLines inCodeBlock content lines
  = (content ++.) <$> renderLines inCodeBlock [] lines.
Proof.
  induction lines as [|line lines IH]; intros inCodeBlock content.
  - cbn. by rewrite app_nil_r.
  - assert (∀ b block,
      renderLines b (content ++ [block]) lines
      = (content ++.) <$> renderLines b ([] ++ [block]) lines) as Hpush.
    { intros b block. rewrite (IH b (content ++ [block])), (IH b ([] ++ [block])).
      destruct (renderLines b [] lines) as [blocks|]; [|done].
      cbn. by rewrite <- (assoc_L (++)). }
    cbn [renderLines].
    destruct (JS.startsWith (skipWhiteSpace line) "```"); [apply Hpush|].
    destruct inCodeBlock; [apply Hpush|].
    destruct (headingMatch line) as [title|].
    + destruct (parseLineToElements title) as [els|]; [|done].
      cbn [mbind option_bind]. apply Hpush.
    + case_bool_decide; [apply Hpush|].
      destruct (parseLineToElements line) as [els|]; [|done].
      cbn [mbind option_bind]. case_bool_decide; [apply Hpush|apply IH].
Qed.

(** A prefix without a line feed stays on the first line. *)
Lemma split_app sep s t :
  allChars (λ c, negb (bool_decide (c = sep))) s = true →
  split sep (s +:+ t)
  = match split sep t with
    | first :: rest => (s +:+ first) :: rest
    | [] => [s]
    end.
Proof.
  intros Hs. induction s as [|c s IH].
  - rewrite JSFacts.app_nil_l. destruct (split sep t) eqn:Ht; [|done].
    pose proof (length_split sep t) as Hlen. by rewrite Ht in Hlen.
  - cbn [allChars] in Hs. apply andb_true_iff in Hs as [Hc Hs].
    apply negb_true_iff, bool_decide_eq_false in Hc.
    rewrite JSFacts.app_cons. cbn [split]. rewrite decide_False by done.
    rewrite (IH Hs). destruct (split sep t) as [|first rest] eqn:Ht; [|done].
    pose proof (length_split sep t) as Hlen. by rewrite Ht in Hlen.
Qed.

Lemma mentionMarkup_shape u rest :
  mentionMarkup u +:+ rest
  = ("<at user_id=" +:+ JS.DQ) +:+ MentionUser.id u
      +:+ String "034" (">" +:+ MentionUser.name u +:+ String "<" ("/at> " +:+ rest)).
Proof. unfold mentionMarkup. rewrite !JSFacts.app_assoc. reflexivity. Qed.

Lemma matchAt_mentionMarkup u rest :
  MentionUser.id u ≠ "" →
  allChars (λ c, negb (isChar "034" c)) (MentionUser.id u) = true →
  allChars (λ c, negb (isChar "<" c)) (MentionUser.name u) = true →
  matchAt (mentionMarkup u +:+ rest)
  = Some (MentionUser.id u, MentionUser.name u, " " +:+ rest).
Proof.
  intros Hne Hid Hname. rewrite mentionMarkup_shape. unfold matchAt.
  rewrite expect_app. cbn [mbind option_bind].
  rewrite run1_app by done. cbn [mbind option_bind].
  change (String "034" (">" +:+ MentionUser.name u +:+ String "<" ("/at> " +:+ rest)))
    with ((JS.DQ +:+ ">") +:+ MentionUser.name u +:+ String "<" ("/at> " +:+ rest)).
  rewrite expect_app. cbn [mbind option_bind].
  rewrite spanUntil_app by done.
  change (String "<" ("/at> " +:+ rest)) with ("</at>" +:+ " " +:+ rest).
  by rewrite expect_app.
Qed.

End MentionReadBack.

(** X17 — The mention [_sendDirect] puts in front of the first chunk is read
    back by the renderer: when the user id is not empty and has no double
    quote, the name has no less-than sign and neither has a line feed, the
    post of the prefixed chunk opens with the mention element of that id and
    name, followed by the first line of the chunk read as inline markdown
    behind a space.  With the mention in front, the first line of the chunk
    is never taken for a heading or a fence. *)
Theorem mention_is_read_back (u : MentionUser.t) (chunk first : string) (rest : list string) :
  MentionUser.id u ≠ "" →
  allChars (λ c, negb (isChar "034" c) && negb (isChar "010" c)) (MentionUser.id u) = true →
  allChars (λ c, negb (isChar "<" c) && negb (isChar "010" c)) (MentionUser.name u) = true →
  split "010" chunk = first :: rest →
  ∃ elements blocks,
    parseLineToElements (" " +:+ first) = Some elements
    ∧ renderLines false [] rest = Some blocks
    ∧ markdownToPostContent (mentionMarkup u +:+ chunk)
      = Some {| zh_cn := (ElAt (MentionUser.id u) (MentionUser.name u) :: elements) :: blocks;
                en_us := (ElAt (MentionUser.id u) (MentionUser.name u) :: elements) :: blocks |}.
Proof.
  intros Hne Hid Hname Hlines.
  assert (allChars (λ c, negb (isChar "034" c)) (MentionUser.id u) = true) as Hid1
    by (eapply allChars_impl; [|exact Hid]; by intros c [? _]%andb_true_iff).
  assert (allChars (λ c, negb (isChar "<" c)) (MentionUser.name u) = true) as Hname1
    by (eapply allChars_impl; [|exact Hname]; by intros c [? _]%andb_true_iff).
  assert (allChars (λ c, negb (bool_decide (c = "010"%char))) (mentionMarkup u) = true)
    as Hmarkup.
  { unfold mentionMarkup. rewrite !allChars_app. repeat (apply andb_true_iff; split); try done.
    - eapply allChars_impl; [|exact Hid]. by intros c [_ ?]%andb_true_iff.
    - eapply allChars_impl; [|exact Hname]. by intros c [_ ?]%andb_true_iff. }
  destruct (parseLineToElements_returns (" " +:+ first)) as (els & Hels & _).
  destruct (renderLines_blocks rest false []) as (blocks & Hblocks & _).
  exists els, blocks. split_and!; [done|done|].
  unfold markdownToPostContent. rewrite (split_app _ _ _ Hmarkup), Hlines.
  assert (∃ s, mentionMarkup u +:+ first = String "<" s) as [s Hs]
    by (eexists; unfold mentionMarkup; rewrite !JSFacts.app_assoc; reflexivity).
  assert (parseLineToElements (mentionMarkup u +:+ first)
          = Some (ElAt (MentionUser.id u) (MentionUser.name u) :: els)) as Hline.
  { unfold parseLineToElements. rewrite parseLoop_step by (rewrite Hs; done).
    unfold parseStep. rewrite matchAt_mentionMarkup by done.
    rewrite parseLoop_acc, Hs. cbn [String.length].
    rewrite (parseLoop_fuel_mono _ (S (String.length s)) _ _ _ Hels); [done|].
    apply (f_equal String.length) in Hs. rewrite mentionMarkup_shape in Hs.
    rewrite !JSFacts.length_app in Hs. cbn [String.length] in Hs.
    rewrite !JSFacts.length_app in Hs. cbn [String.length] in Hs.
    rewrite !JSFacts.length_app in Hs. cbn [String.length] in Hs.
    rewrite JSFacts.length_app. cbn [String.length]. lia. }
  cbn [renderLines]. rewrite Hs. cbn [skipWhiteSpace]. rewrite <- Hs.
  assert (isWhiteSpace "<" = false) as -> by reflexivity.
  assert (JS.startsWith (mentionMarkup u +:+ first) "```" = false) as ->
    by (rewrite Hs; reflexivity).
  assert (headingMatch (mentionMarkup u +:+ first) = None) as ->
    by (rewrite Hs; reflexivity).
  rewrite bool_decide_eq_false_2 by (rewrite Hs; done).
  rewrite Hline. cbn [mbind option_bind length]. rewrite bool_decide_eq_true_2 by lia.
  rewrite renderLines_acc, Hblocks. reflexivity.
Qed.

Lemma mention_is_read_back_witness :
  let u := {| MentionUser.id := "ou_USER_456"; MentionUser.name := "Alice" |} in
  split "010" ("# Title" +:+ JS.LF +:+ "body") = ["# Title"; "body"]
  ∧ ∃ elements blocks,
      parseLineToElements (" " +:+ "# Title") = Some elements
      ∧ renderLines false [] ["body"] = Some blocks
      ∧ markdownToPostContent (mentionMarkup u +:+ "# Title" +:+ JS.LF +:+ "body")
        = Some {| zh_cn := (ElAt "ou_USER_456" "Alice" :: elements) :: blocks;
                  en_us := (ElAt "ou_USER_456" "Alice" :: elements) :: blocks |}.
Proof.
  cbn zeta. split; [reflexivity|].
  apply (mention_is_read_back {| MentionUser.id := "ou_USER_456"; MentionUser.name := "Alice" |}
           ("# Title" +:+ JS.LF +:+ "body") "# Title" ["body"]);
    [discriminate|reflexivity|reflexivity|reflexivity].
Defined.

(** ** The inline constructs, one by one *)

Section Inline.

Lemma isMarkup_false c :
  isMarkup c = false →
  isSpecial c = false ∧ c ≠ "]"%char ∧ c ≠ ")"%char ∧ isLineTerminator c = false.
Proof.
  unfold isMarkup, isChar. intros H.
  apply orb_false_iff in H as [H Hterm]. apply orb_false_iff in H as [H Hparen].
  apply orb_false_iff in H as [Hspecial Hbracket].
  apply bool_decide_eq_false in Hparen, Hbracket. done.
Qed.

Lemma plainText_without (stop : ascii → bool) t :
  (∀ c, isMarkup c = false → stop c = false) →
  plainText t → allChars (λ c, negb (stop c)) t = true.
Proof.
  intros Hstop [_ Hall]. eapply allChars_impl; [|exact Hall].
  intros c Hc. apply negb_true_iff in Hc. by rewrite (Hstop c Hc).
Qed.

Lemma plainText_head t :
  plainText t → ∃ c s, t = String c s ∧ isMarkup c = false.
Proof.
  intros [Hne Hall]. destruct t as [|c s]; [done|]. exists c, s. split; [done|].
  cbn [allChars] in Hall. apply andb_true_iff in Hall as [Hc _].
  by apply negb_true_iff.
Qed.

Lemma lazyUntilStars_plain t rest :
  plainText t → lazyUntilStars (t +:+ "**" +:+ rest) = Some (t, rest).
Proof.
  intros [Hne Hall]. induction t as [|c t IH]; [done|].
  cbn [allChars] in Hall. apply andb_true_iff in Hall as [Hc Hall].
  apply negb_true_iff, isMarkup_false in Hc as (Hspecial & _ & _ & Hterm).
  rewrite JSFacts.app_cons. cbn [lazyUntilStars]. rewrite Hterm.
  destruct t as [|d t].
  - rewrite JSFacts.app_nil_l, JSFacts.startsWith_app.
    by rewrite (JSFacts.drop_app_length "**").
  - assert (d ≠ "*"%char) as Hd.
    { cbn [allChars] in Hall. apply andb_true_iff in Hall as [Hd _].
      apply negb_true_iff, isMarkup_false in Hd as (Hd & _).
      by apply isSpecial_false in Hd as (? & _). }
    rewrite JSFacts.app_cons, startsWith_head_ne by done.
    rewrite <- JSFacts.app_cons, IH by done. done.
Qed.

End Inline.

(** X18 — Each inline construct around a plain text, a non-empty text with no
    markup character in it, is read as its element, and reading goes on right
    behind it: two stars on either side give a bold span, one star an italic
    span, backticks a code span, and brackets followed by a target in
    parentheses a link. *)
Theorem inline_constructs_recognised (t href rest : string) :
  plainText t →
  plainText href →
  parseStep ("**" +:+ t +:+ "**" +:+ rest) = (ElText t (Some [Bold]), rest)
  ∧ parseStep ("*" +:+ t +:+ "*" +:+ rest) = (ElText t (Some [Italic]), rest)
  ∧ parseStep ("`" +:+ t +:+ "`" +:+ rest) = (ElText t (Some [Code]), rest)
  ∧ parseStep ("[" +:+ t +:+ "](" +:+ href +:+ ")" +:+ rest) = (ElLink t href, rest).
Proof.
  intros Ht Hhref.
  destruct (plainText_head t Ht) as (c & s & Hcs & Hc).
  apply isMarkup_false in Hc as (Hspecial & _).
  apply isSpecial_false in Hspecial as (Hstar & _).
  assert (∀ d s', d ≠ "<"%char → matchAt (String d s') = None) as HnoAt.
  { intros d s' Hd. unfold matchAt. rewrite expect_None_head; [done|].
    change ("<at user_id=" +:+ JS.DQ) with (String "<" ("at user_id=" +:+ JS.DQ)).
    by apply startsWith_head_ne. }
  assert (∀ d s', d ≠ "["%char → matchLink (String d s') = None) as HnoLink.
  { intros d s' Hd. unfold matchLink. rewrite expect_None_head; [done|].
    by apply startsWith_head_ne. }
  assert (∀ d s', d ≠ "`"%char → matchCode (String d s') = None) as HnoCode.
  { intros d s' Hd. unfold matchCode. rewrite expect_None_head; [done|].
    by apply startsWith_head_ne. }
  pose proof (plainText_without (isChar "*") t) as HnoStar.
  pose proof (plainText_without (isChar "`") t) as HnoTick.
  pose proof (plainText_without (isChar "]") t) as HnoBracket.
  pose proof (plainText_without (isChar ")") href) as HnoParen.
  assert (∀ d, d = "*"%char ∨ d = "`"%char ∨ d = "]"%char ∨ d = ")"%char →
               ∀ c', isMarkup c' = false → isChar d c' = false) as Hstops.
  { intros d Hd c' Hc'. apply isMarkup_false in Hc' as (Hsp & Hb & Hp & _).
    apply isSpecial_false in Hsp as (? & ? & ? & ?). unfold isChar.
    apply bool_decide_eq_false. by destruct Hd as [->|[->|[->| ->]]]. }
  specialize (HnoStar (Hstops "*"%char ltac:(auto)) Ht).
  specialize (HnoTick (Hstops "`"%char ltac:(auto)) Ht).
  specialize (HnoBracket (Hstops "]"%char ltac:(auto)) Ht).
  specialize (HnoParen (Hstops ")"%char ltac:(auto)) Hhref).
  pose proof Ht as [Hne _]. pose proof Hhref as [Hhne _].
  split_and!.
  - unfold parseStep.
    change ("**" +:+ t +:+ "**" +:+ rest) with (String "*" (String "*" (t +:+ "**" +:+ rest))).
    rewrite HnoAt, HnoLink, HnoCode by done.
    unfold matchBold.
    change (String "*" (String "*" (t +:+ "**" +:+ rest))) with ("**" +:+ t +:+ "**" +:+ rest).
    rewrite expect_app. cbn [mbind option_bind].
    by rewrite lazyUntilStars_plain.
  - unfold parseStep.
    change ("*" +:+ t +:+ "*" +:+ rest) with (String "*" (t +:+ "*" +:+ rest)).
    rewrite HnoAt, HnoLink, HnoCode by done.
    assert (matchBold (String "*" (t +:+ "*" +:+ rest)) = None) as ->.
    { unfold matchBold. rewrite expect_None_head; [done|].
      rewrite Hcs, JSFacts.app_cons. cbn [JS.startsWith].
      rewrite decide_True by done. by apply startsWith_head_ne. }
    unfold matchItalic.
    change (String "*" (t +:+ "*" +:+ rest)) with ("*" +:+ t +:+ String "*" rest).
    rewrite expect_app. cbn [mbind option_bind].
    rewrite run1_app by done. cbn [mbind option_bind].
    change (String "*" rest) with ("*" +:+ rest). by rewrite expect_app.
  - unfold parseStep.
    change ("`" +:+ t +:+ "`" +:+ rest) with (String "`" (t +:+ "`" +:+ rest)).
    rewrite HnoAt, HnoLink by done.
    unfold matchCode.
    change (String "`" (t +:+ "`" +:+ rest)) with ("`" +:+ t +:+ String "`" rest).
    rewrite expect_app. cbn [mbind option_bind].
    rewrite run1_app by done. cbn [mbind option_bind].
    change (String "`" rest) with ("`" +:+ rest). by rewrite expect_app.
  - unfold parseStep.
    change ("[" +:+ t +:+ "](" +:+ href +:+ ")" +:+ rest)
      with (String "[" (t +:+ "](" +:+ href +:+ ")" +:+ rest)).
    rewrite HnoAt by done.
    unfold matchLink.
    change (String "[" (t +:+ "](" +:+ href +:+ ")" +:+ rest))
      with ("[" +:+ t +:+ String "]" ("(" +:+ href +:+ ")" +:+ rest)).
    rewrite expect_app. cbn [mbind option_bind].
    rewrite run1_app by done. cbn [mbind option_bind].
    change (String "]" ("(" +:+ href +:+ ")" +:+ rest))
      with ("](" +:+ href +:+ String ")" rest).
    rewrite expect_app. cbn [mbind option_bind].
    rewrite run1_app by done. cbn [mbind option_bind].
    change (String ")" rest) with (")" +:+ rest). by rewrite expect_app.
Qed.

Lemma inline_constructs_recognised_witness :
  (plainText "bold" ∧ plainText "https://example.com")
  ∧ parseStep ("**" +:+ "bold" +:+ "**" +:+ " tail") = (ElText "bold" (Some [Bold]), " tail")
  ∧ parseStep ("*" +:+ "bold" +:+ "*" +:+ " tail") = (ElText "bold" (Some [Italic]), " tail")
  ∧ parseStep ("`" +:+ "bold" +:+ "`" +:+ " tail") = (ElText "bold" (Some [Code]), " tail")
  ∧ parseStep ("[" +:+ "bold" +:+ "](" +:+ "https://example.com" +:+ ")" +:+ " tail")
    = (ElLink "bold" "https://example.com", " tail").
Proof.
  assert (plainText "bold") as Ht by (split; [discriminate|reflexivity]).
  assert (plainText "https://example.com") as Hhref by (split; [discriminate|reflexivity]).
  split; [by split|].
  apply (inline_constructs_recognised "bold" "https://example.com" " tail" Ht Hhref).
Defined.

(** ** Chat-name synchronisation *)

Section ChatSyncFacts.
Variable list_ : nat → option string → ChatSync.Answer.
Variable updateChatName : list (string * string) → string * string → bool.

Lemma storeItems_spec chats : ∀ saved,
  Forall validUpdate saved →
  let r := ChatSync.storeItems updateChatName saved chats in
  Forall validUpdate r.1 ∧ saved `prefix_of` r.1.
Proof.
  induction chats as [|chat chats IH]; intros saved Hsaved; [done|].
  cbn zeta. cbn [ChatSync.storeItems].
  destruct (truthy (ChatSync.chat_id chat)) as [chatId|] eqn:Hid; [|by apply IH].
  destruct (truthy (ChatSync.name chat)) as [chatName|] eqn:Hname; [|by apply IH].
  destruct (updateChatName saved _); [|done].
  apply truthy_Some in Hid as [_ Hid]. apply truthy_Some in Hname as [_ Hname].
  destruct (IH (saved ++ [("lark:" +:+ chatId, chatName)])) as [Hall Hpre].
  - apply Forall_app. split; [done|]. constructor; [|done].
    unfold validUpdate. cbn [fst snd].
    split_and!; [apply ownsJid_jid|by rewrite stripLarkPrefix_jid|done].
  - split; [done|]. etrans; [|exact Hpre]. by apply prefix_app_r.
Qed.

Lemma chained_snoc requests token :
  ChatSync.chained list_ requests →
  (requests = [] ∨
   ∃ before data t, last requests = Some before
     ∧ list_ (pred (length requests)) before = ChatSync.Returns data
     ∧ truthy (data ≫= ChatSync.page_token) = Some t
     ∧ token = Some t) →
  ChatSync.chained list_ (requests ++ [token]).
Proof.
  intros Hchain Hlast i tok Hi.
  destruct (decide (S i < length requests)) as [Hlt|Hge].
  - rewrite lookup_app_l in Hi by done.
    destruct (Hchain i tok Hi) as (before & data & t & Hb & ?).
    exists before, data, t. split; [|done]. rewrite lookup_app_l by lia. done.
  - destruct Hlast as [->|(before & data & t & Hb & Hlist & Ht & ->)].
    + by destruct i.
    + assert (S i = length requests) as Hlen.
      { apply lookup_lt_Some in Hi. rewrite length_app in Hi. simpl in Hi. lia. }
      rewrite lookup_app_r in Hi by lia.
      rewrite Hlen, Nat.sub_diag in Hi. injection Hi as <-.
      exists before, data, t. rewrite <- Hlen in Hlist. cbn [pred] in Hlist.
      split_and!; [|done..]. rewrite lookup_app_l by lia.
      rewrite last_lookup, <- Hlen in Hb. done.
Qed.

Lemma syncLoop_spec fuel : ∀ pageToken log outcome log',
  Forall validUpdate (ChatSync.stored log) →
  ChatSync.chained list_ (ChatSync.requests log ++ [pageToken]) →
  ChatSync.syncLoop list_ updateChatName fuel pageToken log = Some (outcome, log') →
  Forall validUpdate (ChatSync.stored log')
  ∧ ChatSync.stored log `prefix_of` ChatSync.stored log'
  ∧ ChatSync.chained list_ (ChatSync.requests log')
  ∧ ChatSync.requests log ++ [pageToken] `prefix_of` ChatSync.requests log'
  ∧ (∀ count, outcome = ChatSync.Synced count → count = length (ChatSync.stored log')).
Proof.
  induction fuel as [|fuel IH]; intros pageToken log outcome log' Hvalid Hchain; [done|].
  cbn [ChatSync.syncLoop ChatSync.requests ChatSync.stored].
  destruct (list_ (length (ChatSync.requests log)) pageToken) as [|data] eqn:Hlist.
  - intros [= <- <-]. cbn. split_and!; done.
  - pose proof (storeItems_spec (default [] (data ≫= ChatSync.items)) _ Hvalid) as Hstore.
    cbn zeta in Hstore.
    destruct (ChatSync.storeItems updateChatName (ChatSync.stored log)
                (default [] (data ≫= ChatSync.items))) as [saved ok].
    cbn [fst] in Hstore. destruct Hstore as [Hsaved' Hpre].
    destruct ok; [|intros [= <- <-]; cbn; split_and!; done].
    destruct (truthy (data ≫= ChatSync.page_token)) as [token|] eqn:Htoken.
    + intros Hrun.
      apply IH in Hrun as (Hall & Hpre' & Hchain' & Hreq & Hcount); cbn; [| done |].
      * split_and!; [done|by etrans|done| |done].
        etrans; [|exact Hreq]. cbn. by apply prefix_app_r.
      * apply chained_snoc; [done|]. right. exists pageToken, data, token.
        rewrite last_snoc, length_app. cbn. rewrite Nat.add_1_r. done.
    + intros [= <- <-]. cbn. split_and!; [done..|]. by intros count [= <-].
Qed.

(** While every answer carries a token and every store succeeds, the loop
    asks for the next page. *)
Lemma syncLoop_endless fuel : ∀ pageToken log,
  (∀ call token, ∃ data t,
     list_ call token = ChatSync.Returns data
     ∧ truthy (data ≫= ChatSync.page_token) = Some t) →
  (∀ saved update, updateChatName saved update = true) →
  ChatSync.syncLoop list_ updateChatName fuel pageToken log = None.
Proof.
  induction fuel as [|fuel IH]; intros pageToken log Hmore Hstore; [done|].
  cbn [ChatSync.syncLoop].
  destruct (Hmore (length (ChatSync.requests log)) pageToken) as (data & t & -> & ->).
  assert (∀ chats saved, (ChatSync.storeItems updateChatName saved chats).2 = true) as Hok.
  { induction chats as [|chat chats IHc]; intros saved; [done|].
    cbn [ChatSync.storeItems].
    destruct (truthy (ChatSync.chat_id chat)); [|done].
    destruct (truthy (ChatSync.name chat)); [|done]. by rewrite Hstore. }
  specialize (Hok (default [] (data ≫= ChatSync.items)) (ChatSync.stored log)).
  destruct (ChatSync.storeItems _ _ _) as [saved ok]. cbn in Hok. subst ok.
  by apply IH.
Qed.

(** The loop stops at the first answer without a token. *)
Lemma syncLoop_returns last : ∀ fuel pageToken log,
  (∀ token data, list_ last token = ChatSync.Returns data →
                 truthy (data ≫= ChatSync.page_token) = None) →
  length (ChatSync.requests log) ≤ last →
  last - length (ChatSync.requests log) < fuel →
  ∃ r, ChatSync.syncLoop list_ updateChatName fuel pageToken log = Some r
       ∧ length (ChatSync.requests r.2) ≤ S last
       ∧ ∀ fuel', fuel ≤ fuel' →
           ChatSync.syncLoop list_ updateChatName fuel' pageToken log = Some r.
Proof.
  intros fuel. induction fuel as [|fuel IH]; intros pageToken log Hend Hle Hfuel; [lia|].
  assert (∀ r,
    (∀ fuel', ChatSync.syncLoop list_ updateChatName (S fuel') pageToken log = Some r) →
    length (ChatSync.requests r.2) = S (length (ChatSync.requests log)) →
    ∃ r', ChatSync.syncLoop list_ updateChatName (S fuel) pageToken log = Some r'
          ∧ length (ChatSync.requests r'.2) ≤ S last
          ∧ ∀ fuel', S fuel ≤ fuel' →
              ChatSync.syncLoop list_ updateChatName fuel' pageToken log = Some r') as Hstop.
  { intros r Hrun Hlen. exists r. split_and!; [apply Hrun|lia|].
    intros [|fuel'] Hf; [lia|]. apply Hrun. }
  destruct (list_ (length (ChatSync.requests log)) pageToken) as [|data] eqn:Hlist.
  - eapply Hstop.
    + intros fuel'. cbn [ChatSync.syncLoop]. rewrite Hlist. reflexivity.
    + cbn. rewrite length_app. cbn. lia.
  - destruct (ChatSync.storeItems updateChatName (ChatSync.stored log)
                (default [] (data ≫= ChatSync.items))) as [saved ok] eqn:Hstore.
    destruct ok.
    + destruct (truthy (data ≫= ChatSync.page_token)) as [token|] eqn:Htoken.
      * assert (length (ChatSync.requests log) < last) as Hlt.
        { destruct (decide (length (ChatSync.requests log) = last)) as [Heq|]; [|lia].
          rewrite Heq in Hlist. rewrite (Hend _ _ Hlist) in Htoken. done. }
        destruct (IH (Some token)
                    {| ChatSync.requests := ChatSync.requests log ++ [pageToken];
                       ChatSync.stored := saved |} Hend) as (r & Hrun & Hlen & Hmono).
        { cbn. rewrite length_app. cbn. lia. }
        { cbn. rewrite length_app. cbn. lia. }
        exists r. split_and!; [|done|].
        -- cbn [ChatSync.syncLoop]. by rewrite Hlist, Hstore, Htoken.
        -- intros [|fuel'] Hf; [lia|]. cbn [ChatSync.syncLoop].
           rewrite Hlist, Hstore, Htoken. apply Hmono. lia.
      * eapply Hstop.
        -- intros fuel'. cbn [ChatSync.syncLoop]. rewrite Hlist, Hstore, Htoken. reflexivity.
        -- cbn. rewrite length_app. cbn. lia.
    + eapply Hstop.
      * intros fuel'. cbn [ChatSync.syncLoop]. rewrite Hlist, Hstore. reflexivity.
      * cbn. rewrite length_app. cbn. lia.
Qed.

(** With an answer without a token at the request number [last], every run
    given more than [last] requests returns, and returns the same. *)
Lemma sync_ends_at last :
  (∀ token data, list_ last token = ChatSync.Returns data →
                 truthy (data ≫= ChatSync.page_token) = None) →
  ∃ r, ∀ fuel, last < fuel → ChatSync.syncChatMetadata list_ updateChatName fuel = Some r.
Proof.
  intros Hend. unfold ChatSync.syncChatMetadata.
  destruct (syncLoop_returns last (S last) None
              {| ChatSync.requests := []; ChatSync.stored := [] |} Hend)
    as (r & Hrun & Hlen & Hmono); [cbn; lia..|].
  exists r. intros fuel Hfuel. apply Hmono. lia.
Qed.

End ChatSyncFacts.

(** X19 — Whatever the listing answers and however the run ends,
    [syncChatMetadata] stores names only under JIDs of this channel, built
    from a non-empty chat id, and never an empty name; when it completes, the
    count it logs is the number of names stored.  Its first request carries no
    page token and every later one the non-empty token of the answer
    before. *)
Theorem sync_stores_valid_names
    (list_ : nat → option string → ChatSync.Answer)
    (updateChatName : list (string * string) → string * string → bool)
    (fuel : nat) (outcome : ChatSync.Outcome) (log : ChatSync.Log) :
  ChatSync.syncChatMetadata list_ updateChatName fuel = Some (outcome, log) →
  Forall validUpdate (ChatSync.stored log)
  ∧ (∀ count, outcome = ChatSync.Synced count → count = length (ChatSync.stored log))
  ∧ (∃ later, ChatSync.requests log = None :: later)
  ∧ ChatSync.chained list_ (ChatSync.requests log).
Proof.
  intros Hrun. unfold ChatSync.syncChatMetadata in Hrun.
  apply syncLoop_spec in Hrun as (Hvalid & _ & Hchain & [later Hreq] & Hcount); cbn.
  - split_and!; [done|done| |done]. exists later. by rewrite Hreq.
  - done.
  - by intros [|i] token Hi.
Qed.

Lemma sync_stores_valid_names_witness :
  let list_ := λ (call : nat) (token : option string),
    match token with
    | None =>
      ChatSync.Returns (Some
        {| ChatSync.items := Some [{| ChatSync.chat_id := Some "oc_1";
                                      ChatSync.name := Some "Team" |};
                                   {| ChatSync.chat_id := Some "oc_2";
                                      ChatSync.name := None |}];
           ChatSync.page_token := Some "p2" |})
    | Some _ =>
      ChatSync.Returns (Some
        {| ChatSync.items := Some [{| ChatSync.chat_id := Some "oc_3";
                                      ChatSync.name := Some "Ops" |}];
           ChatSync.page_token := None |})
    end in
  let log := {| ChatSync.requests := [None; Some "p2"];
                ChatSync.stored := [("lark:oc_1", "Team"); ("lark:oc_3", "Ops")] |} in
  ChatSync.syncChatMetadata list_ (λ _ _, true) 5 = Some (ChatSync.Synced 2, log)
  ∧ Forall validUpdate (ChatSync.stored log)
  ∧ ChatSync.chained list_ (ChatSync.requests log).
Proof.
  cbn zeta. split; [reflexivity|].
  match goal with |- Forall _ (ChatSync.stored ?log) ∧ ChatSync.chained ?list_ _ =>
    destruct (sync_stores_valid_names list_ (λ _ _, true) 5 (ChatSync.Synced 2) log eq_refl)
      as (Hvalid & _ & _ & Hchain)
  end.
  split; [exact Hvalid|exact Hchain].
Defined.

(** X20 — [syncChatMetadata] returns as soon as an answer comes without a
    page token, if not earlier on an error: when the answers of the request
    number [last] carry none, the run ends within [last + 1] requests, with
    the same result for every bound on the requests beyond [last]. *)
Theorem sync_ends_with_last_page
    (list_ : nat → option string → ChatSync.Answer)
    (updateChatName : list (string * string) → string * string → bool) (last : nat) :
  (∀ token data, list_ last token = ChatSync.Returns data →
                 truthy (data ≫= ChatSync.page_token) = None) →
  ∃ r, length (ChatSync.requests r.2) ≤ S last
       ∧ ∀ fuel, last < fuel → ChatSync.syncChatMetadata list_ updateChatName fuel = Some r.
Proof.
  intros Hend. unfold ChatSync.syncChatMetadata.
  destruct (syncLoop_returns list_ updateChatName last (S last) None
              {| ChatSync.requests := []; ChatSync.stored := [] |} Hend)
    as (r & Hrun & Hlen & Hmono); [cbn; lia..|].
  exists r. split; [done|]. intros fuel Hfuel. apply Hmono. lia.
Qed.

Lemma sync_ends_with_last_page_witness :
  let list_ := λ (call : nat) (token : option string),
    if bool_decide (call < 2)
    then ChatSync.Returns (Some {| ChatSync.items := None; ChatSync.page_token := Some "more" |})
    else ChatSync.Returns (Some {| ChatSync.items := None; ChatSync.page_token := Some "" |}) in
  ∃ r, length (ChatSync.requests r.2) ≤ 3
       ∧ ∀ fuel, 2 < fuel → ChatSync.syncChatMetadata list_ (λ _ _, true) fuel = Some r.
Proof.
  cbn zeta.
  apply (sync_ends_with_last_page
           (λ (call : nat) (token : option string),
              if bool_decide (call < 2)
              then ChatSync.Returns
                     (Some {| ChatSync.items := None; ChatSync.page_token := Some "more" |})
              else ChatSync.Returns
                     (Some {| ChatSync.items := None; ChatSync.page_token := Some "" |}))
           (λ _ _, true) 2).
  intros token data. cbn. by intros [= <-].
Defined.

(** X21 — The loop of [syncChatMetadata] has no bound of its own: as long
    as every answer carries a non-empty page token and every name is stored,
    it asks for the next page, and no number of requests is enough for it to
    return. *)
Theorem sync_never_ends_on_endless_pages
    (list_ : nat → option string → ChatSync.Answer)
    (updateChatName : list (string * string) → string * string → bool) :
  (∀ call token, ∃ data t,
     list_ call token = ChatSync.Returns data
     ∧ truthy (data ≫= ChatSync.page_token) = Some t) →
  (∀ saved update, updateChatName saved update = true) →
  ∀ fuel, ChatSync.syncChatMetadata list_ updateChatName fuel = None.
Proof. intros Hmore Hstore fuel. by apply syncLoop_endless. Qed.

Lemma sync_never_ends_on_endless_pages_witness :
  ChatSync.syncChatMetadata
    (λ _ _, ChatSync.Returns
              (Some {| ChatSync.items := None; ChatSync.page_token := Some "next" |}))
    (λ _ _, true) 1000 = None.
Proof.
  apply (sync_never_ends_on_endless_pages
           (λ _ _, ChatSync.Returns
                     (Some {| ChatSync.items := None; ChatSync.page_token := Some "next" |}))
           (λ _ _, true)).
  - intros call token. by eexists _, _.
  - done.
Defined.

(** ** The OAuth credentials *)

Section Doubles.
Local Open Scope Z_scope.

(** A whole number below 2^53 is a double. *)
Lemma roundToDouble_small x :
  Z.abs x < 2 ^ 53 → Credentials.roundToDouble x = Some x.
Proof. intros Hx. unfold Credentials.roundToDouble. by rewrite bool_decide_eq_true_2. Qed.



(** Inside the range in which whole numbers are doubles the expiry time is
    the exact sum. *)
Lemma expiryOf_exact now expires_in :
  Z.abs (expires_in * 1000) < 2 ^ 53 →
  Z.abs (now + expires_in * 1000) < 2 ^ 53 →
  Credentials.expiryOf now expires_in = Some (now + expires_in * 1000).
Proof.
  intros Hproduct Hsum. unfold Credentials.expiryOf.
  rewrite (roundToDouble_small expires_in) by lia. cbn [mbind option_bind].
  rewrite (roundToDouble_small (expires_in * 1000)) by done. cbn [mbind option_bind].
  by apply roundToDouble_small.
Qed.


(** Beyond 2^53 the sum is rounded: a refresh at time 1 with
    9007199254741 seconds to live stores an even number of milliseconds. *)
Example expiry_is_rounded :
  Credentials.roundToDouble (2 ^ 53 + 1) = Some (2 ^ 53)
  ∧ Credentials.roundToDouble (2 ^ 53 + 3) = Some (2 ^ 53 + 4)
  ∧ Credentials.expiryOf 1 9007199254741 = Some 9007199254741000
  ∧ Credentials.expiryOf 2001 3600 = Some 3602001.
Proof. split_and!; vm_compute; reflexivity. Qed.

End Doubles.


(** X22 — [getClaudeOAuthToken] returns [null] exactly when the file holds
    no usable access token, whatever the endpoint answers, and then leaves the
    file alone.  When the stored token is not due for a refresh, or no refresh
    token is stored with it, or the endpoint gives no parsed answer, the
    stored token is returned and the file is left as it is.  When the answer
    is a parsed body without an access token, the stored token is returned as
    well, but the file, if it can be written, is overwritten with credentials
    that have no access token, and every later call returns [null].  An
    access token in the answer is returned as it is. *)
Theorem stored_token_is_the_fallback
    (now now' : Z) (endpoint : string → Credentials.Response) (writable : bool)
    (file : Credentials.File) :
  let r := Credentials.getClaudeOAuthToken now now' endpoint writable file in
  (r.1 = None ↔ ¬ ∃ token, Credentials.hasToken file token)
  ∧ (r.1 = None → r.2 = file)
  ∧ (∀ creds token,
       Credentials.readCredentialsFile file = Some creds →
       truthy (Credentials.accessToken creds) = Some token →
       Credentials.needsRefresh now creds = false
       ∨ truthy (Credentials.refreshToken creds) = None
       ∨ (∃ refresh, truthy (Credentials.refreshToken creds) = Some refresh
                     ∧ ∀ a b c d, endpoint refresh ≠ Credentials.Data a b c d) →
       r = (Some token, file))
  ∧ (∀ creds token refresh access_token refresh_token expires_in scope,
       Credentials.readCredentialsFile file = Some creds →
       truthy (Credentials.accessToken creds) = Some token →
       Credentials.needsRefresh now creds = true →
       truthy (Credentials.refreshToken creds) = Some refresh →
       endpoint refresh
       = Credentials.Data access_token refresh_token expires_in scope →
       r.1 = Some (default token access_token)
       ∧ (writable = false → r.2 = file)
       ∧ (writable = true →
          ∃ new others,
            r.2 = Credentials.Object (Some new) others
            ∧ Credentials.accessToken new = access_token
            ∧ (truthy access_token = None →
               ∀ later later' endpoint' writable',
                 Credentials.getClaudeOAuthToken later later' endpoint' writable' r.2
                 = (None, r.2)))).
Proof.
  cbn zeta. unfold Credentials.getClaudeOAuthToken, Credentials.hasToken. split_and!.
  - destruct (Credentials.readCredentialsFile file) as [creds|]; cbn.
    + destruct (truthy (Credentials.accessToken creds)) as [token|] eqn:Htoken; cbn.
      * split; [|intros []; by eexists _, _].
        destruct (Credentials.needsRefresh now creds); cbn; [|done].
        destruct (truthy (Credentials.refreshToken creds)); [|done].
        by destruct (Credentials.refreshAccessToken _ _ _ _ _).
      * split; [|done]. intros _ (token & creds' & [= <-] & Hsome). congruence.
    + split; [|done]. by intros _ (token & creds' & ? & _).
  - destruct (Credentials.readCredentialsFile file) as [creds|]; [|done].
    destruct (truthy (Credentials.accessToken creds)) as [token|]; [|done].
    destruct (Credentials.needsRefresh now creds); cbn; [|done].
    destruct (truthy (Credentials.refreshToken creds)); [|done].
    by destruct (Credentials.refreshAccessToken _ _ _ _ _).
  - intros creds token -> -> Hcase.
    destruct Hcase as [->|[Hnone|(refresh & Hrefresh & Hfail)]]; [done| |].
    + rewrite Hnone. by destruct (Credentials.needsRefresh now creds).
    + rewrite Hrefresh. destruct (Credentials.needsRefresh now creds); [|done]. cbn.
      unfold Credentials.refreshAccessToken.
      destruct (endpoint refresh) as [| | |a b c d]; [done..|]. by destruct (Hfail a b c d).
  - intros creds token refresh access_token refresh_token expires_in scope
      Hread Htoken Hdue Hrefresh Hanswer.
    rewrite Hread, Htoken, Hdue, Hrefresh. cbn [negb]. unfold Credentials.refreshAccessToken. rewrite Hanswer.
    cbn [fst snd mbind option_bind Credentials.accessToken].
    destruct file as [| |oauth others]; [done..|]. cbn in Hread. subst oauth.
    split_and!; [done|by intros ->|]. intros ->.
    cbn [Credentials.writeCredentialsFile]. eexists _, others.
    split_and!; [reflexivity|reflexivity|].
    intros Hnone later later' endpoint' writable'.
    cbn [Credentials.readCredentialsFile Credentials.accessToken]. by rewrite Hnone.
Qed.

Lemma stored_token_is_the_fallback_witness :
  let creds := {| Credentials.accessToken := Some "stored";
                  Credentials.refreshToken := Some "refresh";
                  Credentials.expiresAt := Some 1000%Z;
                  Credentials.scopes := [];
                  Credentials.subscriptionType := None;
                  Credentials.rateLimitTier := None |} in
  let file := Credentials.Object (Some creds) [] in
  let r := Credentials.getClaudeOAuthToken 2000 2001
             (λ _, Credentials.Data None None 3600 None) true file in
  Credentials.needsRefresh 2000 creds = true
  ∧ Credentials.getClaudeOAuthToken 2000 2001 (λ _, Credentials.NotOk) true file
    = (Some "stored", file)
  ∧ r.1 = Some "stored"
  ∧ Credentials.getClaudeOAuthToken 5000 5001 (λ _, Credentials.NotOk) true r.2
    = (None, r.2).
Proof.
  cbn zeta.
  set (creds := {| Credentials.accessToken := Some "stored";
                   Credentials.refreshToken := Some "refresh";
                   Credentials.expiresAt := Some 1000%Z;
                   Credentials.scopes := [];
                   Credentials.subscriptionType := None;
                   Credentials.rateLimitTier := None |}).
  split; [reflexivity|]. split.
  - destruct (stored_token_is_the_fallback 2000 2001 (λ _, Credentials.NotOk) true
                (Credentials.Object (Some creds) [])) as (_ & _ & Hstored & _).
    apply (Hstored creds "stored"); [reflexivity|reflexivity|].
    right. right. by exists "refresh".
  - destruct (stored_token_is_the_fallback 2000 2001
                (λ _, Credentials.Data None None 3600 None) true
                (Credentials.Object (Some creds) [])) as (_ & _ & _ & Hanswered).
    destruct (Hanswered creds "stored" "refresh" None None 3600%Z None
                eq_refl eq_refl eq_refl eq_refl eq_refl) as (Hreturned & _ & Hwritten).
    split; [exact Hreturned|].
    destruct (Hwritten eq_refl) as (new & others & _ & _ & Hnext).
    apply (Hnext eq_refl).
Defined.

(** X23 — A token is refreshed exactly when an expiry time is stored and
    less than five minutes remain to it.  With a refresh token stored and an
    answer of the endpoint that carries an access token, that access token is
    returned; the file, when it is an object and can be written, then holds
    the new access token, the new refresh token or else the old one, the
    expiry time counted from the time of the refresh, and none of the
    subscription type and rate-limit tier that were stored before, while the
    other entries of the file are kept.  The expiry time is the sum of the
    time of the refresh and a thousand times the seconds of the answer as
    doubles add up: the exact sum while the product and the sum stay below
    2^53. *)
Theorem refresh_replaces_stored_credentials
    (now now' : Z) (endpoint : string → Credentials.Response)
    (old : Credentials.ClaudeOAuth) (others : list (string * string))
    (token refresh fresh : string) (e : Z)
    (refresh_token : option string) (expires_in : Z) (scope : option string) :
  truthy (Credentials.accessToken old) = Some token →
  truthy (Credentials.refreshToken old) = Some refresh →
  Credentials.expiresAt old = Some e →
  (e - now < Credentials.REFRESH_MARGIN_MS)%Z →
  endpoint refresh = Credentials.Data (Some fresh) refresh_token expires_in scope →
  let r := Credentials.getClaudeOAuthToken now now' endpoint true
             (Credentials.Object (Some old) others) in
  r.1 = Some fresh
  ∧ ∃ new,
      r.2 = Credentials.Object (Some new) others
      ∧ Credentials.accessToken new = Some fresh
      ∧ Credentials.refreshToken new = Some (default refresh refresh_token)
      ∧ Credentials.expiresAt new = Credentials.expiryOf now' expires_in
      ∧ ((Z.abs (expires_in * 1000) < 2 ^ 53)%Z →
         (Z.abs (now' + expires_in * 1000) < 2 ^ 53)%Z →
         Credentials.expiresAt new = Some (now' + expires_in * 1000)%Z)
      ∧ Credentials.subscriptionType new = None
      ∧ Credentials.rateLimitTier new = None
      ∧ (Credentials.getClaudeOAuthToken now now' endpoint false
           (Credentials.Object (Some old) others)
         = (Some fresh, Credentials.Object (Some old) others)).
Proof.
  intros Htoken Hrefresh Hexp Hdue Hanswer. cbn zeta.
  unfold Credentials.getClaudeOAuthToken, Credentials.needsRefresh.
  cbn [Credentials.readCredentialsFile]. rewrite Htoken, Hexp, Hrefresh.
  rewrite bool_decide_eq_true_2 by done. cbn [negb].
  unfold Credentials.refreshAccessToken. rewrite Hanswer.
  cbn [Credentials.writeCredentialsFile mbind option_bind Credentials.accessToken default
       fst snd].
  split; [done|]. eexists. split_and!; try reflexivity.
  cbn [Credentials.expiresAt]. intros Hproduct Hsum. by apply expiryOf_exact.
Qed.

Lemma refresh_replaces_stored_credentials_witness :
  let old := {| Credentials.accessToken := Some "old-access";
                Credentials.refreshToken := Some "old-refresh";
                Credentials.expiresAt := Some 1000%Z;
                Credentials.scopes := ["user:inference"];
                Credentials.subscriptionType := Some "max";
                Credentials.rateLimitTier := Some "default" |} in
  let endpoint := λ _ : string, Credentials.Data (Some "new-access") None 3600 None in
  let r := Credentials.getClaudeOAuthToken 2000 2001 endpoint true
             (Credentials.Object (Some old) [("other", "kept")]) in
  (1000 - 2000 < Credentials.REFRESH_MARGIN_MS)%Z
  ∧ r.1 = Some "new-access"
  ∧ ∃ new,
      r.2 = Credentials.Object (Some new) [("other", "kept")]
      ∧ Credentials.refreshToken new = Some "old-refresh"
      ∧ Credentials.expiresAt new = Some 3602001%Z
      ∧ Credentials.subscriptionType new = None.
Proof.
  cbn zeta. split; [done|].
  destruct (refresh_replaces_stored_credentials 2000 2001
              (λ _ : string, Credentials.Data (Some "new-access") None 3600 None)
              {| Credentials.accessToken := Some "old-access";
                 Credentials.refreshToken := Some "old-refresh";
                 Credentials.expiresAt := Some 1000%Z;
                 Credentials.scopes := ["user:inference"];
                 Credentials.subscriptionType := Some "max";
                 Credentials.rateLimitTier := Some "default" |}
              [("other", "kept")] "old-access" "old-refresh" "new-access" 1000 None 3600 None
              eq_refl eq_refl eq_refl ltac:(done) eq_refl)
    as (Hreturned & new & Hfile & _ & Hrefresh & _ & Hexp & Hsub & _).
  split; [exact Hreturned|]. exists new.
  split_and!; [exact Hfile|exact Hrefresh|apply Hexp; done|exact Hsub].
Defined.



(** ** Dollar patterns in the assistant's name *)

Section Dollar.

Lemma getSubstitution_app literal template matched before after :
  noDollar literal = true →
  getSubstitution (literal +:+ template) matched before after
  = literal +:+ getSubstitution template matched before after.
Proof.
  induction literal as [|c t IH]; [done|]. cbn [noDollar].
  intros [Hc Ht]%andb_true_iff. apply negb_true_iff, bool_decide_eq_false in Hc.
  rewrite !JSFacts.app_cons. cbn [getSubstitution]. rewrite decide_False by done.
  by rewrite IH.
Qed.

End Dollar.

(** X25 — The assistant's name is used as a replacement pattern: a dollar
    followed by an ampersand in it brings the placeholder back into the
    text, and two dollars are written as one.  For a mention of the bot whose
    key first occurs behind [pre], with the name free of dollars elsewhere. *)
Theorem dollar_in_name_is_a_pattern
    (n1 n2 bot pre post : string) (mention : Mention) :
  noDollar n1 = true →
  noDollar n2 = true →
  botEntry bot mention →
  (∀ j, j < String.length pre → ¬ occursAt (pre +:+ key mention +:+ post) (key mention) j) →
  replaceMentions (n1 +:+ "$&" +:+ n2) bot [mention] (pre +:+ key mention +:+ post)
  = pre +:+ ("@" +:+ n1 +:+ key mention +:+ n2) +:+ post
  ∧ replaceMentions (n1 +:+ "$$" +:+ n2) bot [mention] (pre +:+ key mention +:+ post)
    = pre +:+ ("@" +:+ n1 +:+ "$" +:+ n2) +:+ post.
Proof.
  intros Hn1 Hn2 [Hid Hkey] Hfirst. cbn [replaceMentions].
  rewrite !bool_decide_eq_true_2 by done. cbn [andb].
  rewrite !replace_pattern by done.
  assert (∀ tail, getSubstitution ("@" +:+ n1 +:+ tail) (key mention) pre post
                  = "@" +:+ n1 +:+ getSubstitution tail (key mention) pre post) as Hsub.
  { intros tail. change ("@" +:+ n1 +:+ tail) with (String "@" (n1 +:+ tail)).
    cbn [getSubstitution]. rewrite decide_False by done.
    by rewrite getSubstitution_app by done. }
  rewrite !Hsub.
  assert (getSubstitution ("$&" +:+ n2) (key mention) pre post = key mention +:+ n2) as ->.
  { change ("$&" +:+ n2) with (String "$" (String "&" n2)). cbn [getSubstitution].
    rewrite decide_True by done. rewrite decide_False by done.
    rewrite decide_True by done. by rewrite getSubstitution_literal. }
  assert (getSubstitution ("$$" +:+ n2) (key mention) pre post = "$" +:+ n2) as ->.
  { change ("$$" +:+ n2) with (String "$" (String "$" n2)). cbn [getSubstitution].
    rewrite !decide_True by done. by rewrite getSubstitution_literal. }
  done.
Qed.

Lemma dollar_in_name_is_a_pattern_witness :
  let mention := {| key := "@_user_1"; open_id := Some "ou_BOT_123"; mention_name := None |} in
  replaceMentions ("Cash" +:+ "$&" +:+ "") "ou_BOT_123" [mention]
    ("" +:+ "@_user_1" +:+ " hello")
  = "" +:+ ("@" +:+ "Cash" +:+ "@_user_1" +:+ "") +:+ " hello"
  ∧ replaceMentions ("Cash" +:+ "$$" +:+ "") "ou_BOT_123" [mention]
      ("" +:+ "@_user_1" +:+ " hello")
    = "" +:+ ("@" +:+ "Cash" +:+ "$" +:+ "") +:+ " hello".
Proof.
  cbn zeta.
  apply (dollar_in_name_is_a_pattern "Cash" "" "ou_BOT_123" "" " hello"
           {| key := "@_user_1"; open_id := Some "ou_BOT_123"; mention_name := None |});
    [reflexivity|reflexivity|by split|].
  intros j Hj. simpl in Hj. lia.
Defined.

(** ** The connection flag and the queue across tasks *)

Section Connection.
Variable ASSISTANT_NAME : string.
Variable TRIGGER_PATTERN : string → bool.
Variable platform : list Effect → Effect → bool.

Lemma connect_connected listening botInfo list_ updateChatName fuel w :
  connected (chan (connect platform listening botInfo list_ updateChatName fuel w).2)
  = connectedAfter (connected (chan w)) (Connect listening botInfo list_ updateChatName fuel).
Proof.
  unfold connectedAfter. destruct listening; [|done]. rewrite connect_run. cbn zeta.
  match goal with |- context [flushOutgoingQueue platform ?w1] =>
    destruct (flushOutgoingQueue_chan platform w1) as [q' Hchan];
    destruct (flushOutgoingQueue platform w1) as [[[]| |] w2]
  end; cbn [snd chan] in *; rewrite Hchan; by destruct botInfo, (chan w).
Qed.

Lemma runTask_connected task w :
  connected (chan (runTask ASSISTANT_NAME TRIGGER_PATTERN platform task w).2)
  = connectedAfter (connected (chan w)) task.
Proof.
  destruct task as [now groups data|now|jid text opts|l b li up fu|]; cbn [runTask].
  - destruct (handle_spec ASSISTANT_NAME TRIGGER_PATTERN now groups data w _ eq_refl)
      as (es & -> & _). by destruct (chan w).
  - unfold cleanupDedup. unfold_M. destruct (dedupTimer (chan w)); [|done].
    by destruct (chan w).
  - destruct (sendMessage_chan platform jid text opts w) as [q' ->]. by destruct (chan w).
  - apply connect_connected.
  - unfold disconnect. unfold_M. by destruct (chan w).
Qed.

End Connection.

(** X26 — [isConnected] follows the last transition: after any run of tasks
    the flag is what the last [connect()] whose server came up or
    [disconnect()] made it, and what it was before when there was none.  A
    [connect()] that throws while flushing has still set it, one whose server
    does not come up leaves it alone, and no event, sweep or send touches
    it. *)
Theorem isConnected_follows_last_transition
    (ASSISTANT_NAME : string) (TRIGGER_PATTERN : string → bool)
    (platform : list Effect → Effect → bool) (tasks : list Task) (w : World) :
  let w' := runTasks ASSISTANT_NAME TRIGGER_PATTERN platform tasks w in
  isConnected w' = (Returned (foldl connectedAfter (connected (chan w)) tasks), w').
Proof.
  cbn zeta. unfold isConnected. unfold_M. f_equal. f_equal.
  revert w. induction tasks as [|task tasks IH]; intros w; [done|].
  cbn [runTasks foldl]. rewrite <- (runTask_connected ASSISTANT_NAME TRIGGER_PATTERN platform).
  apply IH.
Qed.

(** X27 — A message that could not be sent comes back without its options.
    When both the rich send and the plain retry of a [sendMessage] fail, the
    message is queued as its JID and text only; the next [connect()] on which
    the sends succeed delivers it as plain creates to the chat, one per chunk
    from the first on, chunks already delivered before the failure included,
    with no reply target and no mention, and empties the queue.  That
    [connect()] returns when the chat listing behind the flush comes to an
    end, and has not returned as long as it does not. *)
Theorem queued_message_resent_without_options
    (platform platform' : list Effect → Effect → bool) (w : World)
    (jid text : string) (opts : option SendOpts) (botInfo : option (option string))
    (list_ : nat → option string → ChatSync.Answer)
    (updateChatName : list (string * string) → string * string → bool) (fuel : nat) :
  connected (chan w) = true →
  flushing (chan w) = false →
  outgoingQueue (chan w) = [] →
  outgoingQueue (chan (sendMessage platform jid text opts w).2) ≠ [] →
  (∀ h e, platform' h e = true) →
  let w1 := (sendMessage platform jid text opts w).2 in
  let r := connect platform' true botInfo list_ updateChatName fuel w1 in
  outgoingQueue (chan w1) = [{| item_jid := jid; item_text := text |}]
  ∧ trace r.2 = trace w1 ++ (message_create (stripLarkPrefix jid) Post <$> chunksOf text)
  ∧ outgoingQueue (chan r.2) = []
  ∧ r.1 = match ChatSync.syncChatMetadata list_ updateChatName fuel with
          | Some _ => Returned tt
          | None => Diverged
          end.
Proof.
  intros Hconn Hfl Hempty Hqueued Hgood. cbn zeta.
  assert (∃ t, (sendMessage platform jid text opts w).2
               = {| chan := set_outgoingQueue [{| item_jid := jid; item_text := text |}] (chan w);
                    trace := t |}) as [t Hw1].
  { revert Hqueued. rewrite sendMessage_unfold, Hconn. unfold_M.
    rewrite _sendDirect_perform.
    destruct (perform platform (trace w) _) as [made [|]]; cbn [snd chan trace];
      [by rewrite Hempty|].
    unfold platformCall. cbn [trace chan].
    destruct (platform (trace w ++ made) (fallbackCall jid text opts)); cbn [snd chan trace];
      [by rewrite Hempty|].
    intros _. rewrite Hempty. by eexists. }
  rewrite Hw1. cbn [chan trace]. split; [by destruct (chan w)|].
  rewrite connect_run. cbn zeta. cbn [chan trace].
  set (c1 := set_outgoingQueue [{| item_jid := jid; item_text := text |}] (chan w)).
  set (w2 := {| chan := set_connected true
                          (match botInfo with
                           | Some openId => set_botOpenId openId c1
                           | None => c1
                           end);
                trace := t |}).
  assert (outgoingQueue (chan w2) = [{| item_jid := jid; item_text := text |}]) as Hq
    by (unfold w2, c1; destruct botInfo; by destruct (chan w)).
  assert (flushing (chan w2) = false) as Hfl2
    by (unfold w2, c1; destruct botInfo; destruct (chan w); cbn in *; done).
  pose proof (flushOutgoingQueue_perform platform' w2 Hfl2) as Hflush.
  pose proof (perform_spec platform' (trace w2) (flushCalls (outgoingQueue (chan w2))))
    as Hspec.
  destruct (perform platform' (trace w2) (flushCalls (outgoingQueue (chan w2))))
    as [made ok].
  destruct Hspec as (_ & Hall & _ & Hok).
  assert (ok = true) as -> by (apply Hok; intros; apply Hgood).
  rewrite (Hall eq_refl) in Hflush. destruct Hflush as (q' & Hrun & _ & Hq').
  rewrite (Hq' eq_refl) in Hrun. rewrite Hrun. cbn [fst snd chan trace].
  split_and!; [|by destruct (chan w2)|done].
  rewrite Hq. unfold flushCalls. cbn [mbind list_bind item_jid item_text].
  by rewrite app_nil_r, chunkCalls_plain.
Qed.

Lemma queued_message_resent_without_options_witness :
  let opts := Some {| replyToMessageId := Some "om_1";
                      mentionUser := Some {| MentionUser.id := "ou_USER_456";
                                             MentionUser.name := "Alice" |} |} in
  let w1 := (sendMessage TestConfig.unreachable "lark:oc_test123" "Hi" opts
               TestConfig.connectedWorld).2 in
  let r := connect TestConfig.reliable true None TestConfig.chatList TestConfig.storeName 1
             w1 in
  outgoingQueue (chan w1) = [{| item_jid := "lark:oc_test123"; item_text := "Hi" |}]
  ∧ trace r.2 = trace w1 ++ (message_create (stripLarkPrefix "lark:oc_test123") Post
                               <$> chunksOf "Hi")
  ∧ outgoingQueue (chan r.2) = []
  ∧ r.1 = Returned tt.
Proof.
  cbn zeta.
  apply (queued_message_resent_without_options TestConfig.unreachable TestConfig.reliable
           TestConfig.connectedWorld "lark:oc_test123" "Hi" _ None
           TestConfig.chatList TestConfig.storeName 1);
    [reflexivity|reflexivity|reflexivity|vm_compute; discriminate|done].
Defined.

(** X28 — [connect()] awaits the chat listing: with the server up and every
    send of the flush succeeding, it returns once the listing has come to a
    request whose answers carry no page token, and it does not return, however
    many requests it is given, while every answer carries one and every name
    is stored. *)
Theorem connect_waits_for_chat_listing
    (platform : list Effect → Effect → bool) (w : World) (botInfo : option (option string))
    (list_ : nat → option string → ChatSync.Answer)
    (updateChatName : list (string * string) → string * string → bool) :
  flushing (chan w) = false →
  (∀ before e, before ++ [e] `prefix_of` flushCalls (outgoingQueue (chan w)) →
               platform (trace w ++ before) e = true) →
  (∀ last,
     (∀ token data, list_ last token = ChatSync.Returns data →
                    truthy (data ≫= ChatSync.page_token) = None) →
     ∀ fuel, last < fuel →
       (connect platform true botInfo list_ updateChatName fuel w).1 = Returned tt)
  ∧ ((∀ call token, ∃ data t,
        list_ call token = ChatSync.Returns data
        ∧ truthy (data ≫= ChatSync.page_token) = Some t) →
     (∀ saved update, updateChatName saved update = true) →
     ∀ fuel, (connect platform true botInfo list_ updateChatName fuel w).1 = Diverged).
Proof.
  intros Hfl Hgood.
  assert (∀ fuel,
    (connect platform true botInfo list_ updateChatName fuel w).1
    = match ChatSync.syncChatMetadata list_ updateChatName fuel with
      | Some _ => Returned tt
      | None => Diverged
      end) as Hrun.
  { intros fuel. rewrite connect_run. cbn zeta.
    set (w1 := {| chan := set_connected true
                            (match botInfo with
                             | Some openId => set_botOpenId openId (chan w)
                             | None => chan w
                             end);
                  trace := trace w |}).
    assert (outgoingQueue (chan w1) = outgoingQueue (chan w)) as Hq
      by (unfold w1; by destruct botInfo).
    assert (flushing (chan w1) = false) as Hfl1 by (unfold w1; by destruct botInfo).
    pose proof (flushOutgoingQueue_perform platform w1 Hfl1) as Hflush.
    pose proof (perform_spec platform (trace w1) (flushCalls (outgoingQueue (chan w1))))
      as Hspec.
    destruct (perform platform (trace w1) (flushCalls (outgoingQueue (chan w1))))
      as [made ok].
    destruct Hspec as (_ & _ & _ & Hok). rewrite Hq in Hok.
    assert (ok = true) as -> by (by apply Hok).
    destruct Hflush as (q' & -> & _). done. }
  split.
  - intros last Hend fuel Hfuel. rewrite Hrun.
    destruct (sync_ends_at list_ updateChatName last Hend) as (r & Hr).
    by rewrite (Hr fuel Hfuel).
  - intros Hmore Hstore fuel. rewrite Hrun.
    unfold ChatSync.syncChatMetadata. by rewrite syncLoop_endless.
Qed.

Lemma connect_waits_for_chat_listing_witness :
  (connect TestConfig.reliable true None TestConfig.chatList TestConfig.storeName 3
     newWorld).1 = Returned tt
  ∧ (connect TestConfig.reliable true None
       (λ _ _, ChatSync.Returns
                 (Some {| ChatSync.items := None; ChatSync.page_token := Some "next" |}))
       TestConfig.storeName 1000 newWorld).1 = Diverged.
Proof.
  split.
  - destruct (connect_waits_for_chat_listing TestConfig.reliable newWorld None
                TestConfig.chatList TestConfig.storeName eq_refl) as [Hreturns _]; [done|].
    apply (Hreturns 0); [|lia]. intros token data. by intros [= <-].
  - destruct (connect_waits_for_chat_listing TestConfig.reliable newWorld None
                (λ _ _, ChatSync.Returns
                          (Some {| ChatSync.items := None;
                                   ChatSync.page_token := Some "next" |}))
                TestConfig.storeName eq_refl) as [_ Hwaits]; [done|].
    apply Hwaits; [|done]. intros call token. by eexists _, _.
Defined.
